(** * The overlay-over-XFS filesystem driver of grootfs

    A shallow embedding of [store/filesystems/overlayxfs/driver.go] and the
    properties of its operations.

    The driver is a thin layer over the operating system: every operation is
    a short sequence of system calls ([stat], [mkdir], [rmdir], [mount],
    [umount], project quota control) that stops at the first call that is
    refused; only the two [stat] calls of [CreateImage] stop it on one
    answer alone, "no such file or directory".  The embedding therefore has
    three layers:

    - [filepath]: the pure path functions of Go's [path/filepath] that the
      driver calls ([Clean], [Join]);
    - [kernel]: a deterministic model of the system calls over a [World]
      (the directory tree, the mount table, the quota table), with oracles
      for the refusals the tree does not explain and a trace of the calls
      made;
    - the driver functions, written in the monad [M] of world-passing
      computations that may panic, statement by statement as in the Go
      source.

    Calls to the [lager] logger are observational only and are left out.

    The test double [overlayxfsfakes.FakeUnmounter] is embedded beside the
    driver, as a record that its methods pass along.  [pathshape] describes
    the paths [Clean] produces, for the theorems on when the operations
    succeed. *)

From Stdlib Require Import ZArith Ascii String List.
From stdpp Require Import base option list gmap strings fin_maps.


(** ** Strings *)

Module Strings.

(** [strings.Split(s, "/")]: the components between separators; never
    empty. *)
Fixpoint Split (s : string) : list string :=
  match s with
  | EmptyString => [EmptyString]
  | String c s' =>
      if Ascii.eqb c "/"%char then EmptyString :: Split s'
      else match Split s' with
           | h :: t => String c h :: t
           | [] => [String c EmptyString]
           end
  end.

(** [strings.Join(elems, sep)]. *)
Fixpoint Join (elems : list string) (sep : string) : string :=
  match elems with
  | [] => EmptyString
  | [e] => e
  | e :: rest => e +:+ sep +:+ Join rest sep
  end.

(** [s] occurs in [t]: what it means for a message to mention a name. *)
Definition Contains (t s : string) : Prop :=
  exists pre post : string, t = pre +:+ s +:+ post.

End Strings.

(** ** Paths: Go's [path/filepath] on Unix *)

Module filepath.

(** One step of the component walk of [Clean]: [out] is the stack of
    components kept so far, innermost first.  An empty component and [.]
    are dropped; [..] removes the last kept component when there is one
    that is not itself a kept [..], is dropped at the root, and is kept
    otherwise. *)
Definition clean_step (rooted : bool) (out : list string) (c : string)
  : list string :=
  if String.eqb c "" then out
  else if String.eqb c "." then out
  else if String.eqb c ".." then
    match out with
    | top :: rest =>
        if String.eqb top ".." then c :: out else rest
    | [] => if rooted then out else [c]
    end
  else c :: out.

Definition is_rooted (path : string) : bool :=
  match path with
  | String c _ => Ascii.eqb c "/"%char
  | EmptyString => false
  end.

(** [filepath.Clean]: the shortest path name equivalent to [path] by
    purely lexical processing. *)
Definition Clean (path : string) : string :=
  if String.eqb path "" then "."
  else
    let rooted := is_rooted path in
    let out := fold_left (clean_step rooted) (Strings.Split path) [] in
    let body := Strings.Join (rev out) "/" in
    if rooted then "/" +:+ body
    else if String.eqb body "" then "." else body.

(** [filepath.Join]: the elements from the first non-empty one on, joined
    by the separator and cleaned; the empty string when all are empty. *)
Fixpoint Join (elem : list string) : string :=
  match elem with
  | [] => ""
  | e :: rest =>
      if String.eqb e "" then Join rest
      else Clean (Strings.Join elem "/")
  end.

(** [path\[:i+1\]] for [i] the index of the last separator of [path]. *)
Definition dir_prefix (path : string) : string :=
  match rev (Strings.Split path) with
  | _ :: (_ :: _) as before => Strings.Join (rev before) "/" +:+ "/"
  | _ => ""
  end.

(** [filepath.Dir]: all but the last element of [path], cleaned. *)
Definition Dir (path : string) : string := Clean (dir_prefix path).

End filepath.

(** ** The shape of a clean path *)

Module pathshape.

(** [s] has no separator in it. *)
Fixpoint no_slash (s : string) : bool :=
  match s with
  | EmptyString => true
  | String c s' => negb (Ascii.eqb c "/"%char) && no_slash s'
  end.

(** [n] is the name of one entry: not empty, not [.] or [..], and without
    a separator. *)
Definition plain (n : string) : bool :=
  negb (String.eqb n "") && negb (String.eqb n ".")
  && negb (String.eqb n "..") && no_slash n.

(** The path of the components [comps], outermost first. *)
Definition render (rooted : bool) (comps : list string) : string :=
  let body := Strings.Join comps "/" in
  if rooted then "/" +:+ body
  else if String.eqb body "" then "." else body.

(** The components [Clean] keeps of [path], innermost first. *)
Definition stack (path : string) : list string :=
  fold_left (filepath.clean_step (filepath.is_rooted path))
            (Strings.Split path) [].

(** The stacks [Clean] builds: plain names on top of, under no root, a run
    of [..]. *)
Fixpoint wf (rooted : bool) (out : list string) : Prop :=
  match out with
  | [] => True
  | c :: rest =>
      (plain c = true /\ wf rooted rest)
      \/ (c = ".." /\ rooted = false /\ Forall (fun c' => c' = "..") rest)
  end.

End pathshape.

(** ** Errors *)

(** The error numbers the model distinguishes. *)
Inductive Errno : Set :=
  | EPERM | ENOENT | EIO | EACCES | EEXIST | EBUSY | EINVAL | ENOSPC
  | ENOTEMPTY | ENODEV | ENOTDIR.

#[global] Instance Errno_eq_dec : EqDecision Errno.
Proof. solve_decision. Defined.

Definition Errno_Error (e : Errno) : string :=
  match e with
  | EPERM => "operation not permitted"
  | ENOENT => "no such file or directory"
  | EIO => "input/output error"
  | EACCES => "permission denied"
  | EEXIST => "file exists"
  | EBUSY => "device or resource busy"
  | EINVAL => "invalid argument"
  | ENOSPC => "no space left on device"
  | ENOTEMPTY => "directory not empty"
  | ENODEV => "no such device"
  | ENOTDIR => "not a directory"
  end.

(** Go's [error] values as the driver meets and builds them.  A Go [error]
    that may be [nil] is an [option error]. *)
Inductive error : Set :=
  | PathError (op path : string) (e : Errno)     (* *os.PathError *)
  | SyscallErrno (e : Errno)                     (* syscall.Errno *)
  | QuotaError (what : string) (e : Errno)       (* errors of the quota package *)
  | errorString (s : string)                     (* fmt.Errorf *)
  | withMessage (cause : error) (msg : string).  (* errors.Wrap, errors.Wrapf *)

(** The [Error()] method. *)
Fixpoint Error (err : error) : string :=
  match err with
  | PathError op path e => op +:+ " " +:+ path +:+ ": " +:+ Errno_Error e
  | SyscallErrno e => Errno_Error e
  | QuotaError what e => what +:+ ": " +:+ Errno_Error e
  | errorString s => s
  | withMessage cause msg => msg +:+ ": " +:+ Error cause
  end.

(** [os.IsNotExist]: looks through [*os.PathError] at the error number;
    it does not look through the wrappers of [pkg/errors]. *)
Definition os_IsNotExist (err : option error) : bool :=
  match err with
  | Some (PathError _ _ ENOENT) => true
  | Some (SyscallErrno ENOENT) => true
  | _ => false
  end.

(** [errors.Wrap(err, msg)]: [nil] when [err] is [nil]. *)
Definition errors_Wrap (err : option error) (msg : string) : option error :=
  match err with
  | Some cause => Some (withMessage cause msg)
  | None => None
  end.

(** [err != nil]. *)
Definition notNil (err : option error) : bool :=
  match err with
  | Some _ => true
  | None => false
  end.

(** ** The operating system *)

(** The system calls the driver makes, with their arguments. *)
Inductive Syscall : Set :=
  | SysStat (name : string)
  | SysMkdir (name : string) (perm : N)
  | SysRemove (name : string)
  | SysRemoveAll (path : string)
  | SysMount (source target fstype : string) (flags : N) (data : string)
  | SysUnmount (target : string) (flags : N)
  | SysQuotaControl (basePath : string)
  | SysSetQuota (basePath targetPath : string) (size : Z).

(** A call that was made, and the error number it was refused with, if any. *)
Record Event : Set := Ev { ev_call : Syscall; ev_res : option Errno }.

Record MountEntry : Set := Mnt {
  mnt_source : string;
  mnt_target : string;
  mnt_fstype : string;
  mnt_flags : N;
  mnt_data : string
}.

(** The world the driver runs in.

    - [fs]: the entries of the file tree, keyed by their clean path, with
      their mode: the permission bits they were created with and, for a
      regular file, the type bits [S_IFREG].  The driver creates directories
      only and never asks for the kind of an entry; no call of the model
      looks at it, and what the kernel refuses because an entry is no
      directory is for the oracles.
    - [mounts]: the mount table, the latest mount first.
    - [quotas]: the size limit, in bytes, of the project quota set on a
      directory.
    - [faults]: the refusals the tree does not explain (missing privilege, no
      overlay or quota support, a busy target, a component that is no
      directory, an I/O error): a state-changing call the oracle names is
      refused with that error number and changes nothing.
    - [hidden]: the names [stat] fails on for a reason the tree does not
      explain, each with the error number [stat] answers: a name that
      passes through a missing component or through a file, a directory
      that may not be searched, an I/O error.  It is keyed by the name as it
      is given to [stat].  A name under which a directory has just been made
      is taken off: who made a directory can [stat] it.
    - [trace]: every call made so far, the oldest first. *)
Record World : Type := mkWorld {
  fs : gmap string N;
  mounts : list MountEntry;
  quotas : gmap string Z;
  faults : Syscall -> option Errno;
  hidden : gmap string Errno;
  trace : list Event
}.

Definition set_fs (f : gmap string N) (w : World) : World :=
  mkWorld f (mounts w) (quotas w) (faults w) (hidden w) (trace w).

Definition set_mounts (m : list MountEntry) (w : World) : World :=
  mkWorld (fs w) m (quotas w) (faults w) (hidden w) (trace w).

Definition set_quotas (q : gmap string Z) (w : World) : World :=
  mkWorld (fs w) (mounts w) q (faults w) (hidden w) (trace w).

Definition set_hidden (h : gmap string Errno) (w : World) : World :=
  mkWorld (fs w) (mounts w) (quotas w) (faults w) h (trace w).

Definition record (ev : Event) (w : World) : World :=
  mkWorld (fs w) (mounts w) (quotas w) (faults w) (hidden w) (trace w ++ [ev]).

(** The type bits of a mode: the mask [S_IFMT], the value [S_IFREG] of a
    regular file, and the test for it. *)
Definition S_IFMT : N := 61440 (* 0170000 *).
Definition S_IFREG : N := 32768 (* 0100000 *).

Definition is_regular (mode : N) : bool :=
  (N.land mode S_IFMT =? S_IFREG)%N.

(** [path] lies strictly below [dir] (both clean). *)
Definition under (dir path : string) : bool :=
  String.prefix (if String.eqb dir "/" then "/" else dir +:+ "/") path
  && negb (String.eqb path dir).

(** [path] is [dir] or lies below it. *)
Definition within (dir path : string) : bool :=
  String.eqb path dir || under dir path.

(** The entries of [f] strictly below [dir]. *)
Definition below (dir : string) (f : gmap string N) : gmap string N :=
  filter (fun kv => Is_true (under dir kv.1)) f.

(** The entries of [f] that are neither [dir] nor below it. *)
Definition outside (dir : string) (f : gmap string N) : gmap string N :=
  filter (fun kv => ~ Is_true (within dir kv.1)) f.

Definition mounted_at (target : string) (ms : list MountEntry) : bool :=
  existsb (fun m => String.eqb (mnt_target m) target) ms.

Definition mounted_within (dir : string) (ms : list MountEntry) : bool :=
  existsb (fun m => within dir (mnt_target m)) ms.

(** Removes the latest mount on [target]. *)
Fixpoint unmount_top (target : string) (ms : list MountEntry)
  : list MountEntry :=
  match ms with
  | [] => []
  | m :: rest =>
      if String.eqb (mnt_target m) target then rest
      else m :: unmount_top target rest
  end.

(** What a call does to the tree, the mount table and the quota table when
    no oracle refuses it.  A refused call changes nothing.

    The model follows the entries the driver names in its own calls.  What
    the callee does besides is left out: the device node that
    [quota.NewControl] makes in its base directory, the directory [work]
    that overlayfs makes inside the work directory.  [umount] takes off the
    latest mount on its target; that it is refused while other mounts lie
    below the target, and the like, is for the oracle. *)
Definition effect (c : Syscall) (w : World) : option Errno * World :=
  match c with
  | SysStat name =>
      match fs w !! filepath.Clean name with
      | Some _ => (None, w)
      | None => (Some ENOENT, w)
      end
  | SysMkdir name perm =>
      let p := filepath.Clean name in
      match fs w !! p with
      | Some _ => (Some EEXIST, w)
      | None =>
          match fs w !! filepath.Dir p with
          | None => (Some ENOENT, w)
          | Some _ =>
              (None, set_hidden (delete name (hidden w))
                                (set_fs (<[p := perm]> (fs w)) w))
          end
      end
  | SysRemove name =>
      let p := filepath.Clean name in
      match fs w !! p with
      | None => (Some ENOENT, w)
      | Some _ =>
          if mounted_at p (mounts w) then (Some EBUSY, w)
          else if decide (below p (fs w) = ∅)
               then (None, set_fs (delete p (fs w)) w)
               else (Some ENOTEMPTY, w)
      end
  | SysRemoveAll path =>
      let p := filepath.Clean path in
      if mounted_within p (mounts w) then (Some EBUSY, w)
      else (None, set_fs (outside p (fs w)) w)
  | SysMount source target fstype flags data =>
      let p := filepath.Clean target in
      match fs w !! p with
      | None => (Some ENOENT, w)
      | Some _ =>
          (None, set_mounts (Mnt source p fstype flags data :: mounts w) w)
      end
  | SysUnmount target flags =>
      let p := filepath.Clean target in
      if mounted_at p (mounts w)
      then (None, set_mounts (unmount_top p (mounts w)) w)
      else (Some EINVAL, w)
  | SysQuotaControl basePath =>
      match fs w !! filepath.Clean basePath with
      | None => (Some ENOENT, w)
      | Some _ => (None, w)
      end
  | SysSetQuota basePath targetPath size =>
      let p := filepath.Clean targetPath in
      match fs w !! p with
      | None => (Some ENOENT, w)
      | Some _ => (None, set_quotas (<[p := size]> (quotas w)) w)
      end
  end.

(** Every call is first put to an oracle: [stat], which changes nothing, to
    the names it fails on, every other call to the faults.  So [stat] may
    fail on a name whose clean path is in the tree, and with any error
    number; when no oracle speaks, the tree decides. *)
Definition refusal (c : Syscall) (w : World) : option Errno :=
  match c with
  | SysStat name => hidden w !! name
  | _ => faults w c
  end.

(** One system call: refused by an oracle or carried out, and recorded. *)
Definition kernel (c : Syscall) (w : World) : option Errno * World :=
  let '(res, w') :=
    match refusal c w with
    | Some e => (Some e, w)
    | None => effect c w
    end in
  (res, record (Ev c res) w').

(** The tree, the mount table and the quota table after a call that
    succeeded. *)
Definition fs_after (c : Syscall) (f : gmap string N) : gmap string N :=
  match c with
  | SysMkdir name perm => <[filepath.Clean name := perm]> f
  | SysRemove name => delete (filepath.Clean name) f
  | SysRemoveAll path => outside (filepath.Clean path) f
  | _ => f
  end.

Definition mounts_after (c : Syscall) (ms : list MountEntry)
  : list MountEntry :=
  match c with
  | SysMount source target fstype flags data =>
      Mnt source (filepath.Clean target) fstype flags data :: ms
  | SysUnmount target _ => unmount_top (filepath.Clean target) ms
  | _ => ms
  end.

Definition quotas_after (c : Syscall) (q : gmap string Z) : gmap string Z :=
  match c with
  | SysSetQuota _ targetPath size => <[filepath.Clean targetPath := size]> q
  | _ => q
  end.

Definition is_mount (c : Syscall) : bool :=
  match c with
  | SysMount _ _ _ _ _ => true
  | _ => false
  end.

Definition is_mkdir (c : Syscall) : bool :=
  match c with
  | SysMkdir _ _ => true
  | _ => false
  end.

Definition is_removal (c : Syscall) : bool :=
  match c with
  | SysRemove _ | SysRemoveAll _ => true
  | _ => false
  end.

Definition is_unmount (c : Syscall) : bool :=
  match c with
  | SysUnmount _ _ => true
  | _ => false
  end.

Definition is_set_quota (c : Syscall) : bool :=
  match c with
  | SysSetQuota _ _ _ => true
  | _ => false
  end.

(** ** Computations *)

(** How a Go call ends: it returns its results, or it panics. *)
Inductive outcome (A : Type) : Type :=
  | Returns (a : A)
  | Panics (v : string).
Arguments Returns {A} a.
Arguments Panics {A} v.

(** A computation threads the world through its calls. *)
Definition M (A : Type) : Type := World -> outcome A * World.

#[global] Instance M_ret : MRet M := fun A a w => (Returns a, w).

#[global] Instance M_bind : MBind M := fun A B k m w =>
  match m w with
  | (Returns a, w') => k a w'
  | (Panics v, w') => (Panics v, w')
  end.

(** [panic(v)]. *)
Definition panic {A : Type} (v : string) : M A := fun w => (Panics v, w).

(** A system call as a computation. *)
Definition sys (c : Syscall) : M (option Errno) :=
  fun w => let '(res, w') := kernel c w in (Returns res, w').

(** ** The library calls of the driver *)

(** [os.Stat(name)], without the [FileInfo] the driver discards. *)
Definition os_Stat (name : string) : M (option error) :=
  res ← sys (SysStat name); mret (PathError "stat" name <$> res).

(** [os.Mkdir(name, perm)]. *)
Definition os_Mkdir (name : string) (perm : N) : M (option error) :=
  res ← sys (SysMkdir name perm); mret (PathError "mkdir" name <$> res).

(** [os.Remove(name)]. *)
Definition os_Remove (name : string) : M (option error) :=
  res ← sys (SysRemove name); mret (PathError "remove" name <$> res).

(** [os.RemoveAll(path)]. *)
Definition os_RemoveAll (path : string) : M (option error) :=
  res ← sys (SysRemoveAll path); mret (PathError "unlinkat" path <$> res).

(** [syscall.Mount(source, target, fstype, flags, data)]. *)
Definition syscall_Mount (source target fstype : string) (flags : N)
    (data : string) : M (option error) :=
  res ← sys (SysMount source target fstype flags data);
  mret (SyscallErrno <$> res).

(** [syscall.Unmount(target, flags)]. *)
Definition syscall_Unmount (target : string) (flags : N) : M (option error) :=
  res ← sys (SysUnmount target flags); mret (SyscallErrno <$> res).

Module quota.

(** [quota.Quota]. *)
Record Quota : Set := mkQuota { Size : Z }.

(** [*quota.Control], the handle on the directory whose file system
    carries the project quotas. *)
Record Control : Set := mkControl { backingPath : string }.

(** [quota.NewControl(basePath)]. *)
Definition NewControl (basePath : string)
  : M (option Control * option error) :=
  res ← sys (SysQuotaControl basePath);
  mret (match res with
        | None => (Some (mkControl basePath), None)
        | Some e => (None, Some (QuotaError "quota control" e))
        end).

(** [(q *Control).SetQuota(targetPath, quota)], on a pointer that may be
    [nil]. *)
Definition SetQuota (q : option Control) (targetPath : string)
    (quota : Quota) : M (option error) :=
  match q with
  | None => panic "invalid memory address or nil pointer dereference"
  | Some q =>
      res ← sys (SysSetQuota (backingPath q) targetPath (Size quota));
      mret (QuotaError "set quota" <$> res)
  end.

End quota.

(** ** The driver *)

Definition UpperDir : string := "diff".
Definition WorkDir : string := "workdir".
Definition RootfsDir : string := "rootfs".

(** Modelled from the spec: the constants [store.VolumesDirName] and
    [store.ImageDirName] of package [store], after the store layout
    ([store-path/volumes/<volume-id>], [store-path/images/<image-id>]). *)
Definition VolumesDirName : string := "volumes".
Definition ImageDirName : string := "images".

(** Modelled from the spec: the type [image_cloner.ImageDriverSpec], with
    the three fields the driver reads.  [ImagePath] and [BaseVolumePath] are
    handed to [os.Stat] and are strings; [DiskLimit] is compared with [0]
    and converted to [uint64]: a signed 64-bit number of bytes. *)
Record ImageDriverSpec : Set := mkSpec {
  ImagePath : string;
  BaseVolumePath : string;
  DiskLimit : Z
}.

(** The values of [int64]. *)
Definition int64_range (z : Z) : Prop := (- 2 ^ 63 <= z < 2 ^ 63)%Z.

(** The conversion [uint64(z)] of a signed 64-bit [z]. *)
Definition uint64 (z : Z) : Z := (z mod 2 ^ 64)%Z.

(** Modelled from the spec: the type [groot.VolumeStats],
    [{exclusive-bytes-used, total-bytes-used}]. *)
Record VolumeStats : Set := mkStats {
  ExclusiveBytesUsed : Z;
  TotalBytesUsed : Z
}.

Record Driver : Set := mkDriver { storePath : string }.

Definition NewDriver (storePath : string) : Driver := mkDriver storePath.

Definition VolumePath (d : Driver) (id : string)
  : M (string * option error) :=
  let volPath := filepath.Join [storePath d; VolumesDirName; id] in
  err ← os_Stat volPath;
  match err with
  | None => mret (volPath, None)
  | Some e =>
      mret ("", Some (errorString
                        ("volume does not exist `" +:+ id +:+ "`: " +:+ Error e)))
  end.

Definition CreateVolume (d : Driver) (parentID id : string)
  : M (string * option error) :=
  let volumePath := filepath.Join [storePath d; VolumesDirName; id] in
  err ← os_Mkdir volumePath 448 (* 0700 *);
  if notNil err then mret ("", errors_Wrap err "creating volume")
  else mret (volumePath, None).

Definition DestroyVolume (d : Driver) (id : string) : M (option error) :=
  panic "not implemented".

Definition Volumes (d : Driver) : M (list string * option error) :=
  panic "not implemented".

Definition applyDiskLimit (d : Driver) (spec : ImageDriverSpec)
  : M (option error) :=
  if (DiskLimit spec =? 0)%Z then mret None
  else
    let imagesPath := filepath.Join [storePath d; ImageDirName] in
    '(quotaControl, err) ← quota.NewControl imagesPath;
    if notNil err
    then mret (errors_Wrap err ("creating xfs quota control " +:+ imagesPath))
    else
    let quota := quota.mkQuota (uint64 (DiskLimit spec)) in
    err ← quota.SetQuota quotaControl (ImagePath spec) quota;
    if notNil err
    then mret (errors_Wrap err ("setting quota to " +:+ ImagePath spec))
    else mret None.

Definition CreateImage (d : Driver) (spec : ImageDriverSpec)
  : M (option error) :=
  err ← os_Stat (ImagePath spec);
  if os_IsNotExist err then mret (errors_Wrap err "image path does not exist")
  else
  err ← os_Stat (BaseVolumePath spec);
  if os_IsNotExist err
  then mret (errors_Wrap err "base volume path does not exist")
  else
  let upperDir := filepath.Join [ImagePath spec; UpperDir] in
  let workDir := filepath.Join [ImagePath spec; WorkDir] in
  let rootfsDir := filepath.Join [ImagePath spec; RootfsDir] in
  err ← applyDiskLimit d spec;
  if notNil err then mret (errors_Wrap err "applying disk limits") else
  err ← os_Mkdir upperDir 448 (* 0700 *);
  if notNil err then mret (errors_Wrap err "creating upperdir folder") else
  err ← os_Mkdir workDir 448 (* 0700 *);
  if notNil err then mret (errors_Wrap err "creating workdir folder") else
  err ← os_Mkdir rootfsDir 448 (* 0700 *);
  if notNil err then mret (errors_Wrap err "creating rootfs folder") else
  let mountData :=
    "lowerdir=" +:+ BaseVolumePath spec +:+ ",upperdir=" +:+ upperDir
    +:+ ",workdir=" +:+ workDir in
  err ← syscall_Mount "overlay" rootfsDir "overlay" 0 mountData;
  if notNil err then mret (errors_Wrap err "mounting overlay") else
  mret None.

(** The statements of [CreateImage] after its two checks (lines 77 to
    110): what it does once neither [os.Stat] has answered that the path
    does not exist. *)
Definition CreateImage_setup (d : Driver) (spec : ImageDriverSpec)
  : M (option error) :=
  let upperDir := filepath.Join [ImagePath spec; UpperDir] in
  let workDir := filepath.Join [ImagePath spec; WorkDir] in
  let rootfsDir := filepath.Join [ImagePath spec; RootfsDir] in
  err ← applyDiskLimit d spec;
  if notNil err then mret (errors_Wrap err "applying disk limits") else
  err ← os_Mkdir upperDir 448 (* 0700 *);
  if notNil err then mret (errors_Wrap err "creating upperdir folder") else
  err ← os_Mkdir workDir 448 (* 0700 *);
  if notNil err then mret (errors_Wrap err "creating workdir folder") else
  err ← os_Mkdir rootfsDir 448 (* 0700 *);
  if notNil err then mret (errors_Wrap err "creating rootfs folder") else
  let mountData :=
    "lowerdir=" +:+ BaseVolumePath spec +:+ ",upperdir=" +:+ upperDir
    +:+ ",workdir=" +:+ workDir in
  err ← syscall_Mount "overlay" rootfsDir "overlay" 0 mountData;
  if notNil err then mret (errors_Wrap err "mounting overlay") else
  mret None.

Definition DestroyImage (d : Driver) (imagePath : string)
  : M (option error) :=
  err ← syscall_Unmount (filepath.Join [imagePath; RootfsDir]) 0;
  if notNil err then mret (errors_Wrap err "unmounting rootfs folder") else
  err ← os_Remove (filepath.Join [imagePath; RootfsDir]);
  if notNil err then mret (errors_Wrap err "deleting rootfs folder") else
  err ← os_RemoveAll (filepath.Join [imagePath; WorkDir]);
  if notNil err then mret (errors_Wrap err "deleting workdir folder") else
  err ← os_RemoveAll (filepath.Join [imagePath; UpperDir]);
  if notNil err then mret (errors_Wrap err "deleting upperdir folder") else
  mret None.

Definition FetchStats (d : Driver) (path : string)
  : M (VolumeStats * option error) :=
  panic "not implemented".

(** ** Scripts *)

(** Each driver operation makes a fixed list of calls, in order, and, the
    two checks of [CreateImage] apart, stops at the first refused one.
    [run_calls] is that discipline on its own: it reports the refused call,
    if any. *)
Fixpoint run_calls (cs : list Syscall) (w : World)
  : option (Syscall * Errno) * World :=
  match cs with
  | [] => (None, w)
  | c :: cs' =>
      match kernel c w with
      | (Some e, w') => (Some (c, e), w')
      | (None, w') => run_calls cs' w'
      end
  end.

(** The calls recorded between two worlds. *)
Definition events_since (w w' : World) : list Event :=
  drop (length (trace w)) (trace w').

Definition succeeded (ev : Event) : Prop := ev_res ev = None.

(** The calls of [DestroyImage], in the order of the source. *)
Definition DestroyImage_calls (imagePath : string) : list Syscall :=
  [ SysUnmount (filepath.Join [imagePath; RootfsDir]) 0;
    SysRemove (filepath.Join [imagePath; RootfsDir]);
    SysRemoveAll (filepath.Join [imagePath; WorkDir]);
    SysRemoveAll (filepath.Join [imagePath; UpperDir]) ].

(** The calls of [applyDiskLimit]. *)
Definition applyDiskLimit_calls (d : Driver) (spec : ImageDriverSpec)
  : list Syscall :=
  if (DiskLimit spec =? 0)%Z then []
  else
    [ SysQuotaControl (filepath.Join [storePath d; ImageDirName]);
      SysSetQuota (filepath.Join [storePath d; ImageDirName])
                  (ImagePath spec) (uint64 (DiskLimit spec)) ].

(** The mount options [CreateImage] formats. *)
Definition mountData (spec : ImageDriverSpec) : string :=
  "lowerdir=" +:+ BaseVolumePath spec
  +:+ ",upperdir=" +:+ filepath.Join [ImagePath spec; UpperDir]
  +:+ ",workdir=" +:+ filepath.Join [ImagePath spec; WorkDir].

(** The calls of [CreateImage] after its two checks. *)
Definition CreateImage_setup_calls (d : Driver) (spec : ImageDriverSpec)
  : list Syscall :=
  applyDiskLimit_calls d spec
  ++ [ SysMkdir (filepath.Join [ImagePath spec; UpperDir]) 448;
       SysMkdir (filepath.Join [ImagePath spec; WorkDir]) 448;
       SysMkdir (filepath.Join [ImagePath spec; RootfsDir]) 448;
       SysMount "overlay" (filepath.Join [ImagePath spec; RootfsDir])
                "overlay" 0 (mountData spec) ].

(** [path] names an entry of the tree. *)
Definition exists_in (w : World) (path : string) : Prop :=
  is_Some (fs w !! filepath.Clean path).

(** [path] names a directory of the tree. *)
Definition directory_in (w : World) (path : string) : Prop :=
  exists mode,
    fs w !! filepath.Clean path = Some mode /\ is_regular mode = false.

(** A mount lies strictly below [dir]. *)
Definition mounted_below (dir : string) (ms : list MountEntry) : bool :=
  existsb (fun m => under dir (mnt_target m)) ms.

(** The answer of [os.Stat] on [name] is "no such file or directory". *)
Definition not_found (w : World) (name : string) : Prop :=
  exists err, (os_Stat name w).1 = Returns err /\ os_IsNotExist err = true.

(** ** What the specification asks of the mount

    The specification hands [create-image] a chain of base volume paths and
    asks for these mount options. *)
Definition spec_mountData (chain : list string) (upper work : string)
  : string :=
  "lowerdir=" +:+ Strings.Join chain ":"
  +:+ ",upperdir=" +:+ upper +:+ ",workdir=" +:+ work.

(** A chain of two base volumes, the base layer first. *)
Definition chain_ab : list string := ["/store/volumes/a"; "/store/volumes/b"].

(** ** Sample stores *)

Definition drv : Driver := NewDriver "/store".

(** A store with two volumes and the directory of an image to be made. *)
Definition store_tree : gmap string N :=
  list_to_map
    [ ("/", 493%N); ("/store", 448%N); ("/store/volumes", 448%N);
      ("/store/images", 448%N); ("/store/images/img", 448%N);
      ("/store/volumes/a", 448%N); ("/store/volumes/b", 448%N) ].

Definition no_faults : Syscall -> option Errno := fun _ => None.

Definition fresh_store : World := mkWorld store_tree [] ∅ no_faults ∅ [].

Definition img_spec : ImageDriverSpec :=
  mkSpec "/store/images/img" "/store/volumes/b" 0.

Definition img_spec_limit (limit : Z) : ImageDriverSpec :=
  mkSpec "/store/images/img" "/store/volumes/b" limit.

(** The same store on a host that refuses the overlay mount. *)
Definition mount_refused (c : Syscall) : option Errno :=
  match c with
  | SysMount _ _ _ _ _ => Some EPERM
  | _ => None
  end.

Definition store_mount_refused : World :=
  mkWorld store_tree [] ∅ mount_refused ∅ [].

(** The store once the image is made. *)
Definition store_with_image : World := (CreateImage drv img_spec fresh_store).2.

(** The store with the image, when its root file system is busy. *)
Definition unmount_refused (c : Syscall) : option Errno :=
  match c with
  | SysUnmount _ _ => Some EBUSY
  | _ => None
  end.

Definition store_image_busy : World :=
  mkWorld (fs store_with_image) (mounts store_with_image) ∅
          unmount_refused ∅ [].

(** The store on a file system that has no room for a new directory. *)
Definition mkdir_refused (c : Syscall) : option Errno :=
  match c with
  | SysMkdir _ _ => Some ENOSPC
  | _ => None
  end.

Definition store_no_space : World :=
  mkWorld store_tree [] ∅ mkdir_refused ∅ [].

(** The store when the volumes directory may not be searched: the volume
    [a] is there, and [stat] on it is denied. *)
Definition store_unreadable : World :=
  mkWorld store_tree [] ∅ no_faults {[ "/store/volumes/a" := EACCES ]} [].

(** The store with a regular file, mode 0644, where a volume would be, and
    with a file where an image directory would be: [stat] on a name that
    passes through that file answers "not a directory". *)
Definition store_with_files : World :=
  mkWorld (<["/store/volumes/f" := 33188%N]>
             (<["/store/images/file" := 33188%N]> store_tree))
          [] ∅ no_faults {[ "/store/images/file/img" := ENOTDIR ]} [].

(** * The fake unmounter

    [overlayxfsfakes/fake_unmounter.go]: the test double of the [Unmounter]
    interface.  It records the arguments of every [Unmount], and answers
    with a stub, with a result set for that very call, or with a result
    set for all calls.  The embedding is of one goroutine: the two mutexes,
    taken and released within each method, are left out.  The logger type
    [lager.Logger] is declared outside these sources and is a parameter. *)

Module overlayxfsfakes.

Section WithLogger.

Context {Logger : Type}.

(** A value of [interface{}] among the arguments of a recorded call. *)
Inductive Arg : Type :=
  | ArgLogger (l : Logger)
  | ArgString (s : string).

(** The struct [FakeUnmounter].  A stub is a function of the arguments; a
    map that may be [nil] is an [option]. *)
Record FakeUnmounter : Type := mkFake {
  UnmountStub : option (Logger -> string -> option error);
  unmountArgsForCall : list (Logger * string);
  unmountReturns : option error;
  unmountReturnsOnCall : option (gmap Z (option error));
  invocations : option (gmap string (list (list Arg)))
}.

(** [new(FakeUnmounter)]: the zero value. *)
Definition new : FakeUnmounter := mkFake None [] None None None.

Definition recordInvocation (key : string) (args : list Arg)
    (fake : FakeUnmounter) : FakeUnmounter :=
  let inv := match invocations fake with
             | None => ∅
             | Some m => m
             end in
  let inv := match inv !! key with
             | None => <[key := []]> inv
             | Some _ => inv
             end in
  let calls := match inv !! key with
               | None => []
               | Some calls => calls
               end in
  mkFake (UnmountStub fake) (unmountArgsForCall fake) (unmountReturns fake)
         (unmountReturnsOnCall fake) (Some (<[key := calls ++ [args]]> inv)).

(** [fake.unmountReturnsOnCall\[i\]], with its presence flag. *)
Definition returnOnCall (fake : FakeUnmounter) (i : Z)
  : option (option error) :=
  match unmountReturnsOnCall fake with
  | None => None
  | Some m => m !! i
  end.

Definition Unmount (arg1 : Logger) (arg2 : string) (fake : FakeUnmounter)
  : option error * FakeUnmounter :=
  let specific :=
    returnOnCall fake (Z.of_nat (length (unmountArgsForCall fake))) in
  let fake := mkFake (UnmountStub fake)
                     (unmountArgsForCall fake ++ [(arg1, arg2)])
                     (unmountReturns fake) (unmountReturnsOnCall fake)
                     (invocations fake) in
  let stub := UnmountStub fake in
  let fakeReturns := unmountReturns fake in
  let fake := recordInvocation "Unmount" [ArgLogger arg1; ArgString arg2]
                               fake in
  match stub with
  | Some stub => (stub arg1 arg2, fake)
  | None =>
      match specific with
      | Some ret => (ret, fake)
      | None => (fakeReturns, fake)
      end
  end.

Definition UnmountCallCount (fake : FakeUnmounter) : Z :=
  Z.of_nat (length (unmountArgsForCall fake)).

Definition UnmountCalls (stub : option (Logger -> string -> option error))
    (fake : FakeUnmounter) : FakeUnmounter :=
  mkFake stub (unmountArgsForCall fake) (unmountReturns fake)
         (unmountReturnsOnCall fake) (invocations fake).

(** [fake.unmountArgsForCall\[i\]] panics when [i] is out of range. *)
Definition UnmountArgsForCall (i : Z) (fake : FakeUnmounter)
  : outcome (Logger * string) :=
  if (i <? 0)%Z then Panics "index out of range"
  else match unmountArgsForCall fake !! Z.to_nat i with
       | Some argsForCall => Returns (argsForCall.1, argsForCall.2)
       | None => Panics "index out of range"
       end.

Definition UnmountReturns (result1 : option error) (fake : FakeUnmounter)
  : FakeUnmounter :=
  mkFake None (unmountArgsForCall fake) result1 (unmountReturnsOnCall fake)
         (invocations fake).

Definition UnmountReturnsOnCall (i : Z) (result1 : option error)
    (fake : FakeUnmounter) : FakeUnmounter :=
  let m := match unmountReturnsOnCall fake with
           | None => ∅
           | Some m => m
           end in
  mkFake None (unmountArgsForCall fake) (unmountReturns fake)
         (Some (<[i := result1]> m)) (invocations fake).

(** [Invocations]: a copy of the map of recorded calls. *)
Definition Invocations (fake : FakeUnmounter)
  : gmap string (list (list Arg)) :=
  match invocations fake with
  | None => ∅
  | Some m => map_fold (fun key value copied => <[key := value]> copied) ∅ m
  end.

(** A run of [Unmount] calls, one after the other. *)
Definition Unmounts (calls : list (Logger * string)) (fake : FakeUnmounter)
  : FakeUnmounter :=
  fold_left (fun fake call => (Unmount call.1 call.2 fake).2) calls fake.

(** The calls recorded under "Unmount". *)
Definition recorded (fake : FakeUnmounter) : list (list Arg) :=
  match Invocations fake !! "Unmount" with
  | None => []
  | Some calls => calls
  end.

(** The record of invocations agrees with the record of arguments. *)
Definition consistent (fake : FakeUnmounter) : Prop :=
  recorded fake
  = (fun call => [ArgLogger call.1; ArgString call.2])
      <$> unmountArgsForCall fake.

End WithLogger.

Arguments FakeUnmounter : clear implicits.
Arguments Arg : clear implicits.

End overlayxfsfakes.

(** * Properties *)

(** ** Paths *)

(** [Clean] and [Join] on the cases of Go's documentation and on the paths
    of the store. *)
Example Clean_cases :
  filepath.Clean "" = "."
  /\ filepath.Clean "abc//def//ghi" = "abc/def/ghi"
  /\ filepath.Clean "abc/./../def" = "def"
  /\ filepath.Clean "abc/../../././../def" = "../../def"
  /\ filepath.Clean "/abc/def/../../.." = "/"
  /\ filepath.Clean "abc/def/../../.." = ".."
  /\ filepath.Clean "/../abc/" = "/abc".
Proof. repeat split. Qed.

Example Join_cases :
  filepath.Join ["/store"; "volumes"; "layer"] = "/store/volumes/layer"
  /\ filepath.Join ["/store/"; "images"] = "/store/images"
  /\ filepath.Join [""; "volumes"; ""; "layer"] = "volumes/layer"
  /\ filepath.Join ["/store"; "volumes"; "../images/img"] = "/store/images/img"
  /\ filepath.Join [""; ""] = "".
Proof. repeat split. Qed.

Example Dir_cases :
  filepath.Dir "/store/volumes/layer" = "/store/volumes"
  /\ filepath.Dir "/store" = "/"
  /\ filepath.Dir "layer" = "."
  /\ filepath.Dir "/" = "/".
Proof. repeat split. Qed.

(** ** The kernel *)

Section Kernel.

Implicit Types (c : Syscall) (w : World) (e : Errno).

Lemma kernel_trace c w :
  trace (kernel c w).2 = trace w ++ [Ev c (kernel c w).1].
Proof.
  unfold kernel.
  destruct (refusal c w) as [e|]; [reflexivity|].
  destruct (effect c w) as [res w'] eqn:He; cbn.
  f_equal.
  destruct c; cbn in He;
    repeat match type of He with
           | context [match ?x with _ => _ end] => destruct x
           end;
    injection He as <- <-; reflexivity.
Qed.

Lemma effect_faults c w : faults (effect c w).2 = faults w.
Proof.
  destruct c; cbn;
    repeat match goal with
           | |- context [match ?x with _ => _ end] => destruct x
           end; reflexivity.
Qed.

Lemma effect_refused c w e : (effect c w).1 = Some e -> (effect c w).2 = w.
Proof.
  destruct c; cbn;
    repeat match goal with
           | |- context [match ?x with _ => _ end] => destruct x
           end; cbn; congruence.
Qed.

Lemma kernel_faults c w : faults (kernel c w).2 = faults w.
Proof.
  unfold kernel. destruct (refusal c w); [reflexivity|].
  pose proof (effect_faults c w) as H.
  destruct (effect c w); exact H.
Qed.

(** A refused call changes neither the tree, nor the mount table, nor the
    quota table. *)
Lemma kernel_refused c w e :
  (kernel c w).1 = Some e ->
  fs (kernel c w).2 = fs w /\ mounts (kernel c w).2 = mounts w
  /\ quotas (kernel c w).2 = quotas w.
Proof.
  unfold kernel. destruct (refusal c w); [intros _; repeat split|].
  pose proof (effect_refused c w) as H.
  destruct (effect c w) as [res w']; cbn in *.
  intros ->. rewrite (H e eq_refl). repeat split.
Qed.

(** [stat] never changes the store.  On a hidden name it fails with the
    error number of the oracle; on any other it succeeds exactly when the
    clean path is an entry of the tree, and fails with [ENOENT] when it is
    not. *)
Lemma kernel_stat name w :
  (kernel (SysStat name) w).1
    = match hidden w !! name with
      | Some e => Some e
      | None => match fs w !! filepath.Clean name with
                | Some _ => None
                | None => Some ENOENT
                end
      end
  /\ fs (kernel (SysStat name) w).2 = fs w
  /\ mounts (kernel (SysStat name) w).2 = mounts w
  /\ quotas (kernel (SysStat name) w).2 = quotas w.
Proof.
  unfold kernel; cbn. destruct (hidden w !! name); [repeat split|].
  destruct (fs w !! filepath.Clean name); repeat split.
Qed.

(** All [stat] does to the world is to leave its record in the trace. *)
Lemma kernel_stat_records name w :
  (kernel (SysStat name) w).2
  = record (Ev (SysStat name) (kernel (SysStat name) w).1) w.
Proof.
  unfold kernel; cbn. destruct (hidden w !! name); [reflexivity|].
  destruct (fs w !! filepath.Clean name); reflexivity.
Qed.

(** The answer of [stat] depends on the tree and on the hidden names
    only. *)
Lemma kernel_stat_answer name w w' :
  fs w' = fs w -> hidden w' = hidden w ->
  (kernel (SysStat name) w').1 = (kernel (SysStat name) w).1.
Proof.
  intros Hf Hh.
  rewrite (proj1 (kernel_stat name w')), (proj1 (kernel_stat name w)).
  rewrite Hf, Hh. reflexivity.
Qed.

(** A successful [mkdir] adds the one entry, with the permission bits
    asked for, below an existing parent. *)
Lemma kernel_mkdir name perm w :
  (kernel (SysMkdir name perm) w).1 = None ->
  fs w !! filepath.Clean name = None
  /\ is_Some (fs w !! filepath.Dir (filepath.Clean name))
  /\ fs (kernel (SysMkdir name perm) w).2
     = <[filepath.Clean name := perm]> (fs w)
  /\ mounts (kernel (SysMkdir name perm) w).2 = mounts w
  /\ quotas (kernel (SysMkdir name perm) w).2 = quotas w.
Proof.
  unfold kernel; cbn. destruct (faults w _); [discriminate|]. cbn.
  destruct (fs w !! filepath.Clean name); [discriminate|].
  destruct (fs w !! filepath.Dir _) eqn:Hd; [|discriminate].
  intros _. repeat split. eauto.
Qed.

(** [mkdir] on an entry that exists is refused. *)
Lemma kernel_mkdir_exists name perm w :
  is_Some (fs w !! filepath.Clean name) ->
  exists e, (kernel (SysMkdir name perm) w).1 = Some e.
Proof.
  intros [x Hx]. unfold kernel; cbn.
  destruct (faults w _); cbn; [eauto|]. rewrite Hx. eauto.
Qed.

(** [mkdir] of a new entry below an existing parent succeeds unless a
    fault is injected. *)
Lemma kernel_mkdir_new name perm w :
  fs w !! filepath.Clean name = None ->
  is_Some (fs w !! filepath.Dir (filepath.Clean name)) ->
  faults w (SysMkdir name perm) = None ->
  (kernel (SysMkdir name perm) w).1 = None.
Proof.
  intros Hn [x Hx] Hf. unfold kernel; cbn. rewrite Hf; cbn.
  rewrite Hn, Hx. reflexivity.
Qed.

Lemma effect_success c w :
  (effect c w).1 = None ->
  fs (effect c w).2 = fs_after c (fs w)
  /\ mounts (effect c w).2 = mounts_after c (mounts w)
  /\ quotas (effect c w).2 = quotas_after c (quotas w).
Proof.
  destruct c; cbn;
    repeat match goal with
           | |- context [match ?x with _ => _ end] => destruct x
           end; cbn; try discriminate; intros _; repeat split.
Qed.

(** What a call that succeeded did. *)
Lemma kernel_success c w :
  (kernel c w).1 = None ->
  fs (kernel c w).2 = fs_after c (fs w)
  /\ mounts (kernel c w).2 = mounts_after c (mounts w)
  /\ quotas (kernel c w).2 = quotas_after c (quotas w).
Proof.
  unfold kernel. destruct (refusal c w); [discriminate|].
  pose proof (effect_success c w) as H.
  destruct (effect c w) as [res w']. exact H.
Qed.

(** A [stat] that succeeded was given a name that is not hidden, of an
    entry. *)
Lemma kernel_stat_ok name w :
  (kernel (SysStat name) w).1 = None ->
  hidden w !! name = None /\ is_Some (fs w !! filepath.Clean name).
Proof.
  rewrite (proj1 (kernel_stat name w)).
  destruct (hidden w !! name); [discriminate|].
  destruct (fs w !! filepath.Clean name); [eauto|discriminate].
Qed.

(** A [stat] of a name whose clean path is no entry fails. *)
Lemma kernel_stat_missing name w :
  fs w !! filepath.Clean name = None ->
  exists e, (kernel (SysStat name) w).1 = Some e.
Proof.
  intros Hn. rewrite (proj1 (kernel_stat name w)), Hn.
  destruct (hidden w !! name); eauto.
Qed.

(** After a successful [mkdir], [stat] finds the directory under the name
    it was made with. *)
Lemma kernel_mkdir_found name perm w :
  (kernel (SysMkdir name perm) w).1 = None ->
  (kernel (SysStat name) (kernel (SysMkdir name perm) w).2).1 = None.
Proof.
  intros Hok. rewrite (proj1 (kernel_stat name _)).
  revert Hok. unfold kernel; cbn. destruct (faults w _); [discriminate|]. cbn.
  destruct (fs w !! filepath.Clean name); [discriminate|].
  destruct (fs w !! filepath.Dir _); [|discriminate].
  intros _. cbn. rewrite lookup_delete_eq, lookup_insert_eq. reflexivity.
Qed.

End Kernel.

(** ** Scripts *)

Section Scripts.

Implicit Types (c : Syscall) (cs : list Syscall) (w : World).

Lemma events_since_app w w' (tr : list Event) :
  trace w' = trace w ++ tr -> events_since w w' = tr.
Proof. intros H. unfold events_since. rewrite H. apply drop_app_length. Qed.

(** What a script leaves in the trace: the calls of the script, in order,
    up to and including the first refused one. *)
Lemma run_calls_events cs w :
  exists tr : list Event,
    trace (run_calls cs w).2 = trace w ++ tr
    /\ (ev_call <$> tr) `prefix_of` cs
    /\ (forall i ev, tr !! i = Some ev -> cs !! i = Some (ev_call ev))
    /\ (forall i ev, tr !! i = Some ev -> S i < length tr -> succeeded ev)
    /\ match (run_calls cs w).1 with
       | None => ev_call <$> tr = cs /\ Forall succeeded tr
       | Some (c, e) => last tr = Some (Ev c (Some e))
       end.
Proof.
  revert w. induction cs as [|c cs IH]; intros w; cbn.
  - exists []. rewrite app_nil_r. repeat split; try constructor.
    + exists []. reflexivity.
    + intros i ev H; destruct i; discriminate.
    + intros i ev H; destruct i; discriminate.
  - pose proof (kernel_trace c w) as Ht.
    destruct (kernel c w) as [[e|] w1]; cbn in *.
    + exists [Ev c (Some e)]. repeat split; [exact Ht| | |].
      * exists cs. reflexivity.
      * intros [|i] ev H; [injection H as <-; reflexivity|].
        destruct i; discriminate.
      * intros [|i] ev H Hl; cbn in Hl; lia.
    + destruct (IH w1) as (tr & Htr & [k Hpre] & Hcall & Hok & Hres).
      exists (Ev c None :: tr). split; [|split; [|split; [|split]]].
      * rewrite Htr, Ht, <- app_assoc. reflexivity.
      * exists k. cbn. congruence.
      * intros [|i] ev H; [injection H as <-; reflexivity|].
        cbn in *. eauto.
      * intros [|i] ev H Hl; [injection H as <-; reflexivity|].
        cbn in *. apply (Hok i); [assumption|lia].
      * destruct (run_calls cs w1).1 as [[c' e']|].
        -- destruct tr; [discriminate|]. exact Hres.
        -- destruct Hres as [Hlen Hall]. split; [cbn; congruence|].
           constructor; [reflexivity|assumption].
Qed.

(** Every call a script made before a given one succeeded, and is in the
    trace at its place in the script. *)
Lemma run_calls_before cs w (tr : list Event) i j ev c :
  trace (run_calls cs w).2 = trace w ++ tr ->
  tr !! i = Some ev -> j < i -> cs !! j = Some c ->
  tr !! j = Some (Ev c None).
Proof.
  intros Htr Hi Hj Hc.
  destruct (run_calls_events cs w) as (tr' & Htr' & _ & Hcall & Hok & _).
  rewrite Htr' in Htr. apply app_inv_head in Htr. subst tr'.
  assert (Hlt : j < length tr) by (apply lookup_lt_Some in Hi; lia).
  destruct (lookup_lt_is_Some_2 tr j Hlt) as [ev' Hev'].
  pose proof (Hcall _ _ Hev') as Hc'.
  assert (Hs : succeeded ev').
  { apply (Hok j); [assumption|]. apply lookup_lt_Some in Hi. lia. }
  rewrite Hev'. f_equal. destruct ev' as [c' r']. cbn in *.
  unfold succeeded in Hs; cbn in Hs. congruence.
Qed.

(** What an operation that follows a script leaves in the trace, and how
    its result relates to it. *)
Lemma script_outcome cs w (r : outcome (option error) * World) :
  r.2 = (run_calls cs w).2 ->
  (exists err,
      r.1 = Returns err /\ (err = None <-> (run_calls cs w).1 = None)) ->
  exists err,
    r.1 = Returns err
    /\ (ev_call <$> events_since w r.2) `prefix_of` cs
    /\ (forall i ev, events_since w r.2 !! i = Some ev ->
                     S i < length (events_since w r.2) -> succeeded ev)
    /\ (err = None ->
        ev_call <$> events_since w r.2 = cs
        /\ Forall succeeded (events_since w r.2))
    /\ (err <> None ->
        exists c e, last (events_since w r.2) = Some (Ev c (Some e))).
Proof.
  intros Hw (err & Hr & Hnil). exists err. split; [exact Hr|].
  destruct (run_calls_events cs w) as (tr & Htr & Hpre & _ & Hok & Hres).
  rewrite <- Hw in Htr. rewrite (events_since_app _ _ _ Htr).
  split; [exact Hpre|]. split; [exact Hok|].
  destruct (run_calls cs w).1 as [[c e]|].
  - split; [intros He; apply Hnil in He; discriminate|].
    intros _. eauto.
  - split; [intros _; exact Hres|].
    intros He. destruct He. apply Hnil. reflexivity.
Qed.

End Scripts.

(** ** The driver operations as scripts *)

Section DriverScripts.

Implicit Types (d : Driver) (spec : ImageDriverSpec) (w : World).

#[local] Arguments kernel : simpl never.

(** Case analysis on the next system call of the goal. *)
Ltac next_call :=
  match goal with
  | |- context [kernel ?c ?w] =>
      let e := fresh "e" in
      let w' := fresh "w" in
      let Hk := fresh "Hk" in
      destruct (kernel c w) as [[e|] w'] eqn:Hk; cbn
  end.

Ltac script_done :=
  split; [reflexivity|]; eexists; split; [reflexivity|];
  split; intros; congruence.

Lemma DestroyImage_script d imagePath w :
  (DestroyImage d imagePath w).2
    = (run_calls (DestroyImage_calls imagePath) w).2
  /\ exists err,
       (DestroyImage d imagePath w).1 = Returns err
       /\ (err = None
           <-> (run_calls (DestroyImage_calls imagePath) w).1 = None).
Proof.
  unfold DestroyImage, DestroyImage_calls, syscall_Unmount, os_Remove,
    os_RemoveAll, sys, mbind, M_bind, mret, M_ret; cbn.
  repeat (next_call; [script_done|]).
  script_done.
Qed.

Lemma applyDiskLimit_script d spec w :
  (applyDiskLimit d spec w).2
    = (run_calls (applyDiskLimit_calls d spec) w).2
  /\ exists err,
       (applyDiskLimit d spec w).1 = Returns err
       /\ (err = None
           <-> (run_calls (applyDiskLimit_calls d spec) w).1 = None).
Proof.
  unfold applyDiskLimit, applyDiskLimit_calls, quota.NewControl,
    quota.SetQuota, sys, mbind, M_bind, mret, M_ret.
  destruct (DiskLimit spec =? 0)%Z; cbn; [script_done|].
  repeat (next_call; [script_done|]).
  script_done.
Qed.

Lemma CreateImage_setup_script d spec w :
  (CreateImage_setup d spec w).2
    = (run_calls (CreateImage_setup_calls d spec) w).2
  /\ exists err,
       (CreateImage_setup d spec w).1 = Returns err
       /\ (err = None
           <-> (run_calls (CreateImage_setup_calls d spec) w).1 = None).
Proof.
  unfold CreateImage_setup, CreateImage_setup_calls, applyDiskLimit,
    applyDiskLimit_calls, mountData, quota.NewControl, quota.SetQuota,
    os_Mkdir, syscall_Mount, sys, mbind, M_bind, mret, M_ret; cbn.
  destruct (DiskLimit spec =? 0)%Z; cbn;
    repeat (next_call; [script_done|]); script_done.
Qed.

(** [os.IsNotExist] on the error of [os.Stat]. *)
Lemma os_IsNotExist_stat name (res : option Errno) :
  os_IsNotExist (PathError "stat" name <$> res)
  = match res with
    | Some ENOENT => true
    | _ => false
    end.
Proof. destruct res as [[]|]; reflexivity. Qed.

Lemma os_IsNotExist_true name (res : option Errno) :
  os_IsNotExist (PathError "stat" name <$> res) = true <-> res = Some ENOENT.
Proof.
  rewrite os_IsNotExist_stat.
  destruct res as [[]|]; split; congruence.
Qed.

(** The two checks of [CreateImage].  Each is one [stat]; [CreateImage]
    returns at the first that answers [ENOENT], and goes on to its setup
    otherwise: also when a [stat] has failed in another way. *)
Lemma CreateImage_checks d spec w :
  let s1 := SysStat (ImagePath spec) in
  let s2 := SysStat (BaseVolumePath spec) in
  let r1 := (kernel s1 w).1 in
  let w1 := (kernel s1 w).2 in
  let r2 := (kernel s2 w1).1 in
  let w2 := (kernel s2 w1).2 in
  (r1 = Some ENOENT
   /\ CreateImage d spec w
      = (Returns (Some (withMessage
                          (PathError "stat" (ImagePath spec) ENOENT)
                          "image path does not exist")), w1))
  \/ (r1 <> Some ENOENT /\ r2 = Some ENOENT
      /\ CreateImage d spec w
         = (Returns (Some (withMessage
                             (PathError "stat" (BaseVolumePath spec) ENOENT)
                             "base volume path does not exist")), w2))
  \/ (r1 <> Some ENOENT /\ r2 <> Some ENOENT
      /\ CreateImage d spec w = CreateImage_setup d spec w2).
Proof.
  intros s1 s2 r1 w1 r2 w2. subst r1 w1 r2 w2.
  change (CreateImage d spec w)
    with ((err ← os_Stat (ImagePath spec);
           if os_IsNotExist err
           then mret (errors_Wrap err "image path does not exist")
           else
             err ← os_Stat (BaseVolumePath spec);
             if os_IsNotExist err
             then mret (errors_Wrap err "base volume path does not exist")
             else CreateImage_setup d spec) w).
  unfold os_Stat, sys, mbind, M_bind, mret, M_ret. fold s1 s2.
  destruct (kernel s1 w) as [res1 w1]; cbn [fst snd].
  rewrite os_IsNotExist_stat.
  destruct res1 as [e1|].
  - destruct (decide (e1 = ENOENT)) as [->|Hne]; [left; split; reflexivity|].
    right. assert (Hne' : Some e1 <> Some ENOENT) by congruence.
    replace (match e1 with ENOENT => true | _ => false end) with false
      by (destruct e1; congruence).
    destruct (kernel s2 w1) as [res2 w2]; cbn [fst snd].
    rewrite os_IsNotExist_stat.
    destruct res2 as [e2|].
    + destruct (decide (e2 = ENOENT)) as [->|Hne2];
        [left; repeat split; assumption|].
      right. replace (match e2 with ENOENT => true | _ => false end)
               with false by (destruct e2; congruence).
      repeat split; congruence.
    + right. repeat split; congruence.
  - right. destruct (kernel s2 w1) as [res2 w2]; cbn [fst snd].
    rewrite os_IsNotExist_stat.
    destruct res2 as [e2|].
    + destruct (decide (e2 = ENOENT)) as [->|Hne2];
        [left; repeat split; congruence|].
      right. replace (match e2 with ENOENT => true | _ => false end)
               with false by (destruct e2; congruence).
      repeat split; congruence.
    + right. repeat split; congruence.
Qed.

End DriverScripts.

(** ** More on single calls *)

Lemma kernel_unmount_ok (target : string) (flags : N) (w : World) :
  (kernel (SysUnmount target flags) w).1 = None ->
  mounted_at (filepath.Clean target) (mounts w) = true.
Proof.
  unfold kernel; cbn. destruct (faults w _); [discriminate|]. cbn.
  destruct (mounted_at _ _); [reflexivity|discriminate].
Qed.

(** Unmounting what is not mounted is refused. *)
Lemma kernel_unmount_not_mounted (target : string) (flags : N) (w : World) :
  mounted_at (filepath.Clean target) (mounts w) = false ->
  exists e, (kernel (SysUnmount target flags) w).1 = Some e.
Proof.
  intros H. unfold kernel; cbn. destruct (faults w _); cbn; [eauto|].
  rewrite H. eauto.
Qed.

(** A [remove] that succeeded was given an entry that is no mount point and
    has nothing below it. *)
Lemma kernel_remove_ok (name : string) (w : World) :
  (kernel (SysRemove name) w).1 = None ->
  is_Some (fs w !! filepath.Clean name)
  /\ mounted_at (filepath.Clean name) (mounts w) = false
  /\ below (filepath.Clean name) (fs w) = ∅.
Proof.
  unfold kernel; cbn. destruct (faults w _); [discriminate|]. cbn.
  destruct (fs w !! filepath.Clean name); [|discriminate].
  destruct (mounted_at _ _); [discriminate|].
  destruct (decide _) as [He|]; [|discriminate].
  intros _. repeat split; eauto.
Qed.

(** Nothing of [dir] is left in the tree once it is taken out. *)
Lemma outside_lookup_within (dir k : string) (f : gmap string N) :
  within dir k = true -> outside dir f !! k = None.
Proof.
  intros H. unfold outside. apply map_lookup_filter_None. right.
  intros x _ Hn. apply Hn. cbn. rewrite H. exact I.
Qed.

Lemma outside_lookup_other (dir k : string) (f : gmap string N) :
  within dir k = false -> outside dir f !! k = f !! k.
Proof.
  intros H. unfold outside. destruct (f !! k) as [x|] eqn:E.
  - apply map_lookup_filter_Some. split; [exact E|].
    cbn. rewrite H. intros [].
  - apply map_lookup_filter_None. left. exact E.
Qed.

Lemma within_refl (dir : string) : within dir dir = true.
Proof. unfold within. rewrite String.eqb_refl. reflexivity. Qed.

(** Case analysis on the next system call of the goal; [H] is the trace so
    far, and is extended by the call. *)
Ltac call_step H :=
  match goal with
  | |- context [kernel ?c ?wc] =>
      let Ht := fresh "Ht" in
      let Hr := fresh "Hrefused" in
      let Hs := fresh "Hsuccess" in
      let Hst := fresh "Hstat" in
      pose proof (kernel_trace c wc) as Ht;
      pose proof (kernel_refused c wc) as Hr;
      pose proof (kernel_success c wc) as Hs;
      let e := fresh "e" in
      let w' := fresh "w" in
      let Hk := fresh "Hk" in
      destruct (kernel c wc) as [[e|] w'] eqn:Hk;
      cbn [fst snd] in Ht, Hr, Hs;
      rewrite H in Ht; rewrite <- app_assoc in Ht; cbn [app] in Ht;
      clear H; rename Ht into H;
      [ specialize (Hr e eq_refl); clear Hs
      | specialize (Hs eq_refl); clear Hr; cbn [fs_after mounts_after quotas_after] in Hs ];
      cbn
  end.


(** * The operations *)

(** ** [DestroyImage] *)

Lemma outside_lookup_gone (dir k : string) (f : gmap string N) :
  f !! k = None -> outside dir f !! k = None.
Proof.
  intros H. unfold outside. apply map_lookup_filter_None. left. exact H.
Qed.

(** The conjuncts on the order of the calls, once the trace [H] and the
    result are known. *)
Ltac order_case H :=
  rewrite (events_since_app _ _ _ H);
  eexists; split; [reflexivity|];
  split; [eexists; reflexivity|];
  split; [reflexivity|];
  split; [intros i ev Hi Hlen; cbn in Hlen;
          do 4 (destruct i as [|i];
                [first [lia|injection Hi as <-; reflexivity]|]);
          lia|].

(** The same when the operation stopped with an error. *)
Ltac order_failed H :=
  order_case H;
  split; [split; [discriminate|];
          intros [Hc Hall]; cbn in Hc; try discriminate Hc;
          rewrite !Forall_cons in Hall; unfold succeeded in Hall;
          cbn in Hall; intuition discriminate|];
  split; [split; [intros _; cbn; eauto|intros _; discriminate]|];
  split; [intros; discriminate|];
  repeat match goal with
         | |- (forall e, _ !! _ = Some _ -> _ = _) /\ _ =>
             split; [intros e0 He0; cbn in He0;
                     first [discriminate He0
                           |injection He0 as <-; reflexivity]|]
         end.

(** C6: [DestroyImage] unmounts [rootfs], then removes [rootfs], then the
    work directory, then the upper directory, in exactly that order, making
    each call in the world the calls before it have left and stopping at
    the first that is refused: the calls it makes are an initial run of that
    list, the unmount is always the first and is the kernel's answer in the
    world of the call, and every call but the last has succeeded.  It
    returns no error exactly when all four calls were made and succeeded;
    it returns an error exactly when the last call it made was refused, and
    that error is the refusal, wrapped with the message of the step:
    a failed unmount, or a failed removal after a successful unmount, makes
    the operation fail.  The calls are real: once the unmount has succeeded
    the latest mount on [rootfs] is off the mount table, once the removal
    of [rootfs] has succeeded [rootfs] is no longer in the tree, and when no
    error is returned the tree is the tree before the call without
    [rootfs], the work directory and the upper directory. *)
Theorem DestroyImage_order (d : Driver) (imagePath : string) (w : World) :
  let rootfs := filepath.Join [imagePath; RootfsDir] in
  let work := filepath.Join [imagePath; WorkDir] in
  let upper := filepath.Join [imagePath; UpperDir] in
  let steps := [ SysUnmount rootfs 0; SysRemove rootfs;
                 SysRemoveAll work; SysRemoveAll upper ] in
  let r := DestroyImage d imagePath w in
  let tr := events_since w r.2 in
  r.2 = (run_calls steps w).2
  /\ exists err,
       r.1 = Returns err
       /\ (ev_call <$> tr) `prefix_of` steps
       /\ tr !! 0 = Some (Ev (SysUnmount rootfs 0)
                             (kernel (SysUnmount rootfs 0) w).1)
       /\ (forall i ev, tr !! i = Some ev -> S i < length tr -> succeeded ev)
       /\ (err = None <-> ev_call <$> tr = steps /\ Forall succeeded tr)
       /\ (err <> None <-> exists c e, last tr = Some (Ev c (Some e)))
       /\ (forall ev, ev ∈ tr -> ~ succeeded ev -> err <> None)
       /\ (forall e, tr !! 0 = Some (Ev (SysUnmount rootfs 0) (Some e)) ->
           err = Some (withMessage (SyscallErrno e)
                                   "unmounting rootfs folder"))
       /\ (forall e, tr !! 1 = Some (Ev (SysRemove rootfs) (Some e)) ->
           err = Some (withMessage (PathError "remove" rootfs e)
                                   "deleting rootfs folder"))
       /\ (forall e, tr !! 2 = Some (Ev (SysRemoveAll work) (Some e)) ->
           err = Some (withMessage (PathError "unlinkat" work e)
                                   "deleting workdir folder"))
       /\ (forall e, tr !! 3 = Some (Ev (SysRemoveAll upper) (Some e)) ->
           err = Some (withMessage (PathError "unlinkat" upper e)
                                   "deleting upperdir folder"))
       /\ (tr !! 0 = Some (Ev (SysUnmount rootfs 0) None) ->
           mounted_at (filepath.Clean rootfs) (mounts w) = true
           /\ mounts r.2 = unmount_top (filepath.Clean rootfs) (mounts w))
       /\ (tr !! 1 = Some (Ev (SysRemove rootfs) None) ->
           is_Some (fs w !! filepath.Clean rootfs)
           /\ fs r.2 !! filepath.Clean rootfs = None)
       /\ (err = None ->
           fs r.2 = outside (filepath.Clean upper)
                      (outside (filepath.Clean work)
                         (delete (filepath.Clean rootfs) (fs w)))).
Proof.
  intros rootfs work upper steps r tr.
  split; [exact (proj1 (DestroyImage_script d imagePath w))|].
  subst r tr steps.
  unfold DestroyImage, syscall_Unmount, os_Remove, os_RemoveAll, sys, mbind,
    M_bind, mret, M_ret.
  fold rootfs work upper. clearbody rootfs work upper.
  assert (H : trace w = trace w ++ []) by (symmetry; apply app_nil_r).
  pose proof (kernel_unmount_ok rootfs 0 w) as Hu.
  call_step H.
  { order_failed H. repeat split; intros; discriminate. }
  specialize (Hu eq_refl). destruct Hsuccess as (Hf1 & Hm1 & _).
  pose proof (kernel_remove_ok rootfs w0) as Hrm.
  call_step H.
  { destruct Hrefused as (Hf2 & Hm2 & _). order_failed H.
    split; [intros _; split; [exact Hu|congruence]|].
    split; intros; discriminate. }
  destruct (Hrm eq_refl) as (Hin & _). rewrite Hf1 in Hin. clear Hrm.
  destruct Hsuccess as (Hf2 & Hm2 & _).
  assert (Hgone : fs w1 !! filepath.Clean rootfs = None)
    by (rewrite Hf2; apply lookup_delete_eq).
  call_step H.
  { destruct Hrefused as (Hf3 & Hm3 & _). order_failed H.
    split; [intros _; split; [exact Hu|congruence]|].
    split; [intros _; split; [exact Hin|congruence]|]. intros; discriminate. }
  destruct Hsuccess as (Hf3 & Hm3 & _).
  assert (Hgone' : fs w2 !! filepath.Clean rootfs = None)
    by (rewrite Hf3; apply outside_lookup_gone; exact Hgone).
  call_step H.
  { destruct Hrefused as (Hf4 & Hm4 & _). order_failed H.
    split; [intros _; split; [exact Hu|congruence]|].
    split; [intros _; split; [exact Hin|congruence]|]. intros; discriminate. }
  destruct Hsuccess as (Hf4 & Hm4 & _).
  order_case H.
  split; [split; [intros _; split; [reflexivity|repeat constructor]
                 |reflexivity]|].
  split; [split; [intros Hn; destruct Hn; reflexivity
                 |intros (c & e & Hl); cbn in Hl; discriminate Hl]|].
  split.
  { intros ev Hev Hbad. exfalso. apply Hbad.
    repeat (apply elem_of_cons in Hev; destruct Hev as [->|Hev];
            [reflexivity|]).
    apply elem_of_nil in Hev. contradiction. }
  do 4 (split; [intros e0 He0; cbn in He0; discriminate He0|]).
  split; [intros _; split; [exact Hu|congruence]|].
  split; [intros _; split; [exact Hin|]|intros _; congruence].
  rewrite Hf4. apply outside_lookup_gone. exact Hgone'.
Qed.

Lemma DestroyImage_order_witness :
  let r := DestroyImage drv "/store/images/img" store_with_image in
  r.1 = Returns None
  /\ events_since store_with_image r.2
     = [ Ev (SysUnmount "/store/images/img/rootfs" 0) None;
         Ev (SysRemove "/store/images/img/rootfs") None;
         Ev (SysRemoveAll "/store/images/img/workdir") None;
         Ev (SysRemoveAll "/store/images/img/diff") None ]
  /\ mounted_at "/store/images/img/rootfs" (mounts store_with_image) = true
  /\ mounts r.2 = []
  /\ is_Some (fs store_with_image !! "/store/images/img/rootfs")
  /\ fs r.2 = store_tree.
Proof.
  intros r.
  destruct (DestroyImage_order drv "/store/images/img" store_with_image)
    as (_ & err & He & _ & _ & _ & Hnil & _ & _ & _ & _ & _ & _ & Hun & Hrm
        & Hfs).
  fold r in He, Hnil, Hun, Hrm, Hfs.
  assert (Htr : events_since store_with_image r.2
                = [ Ev (SysUnmount "/store/images/img/rootfs" 0) None;
                    Ev (SysRemove "/store/images/img/rootfs") None;
                    Ev (SysRemoveAll "/store/images/img/workdir") None;
                    Ev (SysRemoveAll "/store/images/img/diff") None ])
    by (vm_compute; reflexivity).
  assert (Herr : err = None).
  { apply Hnil. rewrite Htr. split; [reflexivity|repeat constructor]. }
  destruct Hun as [Hmounted Hm]; [rewrite Htr; reflexivity|].
  destruct Hrm as [Hin _]; [rewrite Htr; reflexivity|].
  split; [rewrite He, Herr; reflexivity|]. split; [exact Htr|].
  split; [exact Hmounted|]. split; [rewrite Hm; vm_compute; reflexivity|].
  split; [exact Hin|]. rewrite (Hfs Herr). vm_compute. reflexivity.
Defined.

(** C8: when the unmount of [rootfs] fails, [DestroyImage] returns that
    error, wrapped, having made no other call: the tree (and with it the
    rootfs, work and upper directories), the mount table and the quotas are
    as they were before the call. *)
Theorem DestroyImage_unmount_failure
    (d : Driver) (imagePath : string) (w : World) (cause : error) :
  (syscall_Unmount (filepath.Join [imagePath; RootfsDir]) 0 w).1
    = Returns (Some cause) ->
  let r := DestroyImage d imagePath w in
  r.1 = Returns (Some (withMessage cause "unmounting rootfs folder"))
  /\ fs r.2 = fs w /\ mounts r.2 = mounts w /\ quotas r.2 = quotas w
  /\ ev_call <$> events_since w r.2
     = [SysUnmount (filepath.Join [imagePath; RootfsDir]) 0].
Proof.
  unfold DestroyImage, syscall_Unmount, sys, mbind, M_bind, mret, M_ret.
  set (c := SysUnmount _ 0).
  pose proof (kernel_trace c w) as Ht.
  pose proof (kernel_refused c w) as Hs.
  destruct (kernel c w) as [[e|] w1]; cbn in *; [|discriminate].
  intros [= <-]. destruct (Hs e eq_refl) as (Hfs & Hm & Hq).
  repeat split; try assumption.
  rewrite (events_since_app _ _ _ Ht). reflexivity.
Qed.

Lemma DestroyImage_unmount_failure_witness :
  (DestroyImage drv "/store/images/img" store_image_busy).1
    = Returns (Some (withMessage (SyscallErrno EBUSY)
                                 "unmounting rootfs folder"))
  /\ fs (DestroyImage drv "/store/images/img" store_image_busy).2
     = fs store_image_busy.
Proof.
  assert (H : (syscall_Unmount
                 (filepath.Join ["/store/images/img"; RootfsDir]) 0
                 store_image_busy).1 = Returns (Some (SyscallErrno EBUSY)))
    by (vm_compute; reflexivity).
  destruct (DestroyImage_unmount_failure drv "/store/images/img"
              store_image_busy (SyscallErrno EBUSY) H) as (Hr & Hfs & _).
  split; assumption.
Defined.

(** ** [VolumePath] *)

(** C9, as the code has it: the volume-path lookup is one [os.Stat] on
    [storePath/volumes/id], and it returns that path exactly when [os.Stat]
    reports no error.  A path that is returned names an entry of the store,
    a directory or not; an entry is found unless [stat] fails on its name
    for another reason.  In every other case, the path missing or [stat]
    failing on a path that is there, the lookup returns the empty path and
    the error "volume does not exist", with the id and the [stat] error in
    its message.  Either way the tree, the mount table and the quotas are
    unchanged. *)
Theorem VolumePath_lookup (d : Driver) (id : string) (w : World) :
  let volPath := filepath.Join [storePath d; VolumesDirName; id] in
  let r := VolumePath d id w in
  (r.1 = Returns (volPath, None) <-> (os_Stat volPath w).1 = Returns None)
  /\ (r.1 = Returns (volPath, None) -> exists_in w volPath)
  /\ (exists_in w volPath -> hidden w !! volPath = None ->
      r.1 = Returns (volPath, None))
  /\ (forall cause,
         (os_Stat volPath w).1 = Returns (Some cause) ->
         r.1 = Returns ("", Some (errorString
                                    ("volume does not exist `" +:+ id
                                     +:+ "`: " +:+ Error cause))))
  /\ (r.1 <> Returns (volPath, None) ->
      exists err, r.1 = Returns ("", Some err)
                  /\ Strings.Contains (Error err) id)
  /\ (~ exists_in w volPath -> r.1 <> Returns (volPath, None))
  /\ fs r.2 = fs w /\ mounts r.2 = mounts w /\ quotas r.2 = quotas w
  /\ hidden r.2 = hidden w.
Proof.
  intros volPath r. subst r.
  unfold VolumePath, os_Stat, sys, mbind, M_bind, mret, M_ret, exists_in.
  fold volPath. clearbody volPath.
  destruct (kernel_stat volPath w) as (Hres & Hfs & Hm & Hq).
  pose proof (kernel_stat_records volPath w) as Hrec.
  pose proof (kernel_stat_ok volPath w) as Hok.
  destruct (kernel (SysStat volPath) w) as [[e|] w1]; cbn in *.
  - split; [split; discriminate|]. split; [discriminate|]. split.
    { intros [x Hx] Hh. rewrite Hh, Hx in Hres. discriminate. }
    split; [intros cause [= <-]; reflexivity|]. split.
    { intros _. eexists. split; [reflexivity|]. cbn.
      eexists _, _. reflexivity. }
    split; [intros _; discriminate|].
    rewrite Hrec. repeat split; assumption.
  - destruct (Hok eq_refl) as [Hh Hin].
    split; [split; reflexivity|]. split; [intros _; exact Hin|].
    split; [reflexivity|]. split; [discriminate|]. split.
    { intros Hne. destruct Hne. reflexivity. }
    split; [intros Hn; destruct (Hn Hin)|].
    rewrite Hrec. repeat split; assumption.
Qed.

Lemma VolumePath_lookup_witness :
  (VolumePath drv "a" fresh_store).1 = Returns ("/store/volumes/a", None)
  /\ (exists err,
         (VolumePath drv "missing" fresh_store).1 = Returns ("", Some err)
         /\ Strings.Contains (Error err) "missing")
  /\ (VolumePath drv "a" store_unreadable).1
     = Returns ("", Some (errorString
                            "volume does not exist `a`: stat /store/volumes/a: permission denied"))
  /\ fs (VolumePath drv "a" store_unreadable).2 = store_tree.
Proof.
  split; [|split; [|split]].
  - apply (proj1 (proj2 (proj2 (VolumePath_lookup drv "a" fresh_store)))).
    + vm_compute. eauto.
    + reflexivity.
  - destruct (VolumePath_lookup drv "missing" fresh_store)
      as (_ & _ & _ & _ & Herr & Hmiss & _).
    apply Herr, Hmiss. vm_compute. intros [x Hx]. discriminate.
  - destruct (VolumePath_lookup drv "a" store_unreadable)
      as (_ & _ & _ & Hcause & _).
    apply (Hcause (PathError "stat" "/store/volumes/a" EACCES)).
    vm_compute. reflexivity.
  - destruct (VolumePath_lookup drv "a" store_unreadable)
      as (_ & _ & _ & _ & _ & _ & Hfs & _).
    exact Hfs.
Defined.

(** C9, as stated, fails in both directions.  On the store whose volumes
    directory may not be searched, the directory of the volume [a] exists
    and the lookup of [a] returns an error, not the path.  On the store
    with a regular file at [volumes/f] there is no such directory, and the
    lookup of [f] returns the path. *)
Lemma VolumePath_counterexample :
  directory_in store_unreadable "/store/volumes/a"
  /\ (VolumePath drv "a" store_unreadable).1
     = Returns ("", Some (errorString
                            "volume does not exist `a`: stat /store/volumes/a: permission denied"))
  /\ ~ directory_in store_with_files "/store/volumes/f"
  /\ (VolumePath drv "f" store_with_files).1
     = Returns ("/store/volumes/f", None)
  /\ ~ (forall (w : World) (id : string),
          let volPath := filepath.Join [storePath drv; VolumesDirName; id] in
          directory_in w volPath
          <-> (VolumePath drv id w).1 = Returns (volPath, None)).
Proof.
  assert (Ha : directory_in store_unreadable "/store/volumes/a")
    by (exists 448%N; split; vm_compute; reflexivity).
  assert (Hf : ~ directory_in store_with_files "/store/volumes/f").
  { intros (mode & Hm & Hreg). vm_compute in Hm. injection Hm as <-.
    vm_compute in Hreg. discriminate. }
  split; [exact Ha|]. split; [vm_compute; reflexivity|].
  split; [exact Hf|]. split; [vm_compute; reflexivity|].
  intros Hall. apply Hf. apply (Hall store_with_files "f").
  vm_compute. reflexivity.
Qed.

(** ** [CreateVolume] *)

(** C7: [CreateVolume] asks for the directory [storePath/volumes/id] with
    mode 0700.  When it returns no error, it returns that path, the path
    was not in the store before, and the store afterwards is the store
    before with that one directory, mode 0700, added; it succeeds whenever
    the path is new, its parent exists and the call is not refused.  When
    the path already exists it returns an error; whenever it returns an
    error, the tree is unchanged. *)
Theorem CreateVolume_creates (d : Driver) (parentID id : string) (w : World) :
  let volumePath := filepath.Join [storePath d; VolumesDirName; id] in
  let r := CreateVolume d parentID id w in
  exists path err,
    r.1 = Returns (path, err)
    /\ ev_call <$> events_since w r.2 = [SysMkdir volumePath 448]
    /\ (err = None ->
        path = volumePath /\ ~ exists_in w volumePath
        /\ fs r.2 = <[filepath.Clean volumePath := 448%N]> (fs w))
    /\ (~ exists_in w volumePath ->
        is_Some (fs w !! filepath.Dir (filepath.Clean volumePath)) ->
        faults w (SysMkdir volumePath 448) = None ->
        err = None)
    /\ (exists_in w volumePath -> err <> None)
    /\ (err <> None ->
        path = ""
        /\ (exists cause, err = Some (withMessage cause "creating volume"))
        /\ fs r.2 = fs w).
Proof.
  intros volumePath r. subst r.
  unfold CreateVolume, os_Mkdir, sys, mbind, M_bind, mret, M_ret, exists_in.
  fold volumePath. clearbody volumePath. set (c := SysMkdir volumePath 448).
  pose proof (kernel_trace c w) as Ht.
  pose proof (kernel_refused c w) as Hs.
  pose proof (kernel_mkdir volumePath 448 w) as Hok.
  pose proof (kernel_mkdir_exists volumePath 448 w) as Hex.
  pose proof (kernel_mkdir_new volumePath 448 w) as Hnew.
  fold c in Hok, Hex, Hnew.
  destruct (kernel c w) as [[e|] w1]; cbn in *.
  - eexists _, _. split; [reflexivity|].
    split; [rewrite (events_since_app _ _ _ Ht); reflexivity|].
    split; [discriminate|]. split.
    { intros Hn Hp Hf. exfalso.
      assert (Hnone : fs w !! filepath.Clean volumePath = None).
      { destruct (fs w !! filepath.Clean volumePath) eqn:E; [|reflexivity].
        destruct Hn. eauto. }
      specialize (Hnew Hnone Hp Hf). discriminate. }
    split; [discriminate|]. intros _.
    split; [reflexivity|]. split; [eauto|]. apply (Hs e eq_refl).
  - destruct (Hok eq_refl) as (Hn & Hp & Hfs & _).
    eexists _, _. split; [reflexivity|].
    split; [rewrite (events_since_app _ _ _ Ht); reflexivity|].
    split.
    { intros _. split; [reflexivity|]. split; [|exact Hfs].
      rewrite Hn. intros [x Hx]. discriminate. }
    split; [reflexivity|]. split.
    { intros Hin. destruct (Hex Hin) as [e He]. discriminate. }
    intros H. destruct H. reflexivity.
Qed.

Lemma CreateVolume_creates_witness :
  (CreateVolume drv "" "c" fresh_store).1
    = Returns ("/store/volumes/c", None)
  /\ fs (CreateVolume drv "" "c" fresh_store).2 !! "/store/volumes/c"
     = Some 448%N
  /\ exists err, (CreateVolume drv "" "a" fresh_store).1 = Returns ("", Some err)
  /\ fs (CreateVolume drv "" "a" fresh_store).2 = fs fresh_store.
Proof.
  destruct (CreateVolume_creates drv "" "c" fresh_store)
    as (path & err & Hr & _ & Hok & Hnew & _).
  assert (Herr : err = None).
  { apply Hnew.
    - vm_compute. intros [x Hx]. discriminate.
    - vm_compute. eauto.
    - reflexivity. }
  destruct (Hok Herr) as (Hpath & _ & Hfs). subst err.
  split; [rewrite Hr, Hpath; vm_compute; reflexivity|].
  split; [rewrite Hfs; vm_compute; reflexivity|].
  destruct (CreateVolume_creates drv "" "a" fresh_store)
    as (path' & err' & Hr' & _ & _ & _ & Hex & Hfail).
  assert (Hne : err' <> None) by (apply Hex; vm_compute; eauto).
  destruct (Hfail Hne) as (-> & (cause & ->) & Hfs').
  eexists. split; [exact Hr'|exact Hfs'].
Defined.

(** ** [CreateImage], case by case *)

(** What the two checks of [CreateImage] come to: it stops at one of them,
    the store as it was, or it goes on to its setup in a world that differs
    by the record of the two [stat] calls. *)
Lemma CreateImage_checked (d : Driver) (spec : ImageDriverSpec) (w : World) :
  let s1 := SysStat (ImagePath spec) in
  let s2 := SysStat (BaseVolumePath spec) in
  let r1 := (kernel s1 w).1 in
  let r2 := (kernel s2 w).1 in
  (exists cause msg w' tr,
      CreateImage d spec w = (Returns (Some (withMessage cause msg)), w')
      /\ fs w' = fs w /\ mounts w' = mounts w /\ quotas w' = quotas w
      /\ faults w' = faults w /\ trace w' = trace w ++ tr
      /\ ((r1 = Some ENOENT
           /\ cause = PathError "stat" (ImagePath spec) ENOENT
           /\ msg = "image path does not exist" /\ tr = [Ev s1 r1])
          \/ (r1 <> Some ENOENT /\ r2 = Some ENOENT
              /\ cause = PathError "stat" (BaseVolumePath spec) ENOENT
              /\ msg = "base volume path does not exist"
              /\ tr = [Ev s1 r1; Ev s2 r2])))
  \/ (exists w2,
         CreateImage d spec w = CreateImage_setup d spec w2
         /\ r1 <> Some ENOENT /\ r2 <> Some ENOENT
         /\ fs w2 = fs w /\ mounts w2 = mounts w /\ quotas w2 = quotas w
         /\ faults w2 = faults w /\ hidden w2 = hidden w
         /\ trace w2 = trace w ++ [Ev s1 r1; Ev s2 r2]).
Proof.
  intros s1 s2 r1 r2.
  pose proof (kernel_stat_records (ImagePath spec) w) as Hw1.
  fold s1 r1 in Hw1.
  pose proof (kernel_stat_records (BaseVolumePath spec) (kernel s1 w).2)
    as Hw2.
  fold s2 in Hw2.
  assert (Hr2 : (kernel s2 (kernel s1 w).2).1 = r2).
  { apply kernel_stat_answer; rewrite Hw1; reflexivity. }
  rewrite Hr2 in Hw2.
  destruct (CreateImage_checks d spec w) as [[H1 Hc]|[(H1 & H2 & Hc)|(H1 & H2 & Hc)]];
    cbv zeta in *; fold s1 s2 r1 in H1, Hc;
    try (fold s1 s2 in H2; rewrite Hr2 in H2).
  - left. eexists _, _, _, [Ev s1 r1]. split; [exact Hc|].
    rewrite Hw1. do 5 (split; [reflexivity|]). left. auto.
  - left. eexists _, _, _, [Ev s1 r1; Ev s2 r2]. split; [exact Hc|].
    rewrite Hw2, Hw1. do 4 (split; [reflexivity|]).
    split; [cbn; rewrite <- app_assoc; reflexivity|]. right. auto.
  - right. eexists. split; [exact Hc|]. split; [exact H1|].
    split; [exact H2|]. rewrite Hw2, Hw1. do 5 (split; [reflexivity|]).
    cbn. rewrite <- app_assoc. reflexivity.
Qed.

(** The operation stopped before the mount, its trace being [H]. *)
Ltac stopped H :=
  right; eexists _, _, _; split; [reflexivity|]; split; [discriminate|];
  split; [exact H|]; repeat constructor.

(** The setup of [CreateImage], case by case: it comes to the mount, the
    three directories made, or it stops before, with an error. *)
Lemma CreateImage_setup_cases
    (d : Driver) (spec : ImageDriverSpec) (w : World) :
  let upper := filepath.Join [ImagePath spec; UpperDir] in
  let work := filepath.Join [ImagePath spec; WorkDir] in
  let rootfs := filepath.Join [ImagePath spec; RootfsDir] in
  let r := CreateImage_setup d spec w in
  (exists res,
      trace r.2
      = trace w
        ++ ((fun c => Ev c None) <$> applyDiskLimit_calls d spec)
        ++ [ Ev (SysMkdir upper 448) None; Ev (SysMkdir work 448) None;
             Ev (SysMkdir rootfs 448) None;
             Ev (SysMount "overlay" rootfs "overlay" 0 (mountData spec))
                res ]
      /\ fs r.2 = <[filepath.Clean rootfs := 448%N]>
                    (<[filepath.Clean work := 448%N]>
                       (<[filepath.Clean upper := 448%N]> (fs w)))
      /\ quotas r.2
         = (if (DiskLimit spec =? 0)%Z then quotas w
            else <[filepath.Clean (ImagePath spec) := uint64 (DiskLimit spec)]>
                   (quotas w))
      /\ mounts r.2
         = match res with
           | None => Mnt "overlay" (filepath.Clean rootfs) "overlay" 0
                         (mountData spec) :: mounts w
           | Some _ => mounts w
           end
      /\ r.1 = Returns match res with
                       | None => None
                       | Some e => Some (withMessage (SyscallErrno e)
                                                     "mounting overlay")
                       end)
  \/ (exists cause msg tr,
         r.1 = Returns (Some (withMessage cause msg))
         /\ msg <> "mounting overlay"
         /\ trace r.2 = trace w ++ tr
         /\ Forall (fun ev => is_mount (ev_call ev) = false) tr).
Proof.
  intros upper work rootfs r. subst r.
  unfold CreateImage_setup, applyDiskLimit, applyDiskLimit_calls, mountData,
    quota.NewControl, quota.SetQuota, os_Mkdir, syscall_Mount,
    sys, mbind, M_bind, mret, M_ret.
  change (filepath.Join [ImagePath spec; UpperDir]) with upper.
  change (filepath.Join [ImagePath spec; WorkDir]) with work.
  change (filepath.Join [ImagePath spec; RootfsDir]) with rootfs.
  set (data := String.append "lowerdir=" _).
  set (images := filepath.Join [storePath d; ImageDirName]).
  clearbody upper work rootfs data images.
  assert (H : trace w = trace w ++ []) by (symmetry; apply app_nil_r).
  destruct (DiskLimit spec =? 0)%Z; cbn.
  - call_step H; [stopped H|]. destruct Hsuccess as (Hf3 & Hm3 & Hq3).
    call_step H; [stopped H|]. destruct Hsuccess as (Hf4 & Hm4 & Hq4).
    call_step H; [stopped H|]. destruct Hsuccess as (Hf5 & Hm5 & Hq5).
    call_step H.
    + destruct Hrefused as (Hf6 & Hm6 & Hq6).
      left. exists (Some e).
      repeat split; try assumption; try reflexivity; congruence.
    + destruct Hsuccess as (Hf6 & Hm6 & Hq6).
      left. exists None.
      repeat split; try assumption; try reflexivity; congruence.
  - call_step H; [stopped H|]. destruct Hsuccess as (Hf3' & Hm3' & Hq3').
    call_step H; [stopped H|]. destruct Hsuccess as (Hf4' & Hm4' & Hq4').
    call_step H; [stopped H|]. destruct Hsuccess as (Hf3 & Hm3 & Hq3).
    call_step H; [stopped H|]. destruct Hsuccess as (Hf4 & Hm4 & Hq4).
    call_step H; [stopped H|]. destruct Hsuccess as (Hf5 & Hm5 & Hq5).
    call_step H.
    + destruct Hrefused as (Hf6 & Hm6 & Hq6).
      left. exists (Some e).
      repeat split; try assumption; try reflexivity; congruence.
    + destruct Hsuccess as (Hf6 & Hm6 & Hq6).
      left. exists None.
      repeat split; try assumption; try reflexivity; congruence.
Qed.

(** [CreateImage], case by case: it comes to the mount, neither [stat]
    having answered [ENOENT] and the three directories made, or it stops
    before, with an error. *)
Lemma CreateImage_cases (d : Driver) (spec : ImageDriverSpec) (w : World) :
  let upper := filepath.Join [ImagePath spec; UpperDir] in
  let work := filepath.Join [ImagePath spec; WorkDir] in
  let rootfs := filepath.Join [ImagePath spec; RootfsDir] in
  let r1 := (kernel (SysStat (ImagePath spec)) w).1 in
  let r2 := (kernel (SysStat (BaseVolumePath spec)) w).1 in
  let r := CreateImage d spec w in
  let tr := events_since w r.2 in
  (exists res,
      r1 <> Some ENOENT /\ r2 <> Some ENOENT
      /\ tr = [ Ev (SysStat (ImagePath spec)) r1;
                Ev (SysStat (BaseVolumePath spec)) r2 ]
              ++ ((fun c => Ev c None) <$> applyDiskLimit_calls d spec)
              ++ [ Ev (SysMkdir upper 448) None; Ev (SysMkdir work 448) None;
                   Ev (SysMkdir rootfs 448) None;
                   Ev (SysMount "overlay" rootfs "overlay" 0 (mountData spec))
                      res ]
      /\ fs r.2 = <[filepath.Clean rootfs := 448%N]>
                    (<[filepath.Clean work := 448%N]>
                       (<[filepath.Clean upper := 448%N]> (fs w)))
      /\ quotas r.2
         = (if (DiskLimit spec =? 0)%Z then quotas w
            else <[filepath.Clean (ImagePath spec) := uint64 (DiskLimit spec)]>
                   (quotas w))
      /\ mounts r.2
         = match res with
           | None => Mnt "overlay" (filepath.Clean rootfs) "overlay" 0
                         (mountData spec) :: mounts w
           | Some _ => mounts w
           end
      /\ r.1 = Returns match res with
                       | None => None
                       | Some e => Some (withMessage (SyscallErrno e)
                                                     "mounting overlay")
                       end)
  \/ (exists cause msg,
         r.1 = Returns (Some (withMessage cause msg))
         /\ msg <> "mounting overlay"
         /\ Forall (fun ev => is_mount (ev_call ev) = false) tr).
Proof.
  intros upper work rootfs r1 r2 r tr. subst r tr.
  destruct (CreateImage_checked d spec w)
    as [(cause & msg & w' & tr0 & -> & _ & _ & _ & _ & Ht & Hwhich)
       |(w2 & -> & H1 & H2 & Hf & Hm & Hq & _ & _ & Ht)];
    cbv zeta in *; fold r1 r2 in Ht |- *.
  - right. exists cause, msg. split; [reflexivity|].
    cbn [snd]. rewrite (events_since_app _ _ _ Ht).
    destruct Hwhich as [(_ & _ & -> & ->)|(_ & _ & _ & -> & ->)];
      (split; [discriminate|repeat constructor]).
  - destruct (CreateImage_setup_cases d spec w2)
      as [(res & Htr & Hfs & Hqs & Hms & Hres)
         |(cause & msg & tr0 & Hres & Hmsg & Htr & Hno)];
      cbv zeta in *.
    + left. exists res. split; [exact H1|]. split; [exact H2|].
      rewrite Ht, <- app_assoc in Htr.
      rewrite (events_since_app _ _ _ Htr).
      rewrite Hf, Hm, Hq in *. repeat split; assumption.
    + right. exists cause, msg. split; [exact Hres|]. split; [exact Hmsg|].
      rewrite Ht, <- app_assoc in Htr.
      rewrite (events_since_app _ _ _ Htr).
      apply Forall_app. split; [repeat constructor|exact Hno].
Qed.

(** ** Strings, again *)

Lemma string_length_app (s t : string) :
  String.length (s +:+ t) = String.length s + String.length t.
Proof.
  induction s as [|c s IH]; [reflexivity|].
  change (S (String.length (s +:+ t)) = S (String.length s + String.length t)).
  f_equal. exact IH.
Qed.

(** Appending the same tail to two strings tells them apart. *)
Lemma string_app_inv_tail (s1 s2 t : string) :
  s1 +:+ t = s2 +:+ t -> s1 = s2.
Proof.
  revert s2. induction s1 as [|c1 s1 IH]; intros [|c2 s2] H.
  - reflexivity.
  - apply (f_equal String.length) in H.
    change (String.length t = S (String.length (s2 +:+ t))) in H.
    rewrite string_length_app in H. lia.
  - apply (f_equal String.length) in H.
    change (S (String.length (s1 +:+ t)) = String.length t) in H.
    rewrite string_length_app in H. lia.
  - change (String c1 (s1 +:+ t) = String c2 (s2 +:+ t)) in H.
    injection H as -> H. f_equal. exact (IH _ H).
Qed.

(** An entry put in the tree stays when other entries, with the same mode,
    are put on top. *)
Lemma lookup_insert_same (m : gmap string N) (k k' : string) (v : N) :
  m !! k = Some v -> <[k' := v]> m !! k = Some v.
Proof.
  intros H. destruct (decide (k' = k)) as [->|Hne].
  - apply lookup_insert_eq.
  - rewrite lookup_insert_ne; assumption.
Qed.

(** ** [CreateImage]: a failed mount *)

(** Every mount [CreateImage] asks for is the overlay mount on [rootfs]
    with the options the source formats, and is only asked for when [stat]
    has answered [ENOENT] neither on the image path nor on the base volume
    path. *)
Lemma CreateImage_mount_event
    (d : Driver) (spec : ImageDriverSpec) (w : World) (ev : Event) :
  ev ∈ events_since w (CreateImage d spec w).2 ->
  is_mount (ev_call ev) = true ->
  ev_call ev = SysMount "overlay" (filepath.Join [ImagePath spec; RootfsDir])
                        "overlay" 0 (mountData spec)
  /\ (kernel (SysStat (ImagePath spec)) w).1 <> Some ENOENT
  /\ (kernel (SysStat (BaseVolumePath spec)) w).1 <> Some ENOENT.
Proof.
  intros Hin Hm.
  destruct (CreateImage_cases d spec w)
    as [(res & Hi & Hb & Htr & _)|(cause & msg & _ & _ & Hno)].
  - cbv zeta in Htr. rewrite Htr in Hin.
    rewrite !elem_of_app in Hin. destruct Hin as [Hin|[Hin|Hin]].
    + rewrite !elem_of_cons in Hin.
      destruct Hin as [->|[->|Hin]]; try discriminate.
      apply elem_of_nil in Hin. contradiction.
    + unfold applyDiskLimit_calls in Hin.
      destruct (DiskLimit spec =? 0)%Z; cbn in Hin;
        rewrite ?elem_of_cons in Hin;
        repeat (destruct Hin as [->|Hin]; [discriminate|]);
        apply elem_of_nil in Hin; contradiction.
    + rewrite !elem_of_cons in Hin.
      destruct Hin as [->|[->|[->|[->|Hin]]]]; try discriminate.
      * repeat split; assumption.
      * apply elem_of_nil in Hin. contradiction.
  - rewrite Forall_forall in Hno. specialize (Hno ev Hin). congruence.
Qed.

(** C1, as the code has it: when the overlay mount fails, the upper, work
    and rootfs directories having been created, [CreateImage] returns the
    mount error, wrapped, and removes nothing: the tree is the tree before
    the call with the three directories added, so all three are still under
    the image path; the refused mount is the last call made. *)
Theorem CreateImage_mount_failure
    (d : Driver) (spec : ImageDriverSpec) (w : World) (cause : error) :
  (CreateImage d spec w).1
    = Returns (Some (withMessage cause "mounting overlay")) ->
  let upper := filepath.Join [ImagePath spec; UpperDir] in
  let work := filepath.Join [ImagePath spec; WorkDir] in
  let rootfs := filepath.Join [ImagePath spec; RootfsDir] in
  let w' := (CreateImage d spec w).2 in
  (exists e,
      cause = SyscallErrno e
      /\ last (events_since w w')
         = Some (Ev (SysMount "overlay" rootfs "overlay" 0 (mountData spec))
                    (Some e)))
  /\ fs w' = <[filepath.Clean rootfs := 448%N]>
               (<[filepath.Clean work := 448%N]>
                  (<[filepath.Clean upper := 448%N]> (fs w)))
  /\ fs w' !! filepath.Clean upper = Some 448%N
  /\ fs w' !! filepath.Clean work = Some 448%N
  /\ fs w' !! filepath.Clean rootfs = Some 448%N
  /\ mounts w' = mounts w.
Proof.
  intros Hr upper work rootfs w'. subst w'.
  destruct (CreateImage_cases d spec w)
    as [(res & _ & _ & Htr & Hfs & _ & Hm & Hres)
       |(cause' & msg & Hres & Hmsg & _)];
    cbv zeta in *.
  - fold upper work rootfs in Htr, Hfs, Hm. rewrite Hres in Hr. destruct res as [e|]; [|discriminate].
    injection Hr as <-. split; [|split; [exact Hfs|]].
    + exists e. split; [reflexivity|]. rewrite Htr, !app_assoc.
      change ([?a; ?b; ?c; ?m]) with ([a; b; c] ++ [m]).
      rewrite app_assoc. apply last_snoc.
    + rewrite Hfs. repeat split; [| |apply lookup_insert_eq|exact Hm].
      * do 2 apply lookup_insert_same. apply lookup_insert_eq.
      * apply lookup_insert_same. apply lookup_insert_eq.
  - rewrite Hres in Hr. injection Hr as _ Hmsg'. congruence.
Qed.

Lemma CreateImage_mount_failure_witness :
  fs (CreateImage drv img_spec store_mount_refused).2
    !! "/store/images/img/rootfs" = Some 448%N
  /\ mounts (CreateImage drv img_spec store_mount_refused).2 = [].
Proof.
  assert (H : (CreateImage drv img_spec store_mount_refused).1
              = Returns (Some (withMessage (SyscallErrno EPERM)
                                           "mounting overlay")))
    by (vm_compute; reflexivity).
  destruct (CreateImage_mount_failure drv img_spec store_mount_refused _ H)
    as (_ & _ & _ & _ & Hrootfs & Hm).
  split; [exact Hrootfs|exact Hm].
Defined.

(** C1, as stated, fails: on a host that refuses the overlay mount,
    [CreateImage] returns the mount error while the three directories it
    created, none of which was there before, are all still under the image
    path. *)
Lemma CreateImage_mount_failure_counterexample :
  let before := fs store_mount_refused in
  let r := CreateImage drv img_spec store_mount_refused in
  r.1 = Returns (Some (withMessage (SyscallErrno EPERM) "mounting overlay"))
  /\ before !! "/store/images/img/diff" = None
  /\ before !! "/store/images/img/workdir" = None
  /\ before !! "/store/images/img/rootfs" = None
  /\ fs r.2 !! "/store/images/img/diff" = Some 448%N
  /\ fs r.2 !! "/store/images/img/workdir" = Some 448%N
  /\ fs r.2 !! "/store/images/img/rootfs" = Some 448%N
  /\ ~ (fs r.2 !! "/store/images/img/diff" = None
        /\ fs r.2 !! "/store/images/img/workdir" = None
        /\ fs r.2 !! "/store/images/img/rootfs" = None).
Proof.
  vm_compute. repeat split; try reflexivity.
  intros (H & _). discriminate H.
Qed.

(** ** [CreateImage]: the mount options *)

(** C4, as the code has it: the specification of an image carries one base
    volume path, not a chain.  Every mount [CreateImage] asks for is the
    overlay mount on [rootfs] whose [lowerdir] is that one path, whose
    [upperdir] is the upper directory of the image and whose [workdir] is
    its work directory: the options the specification asks for a chain of
    one.  When [CreateImage] returns no error, that mount is in place. *)
Theorem CreateImage_mount_options
    (d : Driver) (spec : ImageDriverSpec) (w : World) :
  let upper := filepath.Join [ImagePath spec; UpperDir] in
  let work := filepath.Join [ImagePath spec; WorkDir] in
  let rootfs := filepath.Join [ImagePath spec; RootfsDir] in
  let data := "lowerdir=" +:+ BaseVolumePath spec
              +:+ ",upperdir=" +:+ upper +:+ ",workdir=" +:+ work in
  let r := CreateImage d spec w in
  data = spec_mountData [BaseVolumePath spec] upper work
  /\ (forall ev, ev ∈ events_since w r.2 -> is_mount (ev_call ev) = true ->
      ev_call ev = SysMount "overlay" rootfs "overlay" 0 data)
  /\ (r.1 = Returns None ->
      mounts r.2 = Mnt "overlay" (filepath.Clean rootfs) "overlay" 0 data
                   :: mounts w).
Proof.
  intros upper work rootfs data r. split; [reflexivity|]. split.
  - intros ev Hin Hm.
    exact (proj1 (CreateImage_mount_event d spec w ev Hin Hm)).
  - intros Hr. subst r.
    destruct (CreateImage_cases d spec w)
      as [(res & _ & _ & _ & _ & _ & Hm & Hres)|(cause & msg & Hres & _)];
      cbv zeta in *; rewrite Hres in Hr.
    + destruct res; [discriminate|]. exact Hm.
    + discriminate.
Qed.

Lemma CreateImage_mount_options_witness :
  mounts (CreateImage drv img_spec fresh_store).2
  = [ Mnt "overlay" "/store/images/img/rootfs" "overlay" 0
          "lowerdir=/store/volumes/b,upperdir=/store/images/img/diff,workdir=/store/images/img/workdir" ].
Proof.
  assert (H : (CreateImage drv img_spec fresh_store).1 = Returns None)
    by (vm_compute; reflexivity).
  rewrite (proj2 (proj2 (CreateImage_mount_options drv img_spec fresh_store))
             H).
  vm_compute. reflexivity.
Defined.

(** C4, as stated, fails: the two volumes of the chain [chain_ab] are in
    the store, yet the image made over its top volume is mounted with that
    volume alone as [lowerdir], and whatever base volume path and disk limit
    the driver is given for the image, it never asks for the mount whose
    [lowerdir] is the colon-joined chain. *)
Lemma CreateImage_chain_counterexample :
  let upper := "/store/images/img/diff" in
  let work := "/store/images/img/workdir" in
  let r := CreateImage drv img_spec fresh_store in
  Forall (exists_in fresh_store) chain_ab
  /\ spec_mountData chain_ab upper work
     = "lowerdir=/store/volumes/a:/store/volumes/b,upperdir=/store/images/img/diff,workdir=/store/images/img/workdir"
  /\ r.1 = Returns None
  /\ mnt_data <$> mounts r.2
     = ["lowerdir=/store/volumes/b,upperdir=/store/images/img/diff,workdir=/store/images/img/workdir"]
  /\ (forall (base : string) (limit : Z) (ev : Event),
         ev ∈ events_since fresh_store
                (CreateImage drv (mkSpec "/store/images/img" base limit)
                             fresh_store).2 ->
         ev_call ev <> SysMount "overlay" "/store/images/img/rootfs" "overlay"
                                0 (spec_mountData chain_ab upper work)).
Proof.
  intros upper work r.
  split; [repeat constructor; vm_compute; eauto|].
  split; [reflexivity|]. split; [vm_compute; reflexivity|].
  split; [vm_compute; reflexivity|].
  intros base limit ev Hin Hcall.
  assert (Hm : is_mount (ev_call ev) = true) by (rewrite Hcall; reflexivity).
  destruct (CreateImage_mount_event _ _ _ _ Hin Hm) as (Hev & _ & Hbase).
  rewrite Hcall in Hev. injection Hev as Hdata.
  change ("/store/volumes/a:/store/volumes/b"
          +:+ ",upperdir=/store/images/img/diff,workdir=/store/images/img/workdir"
          = base
            +:+ ",upperdir=/store/images/img/diff,workdir=/store/images/img/workdir")
    in Hdata.
  symmetry in Hdata.
  apply string_app_inv_tail in Hdata. subst base.
  apply Hbase. vm_compute. reflexivity.
Qed.

(** ** Disk limits *)

Lemma uint64_nonneg (z : Z) : (0 <= z < 2 ^ 63)%Z -> uint64 z = z.
Proof. intros H. unfold uint64. apply Z.mod_small. lia. Qed.

Lemma uint64_neg (z : Z) :
  (- 2 ^ 63 <= z < 0)%Z -> uint64 z = (z + 2 ^ 64)%Z.
Proof.
  intros H. unfold uint64. symmetry.
  apply (Z.mod_unique z (2 ^ 64) (-1) (z + 2 ^ 64)); lia.
Qed.

(** The calls of [applyDiskLimit] for a limit other than zero, and the quota
    it leaves when it returns no error. *)
Lemma applyDiskLimit_quota (d : Driver) (spec : ImageDriverSpec) (w : World) :
  DiskLimit spec <> 0%Z ->
  applyDiskLimit_calls d spec
  = [ SysQuotaControl (filepath.Join [storePath d; ImageDirName]);
      SysSetQuota (filepath.Join [storePath d; ImageDirName])
                  (ImagePath spec) (uint64 (DiskLimit spec)) ]
  /\ ((applyDiskLimit d spec w).1 = Returns None ->
      quotas (applyDiskLimit d spec w).2
      = <[filepath.Clean (ImagePath spec) := uint64 (DiskLimit spec)]>
          (quotas w)).
Proof.
  intros Hne. apply Z.eqb_neq in Hne.
  unfold applyDiskLimit, applyDiskLimit_calls, quota.NewControl,
    quota.SetQuota, sys, mbind, M_bind, mret, M_ret.
  rewrite Hne. split; [reflexivity|].
  set (images := filepath.Join [storePath d; ImageDirName]).
  clearbody images.
  assert (H : trace w = trace w ++ []) by (symmetry; apply app_nil_r).
  call_step H; [discriminate|]. destruct Hsuccess as (_ & _ & Hq1).
  call_step H; [discriminate|]. destruct Hsuccess as (_ & _ & Hq2).
  intros _. congruence.
Qed.

(** C5: for a disk limit above zero, [CreateImage] sets a project quota on
    the image path whose size is the limit, before it creates a directory
    and before it mounts: every [mkdir] and every [mount] in its trace comes
    after the successful quota call, and when it returns no error the quota
    of the image path is the limit.  For a disk limit of zero, applying the
    disk limit returns no error and leaves the world as it is: no call is
    made and no quota is set. *)
Theorem CreateImage_quota_first
    (d : Driver) (spec : ImageDriverSpec) (w : World) :
  let images := filepath.Join [storePath d; ImageDirName] in
  let r := CreateImage d spec w in
  let tr := events_since w r.2 in
  ((0 < DiskLimit spec)%Z -> int64_range (DiskLimit spec) ->
   (forall i ev,
       tr !! i = Some ev ->
       is_mkdir (ev_call ev) || is_mount (ev_call ev) = true ->
       exists j,
         j < i
         /\ tr !! j = Some (Ev (SysSetQuota images (ImagePath spec)
                                            (DiskLimit spec)) None))
   /\ (r.1 = Returns None ->
       quotas r.2
       = <[filepath.Clean (ImagePath spec) := DiskLimit spec]> (quotas w)))
  /\ (DiskLimit spec = 0%Z -> applyDiskLimit d spec w = (Returns None, w)).
Proof.
  intros images r tr. split.
  - intros Hpos [_ Hmax].
    assert (Hu : uint64 (DiskLimit spec) = DiskLimit spec)
      by (apply uint64_nonneg; lia).
    assert (Hne : DiskLimit spec <> 0%Z) by lia.
    split.
    + intros i ev Hi Hkind.
      destruct (CreateImage_checked d spec w)
        as [(cause & msg & w' & tr0 & Hc & _ & _ & _ & _ & Ht & Hwhich)
           |(w2 & Hc & _ & _ & _ & _ & _ & _ & _ & Ht)];
        cbv zeta in *; subst tr r; rewrite Hc in Hi; cbn [snd] in Hi.
      * exfalso. rewrite (events_since_app _ _ _ Ht) in Hi.
        destruct Hwhich as [(_ & _ & _ & ->)|(_ & _ & _ & _ & ->)];
          repeat (destruct i as [|i];
                  [injection Hi as <-; discriminate Hkind|]);
          discriminate Hi.
      * destruct (CreateImage_setup_script d spec w2) as [Hw _].
        destruct (run_calls_events (CreateImage_setup_calls d spec) w2)
          as (tr' & Htr & _ & Hcall & _).
        assert (Hall : trace (CreateImage_setup d spec w2).2
                       = trace w ++ [ Ev (SysStat (ImagePath spec))
                                         (kernel (SysStat (ImagePath spec)) w).1;
                                      Ev (SysStat (BaseVolumePath spec))
                                         (kernel (SysStat (BaseVolumePath spec)) w).1 ]
                                 ++ tr').
        { rewrite Hw, Htr, Ht, <- app_assoc. reflexivity. }
        rewrite Hc. cbn [snd].
        rewrite (events_since_app _ _ _ Hall) in Hi |- *.
        destruct i as [|[|i]];
          try (injection Hi as <-; discriminate Hkind).
        change (tr' !! i = Some ev) in Hi.
        pose proof (Hcall i ev Hi) as Hci.
        unfold CreateImage_setup_calls in Hci.
        rewrite (proj1 (applyDiskLimit_quota d spec w Hne)), Hu in Hci.
        fold images in Hci. cbn [app] in Hci.
        destruct i as [|[|i]];
          try (injection Hci as Hci; rewrite <- Hci in Hkind; discriminate).
        exists 3. split; [lia|].
        change (tr' !! 1 = Some (Ev (SysSetQuota images (ImagePath spec)
                                                  (DiskLimit spec)) None)).
        apply (run_calls_before (CreateImage_setup_calls d spec) w2 tr'
                                (2 + i) 1 ev);
          [exact Htr|exact Hi|lia|].
        unfold CreateImage_setup_calls.
        rewrite (proj1 (applyDiskLimit_quota d spec w Hne)), Hu. reflexivity.
    + intros Hr. subst r.
      destruct (CreateImage_cases d spec w)
        as [(res & _ & _ & _ & _ & Hq & _)|(cause & msg & Hres & _)];
        cbv zeta in *.
      * apply Z.eqb_neq in Hne. rewrite Hne, Hu in Hq. exact Hq.
      * rewrite Hres in Hr. discriminate.
  - intros Hz. unfold applyDiskLimit. rewrite Hz. reflexivity.
Qed.

Lemma CreateImage_quota_first_witness :
  quotas (CreateImage drv (img_spec_limit 1048576) fresh_store).2
    !! "/store/images/img" = Some 1048576%Z
  /\ applyDiskLimit drv img_spec fresh_store = (Returns None, fresh_store).
Proof.
  destruct (CreateImage_quota_first drv (img_spec_limit 1048576) fresh_store)
    as [Hpos _].
  destruct Hpos as [_ Hq]; [reflexivity|split; vm_compute; congruence|].
  destruct (CreateImage_quota_first drv img_spec fresh_store) as [_ Hzero].
  split; [|apply Hzero; reflexivity].
  rewrite Hq; [|vm_compute; reflexivity].
  vm_compute. reflexivity.
Defined.

(** C10: a negative disk limit is not rejected.  [applyDiskLimit] goes to
    the quota control as for any other limit, and the size it asks for is the
    limit read as an unsigned 64-bit number, that is the limit plus 2^64, at
    least 2^63; it returns an error only when one of its two calls was
    refused, and when it returns none the quota of the image path is that
    size. *)
Theorem applyDiskLimit_negative
    (d : Driver) (spec : ImageDriverSpec) (w : World) :
  int64_range (DiskLimit spec) -> (DiskLimit spec < 0)%Z ->
  let images := filepath.Join [storePath d; ImageDirName] in
  let size := (DiskLimit spec + 2 ^ 64)%Z in
  let r := applyDiskLimit d spec w in
  let tr := events_since w r.2 in
  uint64 (DiskLimit spec) = size /\ (2 ^ 63 <= size < 2 ^ 64)%Z
  /\ exists err,
       r.1 = Returns err
       /\ (ev_call <$> tr)
            `prefix_of` [ SysQuotaControl images;
                          SysSetQuota images (ImagePath spec) size ]
       /\ tr <> []
       /\ (err = None <-> Forall succeeded tr)
       /\ (err = None ->
           ev_call <$> tr = [ SysQuotaControl images;
                              SysSetQuota images (ImagePath spec) size ]
           /\ quotas r.2
              = <[filepath.Clean (ImagePath spec) := size]> (quotas w)).
Proof.
  intros [Hmin _] Hneg images size r tr.
  assert (Hu : uint64 (DiskLimit spec) = size) by (apply uint64_neg; lia).
  assert (Hne : DiskLimit spec <> 0%Z) by lia.
  split; [exact Hu|]. split; [subst size; lia|].
  destruct (applyDiskLimit_quota d spec w Hne) as [Hcalls Hq].
  destruct (applyDiskLimit_script d spec w) as [Hw Hr].
  destruct (script_outcome _ w _ Hw Hr)
    as (err & He & Hpre & _ & Hnil & Hfail).
  fold r tr in He, Hpre, Hnil, Hfail, Hq.
  rewrite Hcalls, Hu in Hpre, Hnil. rewrite Hu in Hq. fold images in Hpre, Hnil.
  exists err. split; [exact He|]. split; [exact Hpre|].
  split; [|split; [split|]].
  - destruct err as [e|].
    + destruct Hfail as (c & e' & Hl); [discriminate|].
      intros Hnone. rewrite Hnone in Hl. discriminate.
    + destruct Hnil as [Hn _]; [reflexivity|]. intros Hnone.
      rewrite Hnone in Hn. discriminate.
  - intros Herr. exact (proj2 (Hnil Herr)).
  - intros Hall. destruct err as [e|]; [|reflexivity].
    destruct Hfail as (c & e' & Hl); [discriminate|].
    apply last_Some in Hl. destruct Hl as [l' Hl]. rewrite Hl in Hall.
    apply Forall_app in Hall. destruct Hall as [_ Hall].
    inversion Hall as [|? ? Hbad _]. discriminate Hbad.
  - intros Herr. split; [exact (proj1 (Hnil Herr))|].
    apply Hq. rewrite He, Herr. reflexivity.
Qed.

Lemma applyDiskLimit_negative_witness :
  quotas (applyDiskLimit drv (img_spec_limit (-1)) fresh_store).2
    !! "/store/images/img" = Some 18446744073709551615%Z.
Proof.
  destruct (applyDiskLimit_negative drv (img_spec_limit (-1)) fresh_store)
    as (_ & _ & err & He & _ & _ & _ & Hq);
    [split; vm_compute; congruence|reflexivity|].
  assert (Herr : err = None).
  { assert (Hc : (applyDiskLimit drv (img_spec_limit (-1)) fresh_store).1
                 = Returns None) by (vm_compute; reflexivity).
    rewrite Hc in He. injection He as <-. reflexivity. }
  rewrite (proj2 (Hq Herr)). vm_compute. reflexivity.
Defined.

(** ** The operations left unimplemented *)

(** C2, as the code has it: for every volume id and every store,
    [DestroyVolume] panics with "not implemented"; it returns neither
    success nor an error, makes no call and removes nothing, whether the
    volume is there or not. *)
Theorem DestroyVolume_panics (d : Driver) (id : string) (w : World) :
  DestroyVolume d id w = (Panics "not implemented", w).
Proof. reflexivity. Qed.

(** C2, as stated, fails: on a store that holds the volume [a],
    [DestroyVolume] does not return success and the volume is still there
    afterwards; on a volume that is absent it does not return success
    either. *)
Lemma DestroyVolume_counterexample :
  exists_in fresh_store "/store/volumes/a"
  /\ (DestroyVolume drv "a" fresh_store).1 = Panics "not implemented"
  /\ (DestroyVolume drv "a" fresh_store).1 <> Returns None
  /\ exists_in (DestroyVolume drv "a" fresh_store).2 "/store/volumes/a"
  /\ ~ exists_in fresh_store "/store/volumes/missing"
  /\ (DestroyVolume drv "missing" fresh_store).1 = Panics "not implemented"
  /\ (DestroyVolume drv "missing" fresh_store).1 <> Returns None.
Proof.
  repeat split; try discriminate; try (vm_compute; eauto; fail).
  vm_compute. intros [x Hx]. discriminate.
Qed.

(** C3, as the code has it: for every image path and every store,
    [FetchStats] panics with "not implemented"; it returns no statistics
    and no error, and makes no call. *)
Theorem FetchStats_panics (d : Driver) (path : string) (w : World) :
  FetchStats d path w = (Panics "not implemented", w).
Proof. reflexivity. Qed.

(** C3, as stated, fails: on the store with the image made and mounted,
    [FetchStats] on the image path returns no pair of statistics at all. *)
Lemma FetchStats_counterexample :
  (CreateImage drv img_spec fresh_store).1 = Returns None
  /\ (FetchStats drv "/store/images/img" store_with_image).1
     = Panics "not implemented"
  /\ forall (stats : VolumeStats) (err : option error),
       (FetchStats drv "/store/images/img" store_with_image).1
       <> Returns (stats, err).
Proof.
  split; [vm_compute; reflexivity|]. split; [reflexivity|].
  intros stats err. discriminate.
Qed.


(** * Further properties of the operations *)

(** ** What a call leaves alone *)

Section Frames.

Implicit Types (c : Syscall) (cs : list Syscall) (w : World).

Ltac effect_cases c :=
  destruct c; cbn;
  repeat match goal with
         | |- context [match ?x with _ => _ end] => destruct x eqn:?
         end; cbn; try discriminate; intros.

Lemma effect_fs_grows c w :
  is_removal c = false -> fs w ⊆ fs (effect c w).2.
Proof.
  effect_cases c; try reflexivity.
  apply insert_subseteq. assumption.
Qed.

Lemma effect_fs_shrinks c w :
  is_mkdir c = false -> fs (effect c w).2 ⊆ fs w.
Proof.
  effect_cases c; try reflexivity.
  - apply delete_subseteq.
  - apply map_filter_subseteq.
Qed.

Lemma effect_quotas_same c w :
  is_set_quota c = false -> quotas (effect c w).2 = quotas w.
Proof. effect_cases c; reflexivity. Qed.

Lemma effect_mounts_same c w :
  is_mount c = false -> is_unmount c = false ->
  mounts (effect c w).2 = mounts w.
Proof. effect_cases c; reflexivity. Qed.

(** A call other than a removal keeps every entry of the tree. *)
Lemma kernel_fs_grows c w :
  is_removal c = false -> fs w ⊆ fs (kernel c w).2.
Proof.
  intros H. unfold kernel. destruct (refusal c w); [reflexivity|].
  pose proof (effect_fs_grows c w H) as Hg.
  destruct (effect c w). exact Hg.
Qed.

(** A call other than [mkdir] adds no entry to the tree. *)
Lemma kernel_fs_shrinks c w :
  is_mkdir c = false -> fs (kernel c w).2 ⊆ fs w.
Proof.
  intros H. unfold kernel. destruct (refusal c w); [reflexivity|].
  pose proof (effect_fs_shrinks c w H) as Hg.
  destruct (effect c w). exact Hg.
Qed.

Lemma kernel_quotas_same c w :
  is_set_quota c = false -> quotas (kernel c w).2 = quotas w.
Proof.
  intros H. unfold kernel. destruct (refusal c w); [reflexivity|].
  pose proof (effect_quotas_same c w H) as Hg.
  destruct (effect c w). exact Hg.
Qed.

Lemma kernel_mounts_same c w :
  is_mount c = false -> is_unmount c = false ->
  mounts (kernel c w).2 = mounts w.
Proof.
  intros H1 H2. unfold kernel. destruct (refusal c w); [reflexivity|].
  pose proof (effect_mounts_same c w H1 H2) as Hg.
  destruct (effect c w). exact Hg.
Qed.

(** The same for scripts, by induction on the script. *)
Lemma run_calls_fs_grows cs w :
  Forall (fun c => is_removal c = false) cs -> fs w ⊆ fs (run_calls cs w).2.
Proof.
  intros H. revert w. induction H as [|c cs Hc _ IH]; intros w; cbn.
  - reflexivity.
  - pose proof (kernel_fs_grows c w Hc) as Hg.
    destruct (kernel c w) as [[e|] w1]; cbn in *; [exact Hg|].
    etransitivity; [exact Hg|apply IH].
Qed.

Lemma run_calls_fs_shrinks cs w :
  Forall (fun c => is_mkdir c = false) cs -> fs (run_calls cs w).2 ⊆ fs w.
Proof.
  intros H. revert w. induction H as [|c cs Hc _ IH]; intros w; cbn.
  - reflexivity.
  - pose proof (kernel_fs_shrinks c w Hc) as Hg.
    destruct (kernel c w) as [[e|] w1]; cbn in *; [exact Hg|].
    etransitivity; [apply IH|exact Hg].
Qed.

Lemma run_calls_quotas_same cs w :
  Forall (fun c => is_set_quota c = false) cs ->
  quotas (run_calls cs w).2 = quotas w.
Proof.
  intros H. revert w. induction H as [|c cs Hc _ IH]; intros w; cbn.
  - reflexivity.
  - pose proof (kernel_quotas_same c w Hc) as Hg.
    destruct (kernel c w) as [[e|] w1]; cbn in *; [exact Hg|].
    rewrite IH. exact Hg.
Qed.

Lemma run_calls_mounts_same cs w :
  Forall (fun c => is_mount c = false /\ is_unmount c = false) cs ->
  mounts (run_calls cs w).2 = mounts w.
Proof.
  intros H. revert w. induction H as [|c cs [Hc1 Hc2] _ IH]; intros w; cbn.
  - reflexivity.
  - pose proof (kernel_mounts_same c w Hc1 Hc2) as Hg.
    destruct (kernel c w) as [[e|] w1]; cbn in *; [exact Hg|].
    rewrite IH. exact Hg.
Qed.

End Frames.

(** ** [CreateImage]: the paths it checks *)

(** [os.Stat] answers that a name does not exist when the call answers
    [ENOENT]. *)
Lemma not_found_kernel (name : string) (w : World) :
  not_found w name <-> (kernel (SysStat name) w).1 = Some ENOENT.
Proof.
  unfold not_found, os_Stat, sys, mbind, M_bind, mret, M_ret.
  destruct (kernel (SysStat name) w) as [res w1]; cbn [fst snd].
  split.
  - intros (err & [= <-] & Hne). apply os_IsNotExist_true in Hne. exact Hne.
  - intros ->. eexists. split; reflexivity.
Qed.

(** The setup of [CreateImage] makes at least one call: the quota control
    for a disk limit other than zero, the [mkdir] of the upper directory
    otherwise. *)
Lemma CreateImage_setup_first
    (d : Driver) (spec : ImageDriverSpec) (w : World) :
  exists res tr,
    trace (CreateImage_setup d spec w).2
    = trace w
      ++ Ev (if (DiskLimit spec =? 0)%Z
             then SysMkdir (filepath.Join [ImagePath spec; UpperDir]) 448
             else SysQuotaControl (filepath.Join [storePath d; ImageDirName]))
            res :: tr.
Proof.
  destruct (CreateImage_setup_script d spec w) as [-> _].
  destruct (run_calls_events (CreateImage_setup_calls d spec) w)
    as (tr & -> & _ & Hcall & _ & Hres).
  assert (Hne : tr <> []).
  { intros ->. destruct (run_calls _ w).1 as [[c e]|]; [discriminate|].
    destruct Hres as [Hc _]. revert Hc.
    unfold CreateImage_setup_calls, applyDiskLimit_calls.
    destruct (DiskLimit spec =? 0)%Z; discriminate. }
  destruct tr as [|[c res] tr]; [congruence|].
  specialize (Hcall 0 _ eq_refl). revert Hcall.
  unfold CreateImage_setup_calls, applyDiskLimit_calls.
  destruct (DiskLimit spec =? 0)%Z; intros [= <-]; eauto.
Qed.

(** X1: [CreateImage] checks its paths first, and stops on one answer
    only.  When [os.Stat] on the image path answers that the path does not
    exist, [CreateImage] returns that error wrapped as "image path does not
    exist", having made that one call; when it does not, and [os.Stat] on
    the base volume path answers that the path does not exist, it returns
    that error wrapped as "base volume path does not exist", having made the
    two [stat] calls.  Either way no quota is set, whatever the disk limit,
    and the tree, the mount table and the quotas are unchanged.  A [stat]
    that fails in another way stops nothing: when neither answer is "does
    not exist", [CreateImage] goes on to its third call, the quota control
    for a disk limit other than zero and the [mkdir] of the upper directory
    otherwise. *)
Theorem CreateImage_missing_path
    (d : Driver) (spec : ImageDriverSpec) (w : World) :
  let r := CreateImage d spec w in
  let tr := events_since w r.2 in
  (not_found w (ImagePath spec) ->
   r.1 = Returns (Some (withMessage
                          (PathError "stat" (ImagePath spec) ENOENT)
                          "image path does not exist"))
   /\ tr = [Ev (SysStat (ImagePath spec)) (Some ENOENT)]
   /\ fs r.2 = fs w /\ mounts r.2 = mounts w /\ quotas r.2 = quotas w)
  /\ (~ not_found w (ImagePath spec) -> not_found w (BaseVolumePath spec) ->
      r.1 = Returns (Some (withMessage
                             (PathError "stat" (BaseVolumePath spec) ENOENT)
                             "base volume path does not exist"))
      /\ (exists res,
             res <> Some ENOENT
             /\ tr = [ Ev (SysStat (ImagePath spec)) res;
                       Ev (SysStat (BaseVolumePath spec)) (Some ENOENT) ])
      /\ fs r.2 = fs w /\ mounts r.2 = mounts w /\ quotas r.2 = quotas w)
  /\ (~ not_found w (ImagePath spec) ->
      ~ not_found w (BaseVolumePath spec) ->
      exists res1 res2 res3 rest,
        res1 <> Some ENOENT /\ res2 <> Some ENOENT
        /\ tr = Ev (SysStat (ImagePath spec)) res1
                :: Ev (SysStat (BaseVolumePath spec)) res2
                :: Ev (if (DiskLimit spec =? 0)%Z
                       then SysMkdir (filepath.Join [ImagePath spec; UpperDir])
                                     448
                       else SysQuotaControl
                              (filepath.Join [storePath d; ImageDirName]))
                      res3
                :: rest).
Proof.
  intros r tr. subst r tr. rewrite !not_found_kernel.
  destruct (CreateImage_checked d spec w)
    as [(cause & msg & w' & tr0 & -> & Hf & Hm & Hq & _ & Ht & Hwhich)
       |(w2 & -> & H1 & H2 & _ & _ & _ & _ & _ & Ht)];
    cbv zeta in *.
  - cbn [fst snd]. rewrite (events_since_app _ _ _ Ht).
    destruct Hwhich as [(E1 & -> & -> & ->)|(N1 & E2 & -> & -> & ->)].
    + split; [|split; intros Hn; destruct (Hn E1)].
      intros _. rewrite E1. repeat split; assumption.
    + split; [intros E1; destruct (N1 E1)|]. split.
      * intros _ _. split; [reflexivity|]. rewrite E2.
        split; [eauto|]. repeat split; assumption.
      * intros _ Hn. destruct (Hn E2).
  - split; [intros E1; destruct (H1 E1)|].
    split; [intros _ E2; destruct (H2 E2)|]. intros _ _.
    destruct (CreateImage_setup_first d spec w2) as (res3 & rest & Htr).
    rewrite Ht, <- app_assoc in Htr. rewrite (events_since_app _ _ _ Htr).
    eexists _, _, res3, rest. repeat split; assumption.
Qed.

Lemma CreateImage_missing_path_witness :
  (CreateImage drv (mkSpec "/store/images/none" "/store/volumes/a" 7)
               fresh_store).1
  = Returns (Some (withMessage
                     (PathError "stat" "/store/images/none" ENOENT)
                     "image path does not exist"))
  /\ (CreateImage drv (mkSpec "/store/images/img" "/store/volumes/z" 7)
                  fresh_store).1
     = Returns (Some (withMessage
                        (PathError "stat" "/store/volumes/z" ENOENT)
                        "base volume path does not exist"))
  /\ exists res3 rest,
       events_since store_with_files
         (CreateImage drv (mkSpec "/store/images/file/img" "/store/volumes/a" 0)
                      store_with_files).2
       = Ev (SysStat "/store/images/file/img") (Some ENOTDIR)
         :: Ev (SysStat "/store/volumes/a") None
         :: Ev (SysMkdir "/store/images/file/img/diff" 448) res3 :: rest.
Proof.
  split; [|split].
  - apply (proj1 (CreateImage_missing_path drv
                    (mkSpec "/store/images/none" "/store/volumes/a" 7)
                    fresh_store)).
    eexists. split; vm_compute; reflexivity.
  - apply (proj1 (proj2 (CreateImage_missing_path drv
                    (mkSpec "/store/images/img" "/store/volumes/z" 7)
                    fresh_store))).
    + intros (err & He & Hne). vm_compute in He. injection He as <-.
      discriminate Hne.
    + eexists. split; vm_compute; reflexivity.
  - destruct (proj2 (proj2 (CreateImage_missing_path drv
                    (mkSpec "/store/images/file/img" "/store/volumes/a" 0)
                    store_with_files)))
      as (res1 & res2 & res3 & rest & _ & _ & Htr).
    + intros (err & He & Hne). vm_compute in He. injection He as <-.
      discriminate Hne.
    + intros (err & He & Hne). vm_compute in He. injection He as <-.
      discriminate Hne.
    + exists res3, rest. rewrite Htr.
      assert (H0 : events_since store_with_files
                     (CreateImage drv
                        (mkSpec "/store/images/file/img" "/store/volumes/a" 0)
                        store_with_files).2 !! 0
                   = Some (Ev (SysStat "/store/images/file/img")
                              (Some ENOTDIR)))
        by (vm_compute; reflexivity).
      assert (H1 : events_since store_with_files
                     (CreateImage drv
                        (mkSpec "/store/images/file/img" "/store/volumes/a" 0)
                        store_with_files).2 !! 1
                   = Some (Ev (SysStat "/store/volumes/a") None))
        by (vm_compute; reflexivity).
      rewrite Htr in H0, H1. cbn in H0, H1.
      injection H0 as ->. injection H1 as ->. reflexivity.
Defined.

(** ** [CreateImage] only adds, [DestroyImage] only takes away *)

Lemma CreateImage_setup_calls_no_removal
    (d : Driver) (spec : ImageDriverSpec) :
  Forall (fun c => is_removal c = false) (CreateImage_setup_calls d spec).
Proof.
  unfold CreateImage_setup_calls, applyDiskLimit_calls.
  destruct (DiskLimit spec =? 0)%Z; repeat constructor.
Qed.

(** The trace of an operation in two parts. *)
Lemma events_since_split (w w2 w3 : World) (pre : list Event) :
  trace w2 = trace w ++ pre ->
  (exists tr, trace w3 = trace w2 ++ tr) ->
  events_since w w3 = pre ++ events_since w2 w3.
Proof.
  intros Hpre [tr Ht]. rewrite (events_since_app _ _ _ Ht).
  apply events_since_app. rewrite Ht, Hpre, <- app_assoc. reflexivity.
Qed.

(** The operation stopped with an error and the tables as they were. *)
Ltac failed_same :=
  repeat match goal with
         | Hx : _ /\ _ |- _ => destruct Hx
         end;
  split; [right; split; [eauto|congruence]|];
  split; [intros; try rewrite lookup_insert_ne by congruence; congruence
         |intros; congruence].

Lemma CreateImage_setup_only_adds
    (d : Driver) (spec : ImageDriverSpec) (w : World) :
  let r := CreateImage_setup d spec w in
  fs w ⊆ fs r.2
  /\ ((r.1 = Returns None
       /\ mounts r.2
          = Mnt "overlay"
                (filepath.Clean (filepath.Join [ImagePath spec; RootfsDir]))
                "overlay" 0 (mountData spec) :: mounts w)
      \/ ((exists e, r.1 = Returns (Some e)) /\ mounts r.2 = mounts w))
  /\ (forall k, k <> filepath.Clean (ImagePath spec) ->
                quotas r.2 !! k = quotas w !! k)
  /\ (DiskLimit spec = 0%Z -> quotas r.2 = quotas w).
Proof.
  intros r. subst r. split.
  { rewrite (proj1 (CreateImage_setup_script d spec w)).
    apply run_calls_fs_grows, CreateImage_setup_calls_no_removal. }
  unfold CreateImage_setup, applyDiskLimit, mountData, quota.NewControl,
    quota.SetQuota, os_Mkdir, syscall_Mount, sys, mbind, M_bind,
    mret, M_ret.
  set (upper := filepath.Join [ImagePath spec; UpperDir]).
  set (work := filepath.Join [ImagePath spec; WorkDir]).
  set (rootfs := filepath.Join [ImagePath spec; RootfsDir]).
  set (data := String.append "lowerdir=" _).
  set (images := filepath.Join [storePath d; ImageDirName]).
  clearbody upper work rootfs data images.
  assert (H : trace w = trace w ++ []) by (symmetry; apply app_nil_r).
  destruct (DiskLimit spec =? 0)%Z eqn:Hz; cbn.
  - call_step H; [failed_same|].
    call_step H; [failed_same|].
    call_step H; [failed_same|].
    call_step H; [failed_same|].
    repeat match goal with
           | Hx : _ /\ _ |- _ => destruct Hx
           end.
    split; [left; split; [reflexivity|congruence]|].
    split; intros; congruence.
  - apply Z.eqb_neq in Hz.
    call_step H; [failed_same|].
    call_step H; [failed_same|].
    assert (Hq : forall k, k <> filepath.Clean (ImagePath spec) ->
                           quotas w1 !! k = quotas w !! k).
    { intros k Hk'.
      destruct Hsuccess as (_ & _ & Hq1), Hsuccess0 as (_ & _ & Hq2).
      rewrite Hq2, lookup_insert_ne by congruence. congruence. }
    call_step H; [|call_step H; [|call_step H; [|call_step H]]];
      repeat match goal with
             | Hx : _ /\ _ |- _ => destruct Hx
             end;
      (split; [first [right; split; [eauto|congruence]
                     |left; split; [reflexivity|congruence]]|]);
      (split; [intros k Hk'; rewrite <- (Hq k Hk'); congruence
              |intros Hz'; contradiction]).
Qed.

(** X2: [CreateImage] never removes and never unmounts, on any of its
    paths.  Every entry of the tree before the call is still there
    afterwards, with its mode; the mount table is unchanged when it returns
    an error and has exactly the one overlay mount more when it returns
    none; the quota of every other path than the image path is unchanged,
    and with a disk limit of zero so are all quotas. *)
Theorem CreateImage_only_adds
    (d : Driver) (spec : ImageDriverSpec) (w : World) :
  let r := CreateImage d spec w in
  fs w ⊆ fs r.2
  /\ ((r.1 = Returns None
       /\ mounts r.2
          = Mnt "overlay"
                (filepath.Clean (filepath.Join [ImagePath spec; RootfsDir]))
                "overlay" 0 (mountData spec) :: mounts w)
      \/ ((exists e, r.1 = Returns (Some e)) /\ mounts r.2 = mounts w))
  /\ (forall k, k <> filepath.Clean (ImagePath spec) ->
                quotas r.2 !! k = quotas w !! k)
  /\ (DiskLimit spec = 0%Z -> quotas r.2 = quotas w).
Proof.
  intros r. subst r.
  destruct (CreateImage_checked d spec w)
    as [(cause & msg & w' & tr0 & -> & Hf & Hm & Hq & _)
       |(w2 & -> & _ & _ & Hf & Hm & Hq & _)];
    cbv zeta in *.
  - cbn [fst snd]. rewrite Hf, Hm, Hq. split; [reflexivity|].
    split; [right; split; [eauto|reflexivity]|]. split; reflexivity.
  - destruct (CreateImage_setup_only_adds d spec w2) as (A & B & C & D);
      cbv zeta in *.
    rewrite Hf, Hm, Hq in *. auto.
Qed.

(** ** [DestroyImage]: what it removes *)

Lemma DestroyImage_calls_no_mkdir (imagePath : string) :
  Forall (fun c => is_mkdir c = false) (DestroyImage_calls imagePath).
Proof. repeat constructor. Qed.

Lemma DestroyImage_calls_no_quota (imagePath : string) :
  Forall (fun c => is_set_quota c = false) (DestroyImage_calls imagePath).
Proof. repeat constructor. Qed.

(** X3: [DestroyImage] creates nothing and leaves the quotas alone, on any
    of its paths: the tree after the call is part of the tree before it, the
    quota table is unchanged (the quota [CreateImage] set on the image path
    is not cleared), and the mount table is either unchanged or has lost
    the latest mount on [rootfs]. *)
Theorem DestroyImage_only_removes
    (d : Driver) (imagePath : string) (w : World) :
  let rootfs := filepath.Join [imagePath; RootfsDir] in
  let r := DestroyImage d imagePath w in
  fs r.2 ⊆ fs w
  /\ quotas r.2 = quotas w
  /\ (mounts r.2 = mounts w
      \/ mounts r.2 = unmount_top (filepath.Clean rootfs) (mounts w)).
Proof.
  intros rootfs r. subst r.
  rewrite (proj1 (DestroyImage_script d imagePath w)).
  split; [apply run_calls_fs_shrinks, DestroyImage_calls_no_mkdir|].
  split; [apply run_calls_quotas_same, DestroyImage_calls_no_quota|].
  unfold DestroyImage_calls. fold rootfs. cbn [run_calls].
  pose proof (kernel_refused (SysUnmount rootfs 0) w) as Hr.
  pose proof (kernel_success (SysUnmount rootfs 0) w) as Hs.
  destruct (kernel (SysUnmount rootfs 0) w) as [[e|] w1]; cbn in *.
  - left. apply (Hr e eq_refl).
  - right. destruct (Hs eq_refl) as (_ & Hm & _). rewrite <- Hm.
    apply (run_calls_mounts_same
             [SysRemove rootfs; SysRemoveAll _; SysRemoveAll _] w1).
    repeat constructor.
Qed.

(** X4: when [DestroyImage] returns no error, [rootfs] was mounted and is
    no longer; the tree is the tree before the call without [rootfs], which
    was there and empty, and without the work and upper directories and
    all that was below them: none of these is left, and every other entry is
    untouched. *)
Theorem DestroyImage_success
    (d : Driver) (imagePath : string) (w : World) :
  let rootfs := filepath.Clean (filepath.Join [imagePath; RootfsDir]) in
  let work := filepath.Clean (filepath.Join [imagePath; WorkDir]) in
  let upper := filepath.Clean (filepath.Join [imagePath; UpperDir]) in
  let r := DestroyImage d imagePath w in
  r.1 = Returns None ->
  mounted_at rootfs (mounts w) = true
  /\ mounts r.2 = unmount_top rootfs (mounts w)
  /\ mounted_at rootfs (mounts r.2) = false
  /\ is_Some (fs w !! rootfs) /\ below rootfs (fs w) = ∅
  /\ fs r.2 = outside upper (outside work (delete rootfs (fs w)))
  /\ fs r.2 !! rootfs = None
  /\ (forall k, within work k = true \/ within upper k = true ->
                fs r.2 !! k = None)
  /\ (forall k, k <> rootfs -> within work k = false ->
                within upper k = false -> fs r.2 !! k = fs w !! k).
Proof.
  intros rootfs work upper r. subst r rootfs work upper.
  unfold DestroyImage, syscall_Unmount, os_Remove, os_RemoveAll, sys, mbind,
    M_bind, mret, M_ret.
  set (rootfs := filepath.Join [imagePath; RootfsDir]).
  set (work := filepath.Join [imagePath; WorkDir]).
  set (upper := filepath.Join [imagePath; UpperDir]).
  clearbody rootfs work upper.
  assert (H : trace w = trace w ++ []) by (symmetry; apply app_nil_r).
  pose proof (kernel_unmount_ok rootfs 0 w) as Hu.
  call_step H; [discriminate|]. specialize (Hu eq_refl).
  destruct Hsuccess as (Hf1 & Hm1 & _).
  pose proof (kernel_remove_ok rootfs w0) as Hrm.
  call_step H; [discriminate|]. destruct (Hrm eq_refl) as (Hin & Hnm & Hemp).
  destruct Hsuccess as (Hf2 & Hm2 & _).
  call_step H; [discriminate|]. destruct Hsuccess as (Hf3 & Hm3 & _).
  call_step H; [discriminate|]. destruct Hsuccess as (Hf4 & Hm4 & _).
  intros _.
  assert (Hfs : fs w3 = outside (filepath.Clean upper)
                          (outside (filepath.Clean work)
                             (delete (filepath.Clean rootfs) (fs w))))
    by congruence.
  assert (Hsub : forall k x, fs w3 !! k = Some x ->
                             delete (filepath.Clean rootfs) (fs w) !! k
                             = Some x).
  { intros k x. rewrite Hfs. unfold outside.
    rewrite !map_lookup_filter_Some. tauto. }
  repeat split.
  - exact Hu.
  - congruence.
  - rewrite Hm4, Hm3, Hm2. exact Hnm.
  - rewrite <- Hf1. exact Hin.
  - rewrite <- Hf1. exact Hemp.
  - exact Hfs.
  - destruct (fs w3 !! filepath.Clean rootfs) as [x|] eqn:E; [|reflexivity].
    apply Hsub in E. rewrite lookup_delete_eq in E. discriminate.
  - intros k [Hin'|Hin']; rewrite Hfs.
    + destruct (within (filepath.Clean upper) k) eqn:Hup.
      * apply outside_lookup_within. exact Hup.
      * rewrite outside_lookup_other by exact Hup.
        apply outside_lookup_within. exact Hin'.
    + apply outside_lookup_within. exact Hin'.
  - intros k Hne Hwk Hup. rewrite Hfs.
    rewrite !outside_lookup_other by assumption.
    apply lookup_delete_ne. congruence.
Qed.

Lemma DestroyImage_success_witness :
  fs (DestroyImage drv "/store/images/img" store_with_image).2 = store_tree
  /\ mounts (DestroyImage drv "/store/images/img" store_with_image).2 = [].
Proof.
  destruct (DestroyImage_success drv "/store/images/img" store_with_image)
    as (_ & Hm & _ & _ & _ & Hfs & _).
  - vm_compute. reflexivity.
  - split; [rewrite Hfs|rewrite Hm]; vm_compute; reflexivity.
Defined.

(** ** Doing it twice *)

(** [DestroyImage] stops at an unmount that is refused. *)
Lemma DestroyImage_stops_at_unmount
    (d : Driver) (imagePath : string) (w : World) (e : Errno) :
  (kernel (SysUnmount (filepath.Join [imagePath; RootfsDir]) 0) w).1
    = Some e ->
  let r := DestroyImage d imagePath w in
  r.1 = Returns (Some (withMessage (SyscallErrno e)
                                   "unmounting rootfs folder"))
  /\ fs r.2 = fs w /\ mounts r.2 = mounts w /\ quotas r.2 = quotas w.
Proof.
  unfold DestroyImage, syscall_Unmount, sys, mbind, M_bind, mret, M_ret.
  set (c := SysUnmount _ 0).
  pose proof (kernel_refused c w) as Hs.
  destruct (kernel c w) as [[e'|] w1]; cbn in *; [|discriminate].
  intros [= <-]. destruct (Hs e' eq_refl) as (Hfs & Hm & Hq).
  repeat split; assumption.
Qed.

Lemma DestroyImage_success_unmounted
    (d : Driver) (imagePath : string) (w : World) :
  (DestroyImage d imagePath w).1 = Returns None ->
  mounted_at (filepath.Clean (filepath.Join [imagePath; RootfsDir]))
             (mounts (DestroyImage d imagePath w).2) = false.
Proof.
  unfold DestroyImage, syscall_Unmount, os_Remove, os_RemoveAll, sys, mbind,
    M_bind, mret, M_ret.
  set (rootfs := filepath.Join [imagePath; RootfsDir]).
  set (work := filepath.Join [imagePath; WorkDir]).
  set (upper := filepath.Join [imagePath; UpperDir]).
  clearbody rootfs work upper.
  assert (H : trace w = trace w ++ []) by (symmetry; apply app_nil_r).
  call_step H; [discriminate|].
  match goal with
  | |- context [kernel (SysRemove rootfs) ?w1] =>
      pose proof (kernel_remove_ok rootfs w1) as Hrm
  end.
  call_step H; [discriminate|]. destruct (Hrm eq_refl) as (_ & Hnm & _).
  destruct Hsuccess0 as (_ & Hm2 & _).
  call_step H; [discriminate|]. destruct Hsuccess0 as (_ & Hm3 & _).
  call_step H; [discriminate|]. destruct Hsuccess0 as (_ & Hm4 & _).
  intros _. rewrite Hm4, Hm3, Hm2. exact Hnm.
Qed.

(** X5: [DestroyImage] needs the mount.  On an image whose [rootfs] is not
    mounted it returns the unmount error, wrapped, and removes nothing; in
    particular, once [DestroyImage] has returned no error, calling it again
    on the same image path fails in that way: at the driver, deleting is
    not idempotent. *)
Theorem DestroyImage_needs_mount
    (d : Driver) (imagePath : string) (w : World) :
  let rootfs := filepath.Clean (filepath.Join [imagePath; RootfsDir]) in
  (mounted_at rootfs (mounts w) = false ->
   let r := DestroyImage d imagePath w in
   (exists e, r.1 = Returns (Some (withMessage (SyscallErrno e)
                                               "unmounting rootfs folder")))
   /\ fs r.2 = fs w /\ mounts r.2 = mounts w /\ quotas r.2 = quotas w)
  /\ ((DestroyImage d imagePath w).1 = Returns None ->
      let w' := (DestroyImage d imagePath w).2 in
      let r := DestroyImage d imagePath w' in
      (exists e, r.1 = Returns (Some (withMessage (SyscallErrno e)
                                                  "unmounting rootfs folder")))
      /\ fs r.2 = fs w' /\ mounts r.2 = mounts w' /\ quotas r.2 = quotas w').
Proof.
  intros rootfs.
  assert (Hgen : forall w0,
             mounted_at rootfs (mounts w0) = false ->
             (exists e,
                 (DestroyImage d imagePath w0).1
                 = Returns (Some (withMessage (SyscallErrno e)
                                              "unmounting rootfs folder")))
             /\ fs (DestroyImage d imagePath w0).2 = fs w0
             /\ mounts (DestroyImage d imagePath w0).2 = mounts w0
             /\ quotas (DestroyImage d imagePath w0).2 = quotas w0).
  { intros w0 Hn.
    destruct (kernel_unmount_not_mounted _ 0 w0 Hn) as [e He].
    destruct (DestroyImage_stops_at_unmount d imagePath w0 e He)
      as (Hr & Hrest).
    split; [eauto|exact Hrest]. }
  split; [exact (Hgen w)|].
  intros Hok w'. apply Hgen.
  apply DestroyImage_success_unmounted. exact Hok.
Qed.

Lemma DestroyImage_needs_mount_witness :
  exists e,
    (DestroyImage drv "/store/images/img"
       (DestroyImage drv "/store/images/img" store_with_image).2).1
    = Returns (Some (withMessage (SyscallErrno e) "unmounting rootfs folder")).
Proof.
  destruct (DestroyImage_needs_mount drv "/store/images/img" store_with_image)
    as [_ Htwice].
  destruct Htwice as (He & _); [vm_compute; reflexivity|].
  exact He.
Defined.

(** The operation stopped with an error, the tree and the mount table as
    they were and no [mkdir] having succeeded, its trace being [H]. *)
Ltac failed_untouched H :=
  repeat match goal with
         | Hx : _ /\ _ |- _ => destruct Hx
         end;
  split; [eauto|]; split; [congruence|]; split; [congruence|];
  rewrite (events_since_app _ _ _ H);
  repeat (constructor; [cbn; intros; first [discriminate|congruence]|]);
  constructor.

(** The [mkdir] of a directory that [Hup] finds in the tree of [w]. *)
Ltac upper_step H Hup w :=
  match goal with
  | |- context [kernel (SysMkdir ?n ?p) ?w1] =>
      let Hmk := fresh "Hmk" in
      let Hmk' := fresh "Hmk" in
      let Hsame := fresh "Hsame" in
      pose proof (kernel_mkdir n p w1) as Hmk;
      call_step H;
      [ failed_untouched H
      | exfalso; destruct (Hmk eq_refl) as (Hmk' & _);
        repeat match goal with
               | Hx : _ /\ _ |- _ => destruct Hx
               end;
        destruct Hup as [? ?];
        assert (Hsame : fs w1 = fs w) by congruence;
        try rewrite Hsame in Hmk'; congruence ]
  end.

(** The setup of [CreateImage] on an image path that has its upper
    directory already stops at the [mkdir] of that directory at the
    latest. *)
Lemma CreateImage_setup_upper_exists
    (d : Driver) (spec : ImageDriverSpec) (w : World) :
  exists_in w (filepath.Join [ImagePath spec; UpperDir]) ->
  (exists e, (CreateImage_setup d spec w).1 = Returns (Some e))
  /\ fs (CreateImage_setup d spec w).2 = fs w
  /\ mounts (CreateImage_setup d spec w).2 = mounts w
  /\ Forall (fun ev => is_mkdir (ev_call ev) = true -> ev_res ev <> None)
            (events_since w (CreateImage_setup d spec w).2).
Proof.
  unfold CreateImage_setup, applyDiskLimit, mountData, quota.NewControl,
    quota.SetQuota, os_Mkdir, syscall_Mount, sys, mbind, M_bind,
    mret, M_ret, exists_in.
  set (upper := filepath.Join [ImagePath spec; UpperDir]).
  set (work := filepath.Join [ImagePath spec; WorkDir]).
  set (rootfs := filepath.Join [ImagePath spec; RootfsDir]).
  set (data := String.append "lowerdir=" _).
  set (images := filepath.Join [storePath d; ImageDirName]).
  clearbody upper work rootfs data images.
  intros Hup.
  assert (H : trace w = trace w ++ []) by (symmetry; apply app_nil_r).
  destruct (DiskLimit spec =? 0)%Z; cbn.
  - upper_step H Hup w.
  - call_step H; [failed_untouched H|].
    call_step H; [failed_untouched H|].
    upper_step H Hup w.
Qed.

(** [CreateImage] on an image path that has its upper directory already
    makes no directory and mounts nothing. *)
Lemma CreateImage_upper_exists
    (d : Driver) (spec : ImageDriverSpec) (w : World) :
  exists_in w (filepath.Join [ImagePath spec; UpperDir]) ->
  (exists e, (CreateImage d spec w).1 = Returns (Some e))
  /\ fs (CreateImage d spec w).2 = fs w
  /\ mounts (CreateImage d spec w).2 = mounts w
  /\ Forall (fun ev => is_mkdir (ev_call ev) = true -> ev_res ev <> None)
            (events_since w (CreateImage d spec w).2).
Proof.
  intros Hup.
  destruct (CreateImage_checked d spec w)
    as [(cause & msg & w' & tr0 & -> & Hf & Hm & _ & _ & Ht & Hwhich)
       |(w2 & -> & _ & _ & Hf & Hm & _ & _ & _ & Ht)];
    cbv zeta in *.
  - cbn [fst snd]. rewrite (events_since_app _ _ _ Ht).
    split; [eauto|]. split; [exact Hf|]. split; [exact Hm|].
    destruct Hwhich as [(_ & _ & _ & ->)|(_ & _ & _ & _ & ->)];
      repeat (constructor; [cbn; intros; congruence|]); constructor.
  - destruct (CreateImage_setup_upper_exists d spec w2)
      as (He & Hfs & Hms & Hno).
    { unfold exists_in. rewrite Hf. exact Hup. }
    split; [exact He|]. split; [congruence|]. split; [congruence|].
    rewrite (events_since_split w w2 _ _ Ht).
    + apply Forall_app. split; [|exact Hno].
      repeat (constructor; [cbn; intros; congruence|]); constructor.
    + destruct (CreateImage_setup_first d spec w2) as (res & tr & Htr).
      eauto.
Qed.

(** X6: [CreateImage] refuses an image path that has its upper directory
    already: it returns an error, none of the [mkdir] calls it makes
    succeeds, the upper, work and rootfs entries of the tree are as they
    were, and nothing is mounted; with a disk limit of zero, when it makes
    no call to the quota control, the whole tree is as it was.  In
    particular, once [CreateImage] has returned no error, calling it again
    with the same specification fails in that way. *)
Theorem CreateImage_not_repeatable
    (d : Driver) (spec : ImageDriverSpec) (w : World) :
  let upper := filepath.Clean (filepath.Join [ImagePath spec; UpperDir]) in
  let work := filepath.Clean (filepath.Join [ImagePath spec; WorkDir]) in
  let rootfs := filepath.Clean (filepath.Join [ImagePath spec; RootfsDir]) in
  (exists_in w (filepath.Join [ImagePath spec; UpperDir]) ->
   let r := CreateImage d spec w in
   (exists e, r.1 = Returns (Some e))
   /\ Forall (fun ev => is_mkdir (ev_call ev) = true -> ev_res ev <> None)
             (events_since w r.2)
   /\ fs r.2 !! upper = fs w !! upper /\ fs r.2 !! work = fs w !! work
   /\ fs r.2 !! rootfs = fs w !! rootfs
   /\ mounts r.2 = mounts w
   /\ (DiskLimit spec = 0%Z -> fs r.2 = fs w))
  /\ ((CreateImage d spec w).1 = Returns None ->
      let w' := (CreateImage d spec w).2 in
      let r := CreateImage d spec w' in
      (exists e, r.1 = Returns (Some e))
      /\ Forall (fun ev => is_mkdir (ev_call ev) = true -> ev_res ev <> None)
                (events_since w' r.2)
      /\ fs r.2 !! upper = fs w' !! upper /\ fs r.2 !! work = fs w' !! work
      /\ fs r.2 !! rootfs = fs w' !! rootfs
      /\ mounts r.2 = mounts w'
      /\ (DiskLimit spec = 0%Z -> fs r.2 = fs w')).
Proof.
  intros upper work rootfs.
  assert (Hgen : forall w0,
             exists_in w0 (filepath.Join [ImagePath spec; UpperDir]) ->
             (exists e, (CreateImage d spec w0).1 = Returns (Some e))
             /\ Forall (fun ev => is_mkdir (ev_call ev) = true ->
                                  ev_res ev <> None)
                       (events_since w0 (CreateImage d spec w0).2)
             /\ fs (CreateImage d spec w0).2 !! upper = fs w0 !! upper
             /\ fs (CreateImage d spec w0).2 !! work = fs w0 !! work
             /\ fs (CreateImage d spec w0).2 !! rootfs = fs w0 !! rootfs
             /\ mounts (CreateImage d spec w0).2 = mounts w0
             /\ (DiskLimit spec = 0%Z -> fs (CreateImage d spec w0).2 = fs w0)).
  { intros w0 Hup.
    destruct (CreateImage_upper_exists d spec w0 Hup) as (He & Hf & Hm & Hno).
    rewrite Hf. auto 10. }
  split; [exact (Hgen w)|].
  intros Hok w' r. apply Hgen.
  destruct (CreateImage_cases d spec w)
    as [(res & _ & _ & _ & Hfs & _)|(cause & msg & Hres & _)];
    cbv zeta in *.
  - unfold exists_in. subst w'. rewrite Hfs.
    exists 448%N. do 2 apply lookup_insert_same. apply lookup_insert_eq.
  - rewrite Hres in Hok. discriminate.
Qed.

Lemma CreateImage_not_repeatable_witness :
  (exists e,
      (CreateImage drv img_spec (CreateImage drv img_spec fresh_store).2).1
      = Returns (Some e))
  /\ fs (CreateImage drv img_spec (CreateImage drv img_spec fresh_store).2).2
     = fs (CreateImage drv img_spec fresh_store).2.
Proof.
  destruct (CreateImage_not_repeatable drv img_spec fresh_store)
    as [_ Htwice].
  destruct Htwice as (He & _ & _ & _ & _ & _ & Hfs);
    [vm_compute; reflexivity|].
  split; [exact He|]. apply Hfs. reflexivity.
Defined.

(** ** The quota outlives a failure *)

(** The operation stopped before any [mkdir], its trace being [H]. *)
Ltac no_mkdir H :=
  rewrite (events_since_app _ _ _ H); intros Hex;
  repeat (apply Exists_cons in Hex; destruct Hex as [Hex|Hex];
          [discriminate Hex|]);
  apply Exists_nil in Hex; contradiction.

Lemma CreateImage_setup_quota_kept
    (d : Driver) (spec : ImageDriverSpec) (w : World) :
  DiskLimit spec <> 0%Z ->
  let r := CreateImage_setup d spec w in
  Exists (fun ev => is_mkdir (ev_call ev) = true) (events_since w r.2) ->
  quotas r.2
  = <[filepath.Clean (ImagePath spec) := uint64 (DiskLimit spec)]> (quotas w).
Proof.
  intros Hne r. subst r. apply Z.eqb_neq in Hne.
  unfold CreateImage_setup, applyDiskLimit, mountData, quota.NewControl,
    quota.SetQuota, os_Mkdir, syscall_Mount, sys, mbind, M_bind,
    mret, M_ret.
  rewrite Hne.
  set (upper := filepath.Join [ImagePath spec; UpperDir]).
  set (work := filepath.Join [ImagePath spec; WorkDir]).
  set (rootfs := filepath.Join [ImagePath spec; RootfsDir]).
  set (data := String.append "lowerdir=" _).
  set (images := filepath.Join [storePath d; ImageDirName]).
  clearbody upper work rootfs data images.
  assert (H : trace w = trace w ++ []) by (symmetry; apply app_nil_r).
  call_step H; [no_mkdir H|].
  call_step H; [no_mkdir H|].
  assert (Hq : quotas w1
               = <[filepath.Clean (ImagePath spec) := uint64 (DiskLimit spec)]>
                   (quotas w)).
  { destruct Hsuccess as (_ & _ & Hq1), Hsuccess0 as (_ & _ & Hq2).
    congruence. }
  call_step H; [|call_step H; [|call_step H; [|call_step H]]];
    intros _;
    repeat match goal with
           | Hx : _ /\ _ |- _ => destruct Hx
           end;
    congruence.
Qed.

(** X7: the quota is not taken back.  With a disk limit other than zero,
    once [CreateImage] has come to its first [mkdir], the quota of the image
    path is the limit (as an unsigned 64-bit number) when [CreateImage]
    returns, whether it returns an error or not. *)
Theorem CreateImage_quota_kept
    (d : Driver) (spec : ImageDriverSpec) (w : World) :
  DiskLimit spec <> 0%Z ->
  let r := CreateImage d spec w in
  Exists (fun ev => is_mkdir (ev_call ev) = true) (events_since w r.2) ->
  quotas r.2
  = <[filepath.Clean (ImagePath spec) := uint64 (DiskLimit spec)]> (quotas w).
Proof.
  intros Hne r. subst r.
  destruct (CreateImage_checked d spec w)
    as [(cause & msg & w' & tr0 & -> & _ & _ & _ & _ & Ht & Hwhich)
       |(w2 & -> & _ & _ & _ & _ & Hq & _ & _ & Ht)];
    cbv zeta in *.
  - cbn [fst snd]. rewrite (events_since_app _ _ _ Ht). intros Hex.
    exfalso.
    destruct Hwhich as [(_ & _ & _ & ->)|(_ & _ & _ & _ & ->)];
      repeat (apply Exists_cons in Hex; destruct Hex as [Hex|Hex];
              [discriminate Hex|]);
      apply Exists_nil in Hex; contradiction.
  - rewrite (events_since_split w w2 _ _ Ht).
    + intros Hex. apply Exists_app in Hex. destruct Hex as [Hex|Hex].
      * exfalso.
        repeat (apply Exists_cons in Hex; destruct Hex as [Hex|Hex];
                [discriminate Hex|]).
        apply Exists_nil in Hex. contradiction.
      * rewrite <- Hq. apply CreateImage_setup_quota_kept; assumption.
    + destruct (CreateImage_setup_first d spec w2) as (res & tr & Htr).
      eauto.
Qed.

Lemma CreateImage_quota_kept_witness :
  (exists e,
      (CreateImage drv (img_spec_limit 4096) store_no_space).1
      = Returns (Some e))
  /\ quotas (CreateImage drv (img_spec_limit 4096) store_no_space).2
       !! "/store/images/img" = Some 4096%Z.
Proof.
  split; [vm_compute; eauto|].
  rewrite (CreateImage_quota_kept drv (img_spec_limit 4096) store_no_space).
  - vm_compute. reflexivity.
  - discriminate.
  - vm_compute. repeat first [apply Exists_cons_hd; reflexivity
                             |apply Exists_cons_tl].
Defined.

(** ** Volumes: create, then look up *)

(** What [CreateVolume] leaves when it returns no error. *)
Lemma CreateVolume_ok
    (d : Driver) (parentID id path : string) (w : World) :
  (CreateVolume d parentID id w).1 = Returns (path, None) ->
  path = filepath.Join [storePath d; VolumesDirName; id]
  /\ fs w !! filepath.Clean path = None
  /\ fs (CreateVolume d parentID id w).2
     = <[filepath.Clean path := 448%N]> (fs w).
Proof.
  unfold CreateVolume, os_Mkdir, sys, mbind, M_bind, mret, M_ret.
  set (volumePath := filepath.Join _). clearbody volumePath.
  pose proof (kernel_mkdir volumePath 448 w) as Hok.
  destruct (kernel (SysMkdir volumePath 448) w) as [[e|] w1]; cbn in *;
    [discriminate|].
  intros [= <-]. destruct (Hok eq_refl) as (Hn & _ & Hfs & _).
  repeat split; assumption.
Qed.

(** X8: a volume that was created is found.  When [CreateVolume] returns a
    path and no error, the lookup of the same id failed before the call and
    returns that same path after it. *)
Theorem CreateVolume_then_VolumePath
    (d : Driver) (parentID id path : string) (w : World) :
  (CreateVolume d parentID id w).1 = Returns (path, None) ->
  (exists err, (VolumePath d id w).1 = Returns ("", Some err))
  /\ (VolumePath d id (CreateVolume d parentID id w).2).1
     = Returns (path, None).
Proof.
  unfold CreateVolume, VolumePath, os_Mkdir, os_Stat, sys, mbind, M_bind,
    mret, M_ret.
  set (volPath := filepath.Join _). clearbody volPath.
  pose proof (kernel_mkdir volPath 448 w) as Hok.
  pose proof (kernel_mkdir_found volPath 448 w) as Hfound.
  destruct (kernel (SysMkdir volPath 448) w) as [[e|] w1]; cbn [fst snd] in *;
    cbn; [discriminate|].
  intros [= <-]. destruct (Hok eq_refl) as (Hn & _).
  specialize (Hfound eq_refl). split.
  - destruct (kernel_stat_missing volPath w Hn) as [e He].
    destruct (kernel (SysStat volPath) w) as [res w2]; cbn [fst snd] in *.
    subst res. cbn. eauto.
  - destruct (kernel (SysStat volPath) w1) as [res w2]; cbn [fst snd] in *.
    subst res. reflexivity.
Qed.

Lemma CreateVolume_then_VolumePath_witness :
  (VolumePath drv "c" (CreateVolume drv "a" "c" fresh_store).2).1
  = Returns ("/store/volumes/c", None).
Proof.
  apply (CreateVolume_then_VolumePath drv "a" "c" "/store/volumes/c"
           fresh_store).
  vm_compute. reflexivity.
Defined.

(** X9: a volume is created once.  When [CreateVolume] has returned no
    error, creating the same id again, under whatever parent id, returns an
    error wrapped as "creating volume" and leaves the tree as it is. *)
Theorem CreateVolume_not_repeatable
    (d : Driver) (parentID parentID' id path : string) (w : World) :
  (CreateVolume d parentID id w).1 = Returns (path, None) ->
  let w' := (CreateVolume d parentID id w).2 in
  let r := CreateVolume d parentID' id w' in
  (exists cause,
      r.1 = Returns ("", Some (withMessage cause "creating volume")))
  /\ fs r.2 = fs w'.
Proof.
  intros Hc w' r. destruct (CreateVolume_ok _ _ _ _ _ Hc) as (-> & Hn & Hfs).
  subst r. fold w' in Hfs. clearbody w'. clear Hc.
  unfold CreateVolume, os_Mkdir, sys, mbind, M_bind, mret, M_ret.
  set (volumePath := filepath.Join _) in *. clearbody volumePath.
  pose proof (kernel_refused (SysMkdir volumePath 448) w') as Hs.
  destruct (kernel_mkdir_exists volumePath 448 w') as [e He].
  { rewrite Hfs, lookup_insert_eq. eauto. }
  destruct (kernel (SysMkdir volumePath 448) w') as [res w1]; cbn in *.
  subst res. cbn. split; [eauto|]. apply (Hs e eq_refl).
Qed.

Lemma CreateVolume_not_repeatable_witness :
  fs (CreateVolume drv "" "c" (CreateVolume drv "a" "c" fresh_store).2).2
  = fs (CreateVolume drv "a" "c" fresh_store).2.
Proof.
  apply (CreateVolume_not_repeatable drv "a" "" "c" "/store/volumes/c"
           fresh_store).
  vm_compute. reflexivity.
Defined.

(** ** [applyDiskLimit]: what it touches *)

(** X10: [applyDiskLimit] goes to the quota control and nowhere else.  It
    always returns (the control it dereferences is never nil).  With a disk
    limit of zero it makes no call; otherwise its calls are an initial run
    of the quota control on the images directory and the setting of the
    quota on the image path: it makes no [mkdir], no removal, no mount and
    no unmount of its own.  It leaves the mount table as it is, and the
    quota of every other path than the image path; when it returns an
    error, that error is wrapped as "creating xfs quota control <images
    path>" or as "setting quota to <image path>" and no quota is changed at
    all. *)
Theorem applyDiskLimit_frame
    (d : Driver) (spec : ImageDriverSpec) (w : World) :
  let images := filepath.Join [storePath d; ImageDirName] in
  let r := applyDiskLimit d spec w in
  let tr := events_since w r.2 in
  (exists err, r.1 = Returns err)
  /\ (ev_call <$> tr)
       `prefix_of` (if (DiskLimit spec =? 0)%Z then []
                    else [ SysQuotaControl images;
                           SysSetQuota images (ImagePath spec)
                                       (uint64 (DiskLimit spec)) ])
  /\ mounts r.2 = mounts w
  /\ (forall k, k <> filepath.Clean (ImagePath spec) ->
                quotas r.2 !! k = quotas w !! k)
  /\ (forall e, r.1 = Returns (Some e) ->
      quotas r.2 = quotas w
      /\ exists cause,
           e = withMessage cause ("creating xfs quota control " +:+ images)
           \/ e = withMessage cause ("setting quota to " +:+ ImagePath spec)).
Proof.
  intros images r tr.
  assert (Hpre : (ev_call <$> tr)
                   `prefix_of` (if (DiskLimit spec =? 0)%Z then []
                                else [ SysQuotaControl images;
                                       SysSetQuota images (ImagePath spec)
                                         (uint64 (DiskLimit spec)) ])).
  { subst tr r. rewrite (proj1 (applyDiskLimit_script d spec w)).
    destruct (run_calls_events (applyDiskLimit_calls d spec) w)
      as (tr & Htr & Hp & _).
    rewrite (events_since_app _ _ _ Htr). exact Hp. }
  clearbody tr. subst r.
  unfold applyDiskLimit, quota.NewControl, quota.SetQuota, sys, mbind,
    M_bind, mret, M_ret.
  fold images. fold images in Hpre. clearbody images.
  destruct (DiskLimit spec =? 0)%Z.
  { split; [eauto|]. split; [exact Hpre|]. do 2 (split; [reflexivity|]).
    intros e He. discriminate He. }
  assert (H : trace w = trace w ++ []) by (symmetry; apply app_nil_r).
  call_step H.
  { destruct Hrefused as (Hf & Hm & Hq).
    split; [eauto|]. split; [exact Hpre|]. split; [exact Hm|].
    split; [intros; congruence|].
    intros e' [= <-]. split; [exact Hq|]. eauto. }
  destruct Hsuccess as (Hf1 & Hm1 & Hq1).
  call_step H.
  - destruct Hrefused as (Hf & Hm & Hq).
    split; [eauto|]. split; [exact Hpre|]. split; [congruence|].
    split; [intros; congruence|].
    intros e' [= <-]. split; [congruence|]. eauto.
  - destruct Hsuccess as (Hf2 & Hm2 & Hq2).
    split; [eauto|]. split; [exact Hpre|]. split; [congruence|].
    split; [|intros e' He'; discriminate He'].
    intros k Hk'. rewrite Hq2, lookup_insert_ne by congruence. congruence.
Qed.

Lemma applyDiskLimit_frame_witness :
  exists cause,
    (applyDiskLimit (NewDriver "/nowhere") (img_spec_limit 4096)
                    fresh_store).1
    = Returns (Some (withMessage cause
                       "creating xfs quota control /nowhere/images"))
    /\ quotas (applyDiskLimit (NewDriver "/nowhere") (img_spec_limit 4096)
                              fresh_store).2 = quotas fresh_store.
Proof.
  destruct (applyDiskLimit_frame (NewDriver "/nowhere") (img_spec_limit 4096)
              fresh_store) as (_ & _ & _ & _ & Herr).
  eexists. split; [vm_compute; reflexivity|].
  eapply Herr. vm_compute. reflexivity.
Defined.

(** ** Create, then destroy *)

Section RoundTrip.

Implicit Types (c : Syscall) (cs : list Syscall) (w : World).

(** The store after a script that ran to its end. *)
Lemma run_calls_success cs w :
  (run_calls cs w).1 = None ->
  fs (run_calls cs w).2 = fold_left (fun f c => fs_after c f) cs (fs w)
  /\ mounts (run_calls cs w).2
     = fold_left (fun m c => mounts_after c m) cs (mounts w)
  /\ quotas (run_calls cs w).2
     = fold_left (fun q c => quotas_after c q) cs (quotas w).
Proof.
  revert w. induction cs as [|c cs IH]; intros w; cbn; [auto|].
  pose proof (kernel_success c w) as Hs.
  destruct (kernel c w) as [[e|] w1]; cbn in *; [discriminate|].
  intros Hok. destruct (Hs eq_refl) as (<- & <- & <-). apply IH. exact Hok.
Qed.

(** The calls of a script that ran to its end all succeeded, each in the
    world the calls before it left. *)
Lemma run_calls_success_cons c cs w :
  (run_calls (c :: cs) w).1 = None ->
  (kernel c w).1 = None /\ (run_calls cs (kernel c w).2).1 = None
  /\ (run_calls (c :: cs) w).2 = (run_calls cs (kernel c w).2).2.
Proof.
  cbn. destruct (kernel c w) as [[e|] w1]; cbn; [discriminate|]. auto.
Qed.

Lemma below_empty_lookup (dir k : string) (f : gmap string N) :
  below dir f = ∅ -> under dir k = true -> f !! k = None.
Proof.
  intros He Hu. destruct (f !! k) as [x|] eqn:E; [|reflexivity].
  assert (Hin : below dir f !! k = Some x).
  { unfold below. apply map_lookup_filter_Some. split; [exact E|].
    cbn. rewrite Hu. exact I. }
  rewrite He, lookup_empty in Hin. discriminate.
Qed.

Lemma within_cases (dir k : string) :
  within dir k = true -> k = dir \/ under dir k = true.
Proof.
  unfold within. destruct (String.eqb_spec k dir) as [->|]; cbn; auto.
Qed.

End RoundTrip.

(** A script in two parts. *)
Lemma run_calls_app (pre post : list Syscall) (w : World) :
  (run_calls (pre ++ post) w).1 = None ->
  (run_calls pre w).1 = None
  /\ (run_calls post (run_calls pre w).2).1 = None
  /\ (run_calls (pre ++ post) w).2 = (run_calls post (run_calls pre w).2).2.
Proof.
  revert w. induction pre as [|c pre IH]; intros w; cbn; [auto|].
  destruct (kernel c w) as [[e|] w1]; cbn; [discriminate|]. apply IH.
Qed.

(** The calls of [applyDiskLimit] leave the tree and the mount table as
    they are. *)
Lemma applyDiskLimit_calls_same
    (d : Driver) (spec : ImageDriverSpec) (w : World) :
  let pre := applyDiskLimit_calls d spec in
  fs (run_calls pre w).2 = fs w /\ mounts (run_calls pre w).2 = mounts w.
Proof.
  intros pre. split.
  - apply (anti_symm (⊆)).
    + apply run_calls_fs_shrinks. subst pre. unfold applyDiskLimit_calls.
      destruct (DiskLimit spec =? 0)%Z; repeat constructor.
    + apply run_calls_fs_grows. subst pre. unfold applyDiskLimit_calls.
      destruct (DiskLimit spec =? 0)%Z; repeat constructor.
  - apply run_calls_mounts_same. subst pre. unfold applyDiskLimit_calls.
    destruct (DiskLimit spec =? 0)%Z; repeat constructor.
Qed.

(** When the setup of [CreateImage] returns no error, the three directories
    it made were not in the tree before, and are three different
    entries. *)
Lemma CreateImage_setup_success_fresh
    (d : Driver) (spec : ImageDriverSpec) (w : World) :
  let upper := filepath.Clean (filepath.Join [ImagePath spec; UpperDir]) in
  let work := filepath.Clean (filepath.Join [ImagePath spec; WorkDir]) in
  let rootfs := filepath.Clean (filepath.Join [ImagePath spec; RootfsDir]) in
  (CreateImage_setup d spec w).1 = Returns None ->
  (fs w !! upper = None /\ fs w !! work = None /\ fs w !! rootfs = None)
  /\ (upper <> work /\ upper <> rootfs /\ work <> rootfs)
  /\ fs (CreateImage_setup d spec w).2
     = <[rootfs := 448%N]> (<[work := 448%N]> (<[upper := 448%N]> (fs w)))
  /\ mounts (CreateImage_setup d spec w).2
     = Mnt "overlay" rootfs "overlay" 0 (mountData spec) :: mounts w.
Proof.
  intros upper work rootfs Hok.
  destruct (CreateImage_setup_script d spec w) as (Hw & err & Herr & Hnil).
  rewrite Herr in Hok. injection Hok as ->.
  pose proof (proj1 Hnil eq_refl) as Hrun. rewrite Hw. clear Hw Herr Hnil.
  unfold CreateImage_setup_calls in *.
  destruct (applyDiskLimit_calls_same d spec w) as [Hf0 Hm0]; cbv zeta in *.
  destruct (run_calls_app _ _ _ Hrun) as (_ & Hpost & ->).
  set (w0 := (run_calls _ w).2) in *. clearbody w0. clear Hrun.
  rewrite <- Hf0, <- Hm0. clear Hf0 Hm0.
  set (nu := filepath.Join [ImagePath spec; UpperDir]) in *.
  set (nw := filepath.Join [ImagePath spec; WorkDir]) in *.
  set (nr := filepath.Join [ImagePath spec; RootfsDir]) in *.
  destruct (run_calls_success_cons _ _ _ Hpost) as (Hk1 & Hpost1 & ->).
  destruct (kernel_mkdir nu 448 w0 Hk1) as (Hn1 & _ & Hf1 & Hm1 & _).
  set (w1 := (kernel (SysMkdir nu 448) w0).2) in *. clearbody w1.
  destruct (run_calls_success_cons _ _ _ Hpost1) as (Hk2 & Hpost2 & ->).
  destruct (kernel_mkdir nw 448 w1 Hk2) as (Hn2 & _ & Hf2 & Hm2 & _).
  set (w2 := (kernel (SysMkdir nw 448) w1).2) in *. clearbody w2.
  destruct (run_calls_success_cons _ _ _ Hpost2) as (Hk3 & Hpost3 & ->).
  destruct (kernel_mkdir nr 448 w2 Hk3) as (Hn3 & _ & Hf3 & Hm3 & _).
  set (w3 := (kernel (SysMkdir nr 448) w2).2) in *. clearbody w3.
  destruct (run_calls_success_cons _ _ _ Hpost3) as (Hk4 & _ & ->).
  destruct (kernel_success _ w3 Hk4) as (Hf4 & Hm4 & _).
  cbn [run_calls snd fs_after mounts_after] in *.
  rewrite Hf1 in Hn2. apply lookup_insert_None in Hn2.
  destruct Hn2 as [Hn2 Hne12].
  rewrite Hf2, Hf1 in Hn3. apply lookup_insert_None in Hn3.
  destruct Hn3 as [Hn3 Hne23]. apply lookup_insert_None in Hn3.
  destruct Hn3 as [Hn3 Hne13].
  repeat split; try assumption; try congruence.
  - rewrite Hf4, Hf3, Hf2, Hf1. reflexivity.
  - rewrite Hm4, Hm3, Hm2, Hm1. reflexivity.
Qed.

(** The same of [CreateImage]; the oracles are as they were. *)
Lemma CreateImage_success_fresh
    (d : Driver) (spec : ImageDriverSpec) (w : World) :
  let upper := filepath.Clean (filepath.Join [ImagePath spec; UpperDir]) in
  let work := filepath.Clean (filepath.Join [ImagePath spec; WorkDir]) in
  let rootfs := filepath.Clean (filepath.Join [ImagePath spec; RootfsDir]) in
  (CreateImage d spec w).1 = Returns None ->
  (fs w !! upper = None /\ fs w !! work = None /\ fs w !! rootfs = None)
  /\ (upper <> work /\ upper <> rootfs /\ work <> rootfs)
  /\ fs (CreateImage d spec w).2
     = <[rootfs := 448%N]> (<[work := 448%N]> (<[upper := 448%N]> (fs w)))
  /\ mounts (CreateImage d spec w).2
     = Mnt "overlay" rootfs "overlay" 0 (mountData spec) :: mounts w.
Proof.
  intros upper work rootfs.
  destruct (CreateImage_checked d spec w)
    as [(cause & msg & w' & tr0 & -> & _)
       |(w2 & -> & _ & _ & Hf & Hm & _)];
    cbv zeta in *; [discriminate|].
  intros Hok.
  destruct (CreateImage_setup_success_fresh d spec w2 Hok) as (A & B & C & D);
    cbv zeta in *.
  rewrite Hf in A, C. rewrite Hm in D. auto.
Qed.

(** A script leaves the fault oracle as it is, and so does
    [CreateImage]. *)
Lemma run_calls_faults (cs : list Syscall) (w : World) :
  faults (run_calls cs w).2 = faults w.
Proof.
  revert w. induction cs as [|c cs IH]; intros w; cbn; [reflexivity|].
  pose proof (kernel_faults c w) as Hf.
  destruct (kernel c w) as [[e|] w1]; cbn in *; [exact Hf|].
  rewrite IH. exact Hf.
Qed.

Lemma CreateImage_faults (d : Driver) (spec : ImageDriverSpec) (w : World) :
  faults (CreateImage d spec w).2 = faults w.
Proof.
  destruct (CreateImage_checked d spec w)
    as [(cause & msg & w' & tr0 & -> & _ & _ & _ & Hfa & _)
       |(w2 & -> & _ & _ & _ & _ & _ & Hfa & _)];
    cbv zeta in *; [exact Hfa|].
  rewrite (proj1 (CreateImage_setup_script d spec w2)), run_calls_faults.
  exact Hfa.
Qed.

(** X11: create, then destroy.  When [CreateImage] returns no error and
    [DestroyImage] on the image path then returns no error, the mount table
    is what it was before the image was made, the upper, work and rootfs
    directories are gone again, and the quotas are those [CreateImage]
    left: the quota on the image path is not taken back.  With a disk limit
    of zero, when [CreateImage] leaves the quota control alone, the whole
    store is as before: the quotas, and the tree too, provided nothing was
    below the work and upper directories then. *)
Theorem CreateImage_then_DestroyImage
    (d : Driver) (spec : ImageDriverSpec) (w : World) :
  let upper := filepath.Clean (filepath.Join [ImagePath spec; UpperDir]) in
  let work := filepath.Clean (filepath.Join [ImagePath spec; WorkDir]) in
  let rootfs := filepath.Clean (filepath.Join [ImagePath spec; RootfsDir]) in
  let w1 := (CreateImage d spec w).2 in
  let w2 := (DestroyImage d (ImagePath spec) w1).2 in
  (CreateImage d spec w).1 = Returns None ->
  (DestroyImage d (ImagePath spec) w1).1 = Returns None ->
  mounts w2 = mounts w /\ quotas w2 = quotas w1
  /\ fs w2 !! upper = None /\ fs w2 !! work = None /\ fs w2 !! rootfs = None
  /\ (DiskLimit spec = 0%Z ->
      quotas w2 = quotas w
      /\ (below upper (fs w) = ∅ -> below work (fs w) = ∅ -> fs w2 = fs w)).
Proof.
  intros upper work rootfs w1 w2 Hc Hd.
  destruct (CreateImage_success_fresh d spec w Hc)
    as ((Hnu & Hnw & Hnr) & (Huw & Hur & Hwr) & Hf1 & Hm1).
  fold upper work rootfs w1 in Hnu, Hnw, Hnr, Huw, Hur, Hwr, Hf1, Hm1.
  assert (Hq1 : DiskLimit spec = 0%Z -> quotas w1 = quotas w).
  { intros Hz.
    destruct (CreateImage_cases d spec w)
      as [(res & _ & _ & _ & _ & Hq & _)|(cause & msg & Hres & _)];
      cbv zeta in *.
    - fold w1 in Hq. rewrite Hz in Hq. exact Hq.
    - rewrite Hres in Hc. discriminate. }
  destruct (DestroyImage_script d (ImagePath spec) w1)
    as (Hw & err & Herr & Hnil).
  rewrite Herr in Hd. injection Hd as ->.
  pose proof (proj1 Hnil eq_refl) as Hrun.
  destruct (run_calls_success _ _ Hrun) as (Hf2 & Hm2 & Hq2).
  subst w2. rewrite Hw, Hf2, Hm2, Hq2. clear Hw Hf2 Hm2 Hq2 Hrun Hnil Herr.
  cbn [DestroyImage_calls fold_left fs_after mounts_after quotas_after].
  fold rootfs upper work. rewrite Hf1, Hm1. clear Hf1 Hm1.
  split; [cbn; rewrite String.eqb_refl; reflexivity|].
  split; [reflexivity|].
  split; [apply outside_lookup_within, within_refl|].
  split.
  { destruct (within upper work) eqn:Hin.
    - apply outside_lookup_within. exact Hin.
    - rewrite outside_lookup_other by exact Hin.
      apply outside_lookup_within, within_refl. }
  split; [do 2 apply outside_lookup_gone; apply lookup_delete_eq|].
  intros Hz. split; [exact (Hq1 Hz)|]. intros Heu Hew.
  apply map_eq. intros k.
  destruct (within upper k) eqn:Hku.
  { rewrite outside_lookup_within by exact Hku. symmetry.
    destruct (within_cases _ _ Hku) as [->|Hu]; [exact Hnu|].
    exact (below_empty_lookup _ _ _ Heu Hu). }
  rewrite outside_lookup_other by exact Hku.
  destruct (within work k) eqn:Hkw.
  { rewrite outside_lookup_within by exact Hkw. symmetry.
    destruct (within_cases _ _ Hkw) as [->|Hu]; [exact Hnw|].
    exact (below_empty_lookup _ _ _ Hew Hu). }
  rewrite outside_lookup_other by exact Hkw.
  destruct (decide (k = rootfs)) as [->|Hkr].
  { rewrite lookup_delete_eq. symmetry. exact Hnr. }
  rewrite lookup_delete_ne by congruence.
  assert (k <> upper) by (intros ->; rewrite within_refl in Hku; discriminate).
  assert (k <> work) by (intros ->; rewrite within_refl in Hkw; discriminate).
  rewrite !lookup_insert_ne by congruence. reflexivity.
Qed.

Lemma CreateImage_then_DestroyImage_witness :
  fs (DestroyImage drv "/store/images/img"
        (CreateImage drv img_spec fresh_store).2).2
  = fs fresh_store
  /\ mounts (DestroyImage drv "/store/images/img"
               (CreateImage drv (img_spec_limit 4096) fresh_store).2).2 = []
  /\ quotas (DestroyImage drv "/store/images/img"
               (CreateImage drv (img_spec_limit 4096) fresh_store).2).2
       !! "/store/images/img" = Some 4096%Z.
Proof.
  destruct (CreateImage_then_DestroyImage drv img_spec fresh_store)
    as (_ & _ & _ & _ & _ & Hzero);
    try (vm_compute; reflexivity).
  destruct (CreateImage_then_DestroyImage drv (img_spec_limit 4096)
              fresh_store) as (Hm & Hq & _);
    try (vm_compute; reflexivity).
  split; [apply Hzero; vm_compute; reflexivity|].
  split; [exact Hm|]. cbn [ImagePath img_spec_limit] in Hq. rewrite Hq.
  vm_compute. reflexivity.
Defined.

(** * The fake unmounter *)

Section FakeUnmounter.

Import overlayxfsfakes.

Context {Logger : Type}.

Implicit Types (fake : FakeUnmounter Logger) (l : Logger) (p : string).

(** [Invocations] copies the map entry by entry. *)
Lemma Invocations_copy fake :
  Invocations fake = match invocations fake with
                     | None => ∅
                     | Some m => m
                     end.
Proof.
  unfold Invocations. destruct (invocations fake) as [m|]; [|reflexivity].
  apply (map_fold_weak_ind (fun r m => r = m)); [reflexivity|].
  intros i x m' r _ ->. reflexivity.
Qed.

Lemma recorded_recordInvocation fake (args : list (Arg Logger)) :
  recorded (recordInvocation "Unmount" args fake) = recorded fake ++ [args].
Proof.
  unfold recorded. rewrite !Invocations_copy. unfold recordInvocation; cbn.
  destruct (invocations fake) as [m|]; cbn.
  - destruct (m !! "Unmount") as [calls|] eqn:E; cbn.
    + rewrite E, lookup_insert_eq. reflexivity.
    + rewrite !lookup_insert_eq. reflexivity.
  - rewrite lookup_empty, !lookup_insert_eq. reflexivity.
Qed.

(** X12: [Unmount] records its arguments by position.  After a call the
    count is one more, [UnmountArgsForCall] at the old count returns the
    arguments of this call, what it returned for earlier positions it still
    returns, and the stub and the results that were set are unchanged.
    [UnmountArgsForCall] returns exactly for the positions from zero up to
    the count, and panics for any other. *)
Theorem Unmount_records fake l p :
  let fake' := (Unmount l p fake).2 in
  UnmountCallCount fake' = (UnmountCallCount fake + 1)%Z
  /\ UnmountArgsForCall (UnmountCallCount fake) fake' = Returns (l, p)
  /\ (forall i call, UnmountArgsForCall i fake = Returns call ->
                     UnmountArgsForCall i fake' = Returns call)
  /\ (forall i, (0 <= i < UnmountCallCount fake)%Z
                <-> exists call, UnmountArgsForCall i fake = Returns call)
  /\ (forall i, ~ (0 <= i < UnmountCallCount fake)%Z ->
                UnmountArgsForCall i fake = Panics "index out of range")
  /\ UnmountStub fake' = UnmountStub fake
  /\ unmountReturns fake' = unmountReturns fake
  /\ unmountReturnsOnCall fake' = unmountReturnsOnCall fake.
Proof.
  intros fake'.
  assert (Hargs : unmountArgsForCall fake'
                  = unmountArgsForCall fake ++ [(l, p)]).
  { subst fake'. unfold Unmount.
    destruct (UnmountStub _); [reflexivity|].
    destruct (returnOnCall _ _); reflexivity. }
  assert (Hset : UnmountStub fake' = UnmountStub fake
                 /\ unmountReturns fake' = unmountReturns fake
                 /\ unmountReturnsOnCall fake' = unmountReturnsOnCall fake).
  { subst fake'. unfold Unmount.
    destruct (UnmountStub fake) eqn:E; cbn; rewrite ?E; cbn; [auto|].
    destruct (returnOnCall _ _); cbn; auto. }
  unfold UnmountCallCount, UnmountArgsForCall. rewrite Hargs.
  split; [rewrite length_app; cbn; lia|].
  split.
  { destruct (Z.ltb_spec (Z.of_nat (length (unmountArgsForCall fake))) 0);
      [lia|].
    rewrite Nat2Z.id, lookup_app_r, Nat.sub_diag by lia. reflexivity. }
  split.
  { intros i call. destruct (i <? 0)%Z; [discriminate|].
    destruct (unmountArgsForCall fake !! Z.to_nat i) as [a|] eqn:E;
      [|discriminate].
    rewrite (lookup_app_l_Some _ _ _ _ E). auto. }
  split.
  { intros i. destruct (Z.ltb_spec i 0).
    - split; [lia|]. intros [call Hc]. discriminate.
    - destruct (unmountArgsForCall fake !! Z.to_nat i) as [a|] eqn:E.
      + split; [eauto|]. intros _. apply lookup_lt_Some in E. lia.
      + split; [|intros [call Hc]; discriminate].
        intros Hi. apply lookup_ge_None in E. lia. }
  split; [|exact Hset].
  intros i Hi. destruct (Z.ltb_spec i 0); [reflexivity|].
  destruct (unmountArgsForCall fake !! Z.to_nat i) as [a|] eqn:E;
    [|reflexivity].
  apply lookup_lt_Some in E. lia.
Qed.

(** A run of calls adds its calls to the record and leaves the settings
    alone. *)
Lemma Unmounts_settings (calls : list (Logger * string)) fake :
  unmountArgsForCall (Unmounts calls fake) = unmountArgsForCall fake ++ calls
  /\ UnmountStub (Unmounts calls fake) = UnmountStub fake
  /\ unmountReturns (Unmounts calls fake) = unmountReturns fake
  /\ unmountReturnsOnCall (Unmounts calls fake) = unmountReturnsOnCall fake.
Proof.
  revert fake. induction calls as [|[l p] calls IH]; intros fake.
  - cbn. rewrite app_nil_r. auto.
  - change (Unmounts ((l, p) :: calls) fake)
      with (Unmounts calls (Unmount l p fake).2).
    destruct (IH (Unmount l p fake).2) as (Ha & Hs & Hr & Ho).
    assert (Hone : unmountArgsForCall (Unmount l p fake).2
                   = unmountArgsForCall fake ++ [(l, p)]
                   /\ UnmountStub (Unmount l p fake).2 = UnmountStub fake
                   /\ unmountReturns (Unmount l p fake).2
                      = unmountReturns fake
                   /\ unmountReturnsOnCall (Unmount l p fake).2
                      = unmountReturnsOnCall fake).
    { unfold Unmount.
      destruct (UnmountStub fake) eqn:E; cbn; rewrite ?E; cbn; [auto|].
      destruct (returnOnCall _ _); cbn; auto. }
    destruct Hone as (Ha1 & Hs1 & Hr1 & Ho1).
    rewrite Ha, Hs, Hr, Ho, Ha1, Hs1, Hr1, Ho1, <- app_assoc. auto.
Qed.

(** What [Unmount] answers, from the settings and the count. *)
Lemma Unmount_answer fake l p :
  (Unmount l p fake).1
  = match UnmountStub fake with
    | Some stub => stub l p
    | None =>
        match returnOnCall fake (UnmountCallCount fake) with
        | Some ret => ret
        | None => unmountReturns fake
        end
    end.
Proof.
  unfold Unmount, UnmountCallCount. cbn.
  destruct (UnmountStub fake); [reflexivity|].
  destruct (returnOnCall _ _); reflexivity.
Qed.

(** X13: a stub answers every call.  Once [UnmountCalls] has installed a
    stub, every [Unmount], after any number of other calls, returns what
    the stub returns on its arguments, whatever results were set before. *)
Theorem UnmountCalls_stub_answers
    fake (stub : Logger -> string -> option error)
    (calls : list (Logger * string)) l p :
  (Unmount l p (Unmounts calls (UnmountCalls (Some stub) fake))).1
  = stub l p.
Proof.
  rewrite Unmount_answer.
  destruct (Unmounts_settings calls (UnmountCalls (Some stub) fake))
    as (_ & -> & _). reflexivity.
Qed.

(** X14: [UnmountReturns] sets the answer of every call and removes the
    stub.  After [UnmountReturns], also when a stub had been installed, an
    [Unmount] that follows any number of other calls returns the result
    that was set, unless a result was set for that very call. *)
Theorem UnmountReturns_answers
    fake (stub : option (Logger -> string -> option error))
    (result1 : option error) (calls : list (Logger * string)) l p :
  let fake' := Unmounts calls (UnmountReturns result1 (UnmountCalls stub fake)) in
  returnOnCall fake (UnmountCallCount fake') = None ->
  (Unmount l p fake').1 = result1.
Proof.
  intros fake' Hnone. rewrite Unmount_answer. subst fake'.
  destruct (Unmounts_settings calls
              (UnmountReturns result1 (UnmountCalls stub fake)))
    as (_ & Hs & Hr & Ho).
  rewrite Hs, Hr. cbn.
  unfold returnOnCall in *. rewrite Ho. cbn. rewrite Hnone. reflexivity.
Qed.

(** X15: [UnmountReturnsOnCall] sets the answer of one call and removes
    the stub.  After [UnmountReturnsOnCall] for the position that is [n]
    calls ahead, also when a stub had been installed, the [Unmount] that
    follows [n] other calls returns the result that was set. *)
Theorem UnmountReturnsOnCall_answers
    fake (stub : option (Logger -> string -> option error))
    (result1 : option error) (calls : list (Logger * string)) l p :
  let i := (UnmountCallCount fake + Z.of_nat (length calls))%Z in
  let fake' :=
    Unmounts calls (UnmountReturnsOnCall i result1 (UnmountCalls stub fake)) in
  (Unmount l p fake').1 = result1.
Proof.
  intros i fake'. rewrite Unmount_answer. subst fake'.
  destruct (Unmounts_settings calls
              (UnmountReturnsOnCall i result1 (UnmountCalls stub fake)))
    as (Ha & Hs & _ & Ho).
  rewrite Hs. cbn.
  unfold returnOnCall, UnmountCallCount. rewrite Ho, Ha. cbn.
  rewrite length_app, Nat2Z.inj_add.
  fold (UnmountCallCount fake). fold i.
  rewrite lookup_insert_eq. reflexivity.
Qed.

(** X16: the record of invocations agrees with the record of arguments.
    This holds of a new fake and every method keeps it, so that it holds
    whatever the fake went through: [Invocations] lists under "Unmount"
    the arguments of the calls, one entry for each, in the order of the
    calls. *)
Theorem invocations_consistent :
  consistent (@new Logger)
  /\ (forall fake, consistent fake ->
      (forall l p, consistent (Unmount l p fake).2)
      /\ (forall stub, consistent (UnmountCalls stub fake))
      /\ (forall result1, consistent (UnmountReturns result1 fake))
      /\ (forall i result1, consistent (UnmountReturnsOnCall i result1 fake)))
  /\ (forall calls : list (Logger * string),
         recorded (Unmounts calls new)
         = (fun call => [ArgLogger call.1; ArgString call.2]) <$> calls).
Proof.
  assert (Hstep : forall fake l p,
             consistent fake -> consistent (Unmount l p fake).2).
  { intros fake l p Hc. unfold consistent in *.
    assert (Hrec : recorded (Unmount l p fake).2
                   = recorded fake ++ [[ArgLogger l; ArgString p]]).
    { unfold Unmount.
      destruct (UnmountStub _);
        [|destruct (returnOnCall _ _)]; cbn [snd];
        rewrite recorded_recordInvocation; reflexivity. }
    rewrite Hrec, Hc.
    destruct (Unmounts_settings [(l, p)] fake) as (Ha & _).
    cbn in Ha. rewrite Ha, fmap_app. reflexivity. }
  split; [reflexivity|]. split.
  - intros fake Hc. split; [intros l p; apply Hstep; exact Hc|].
    repeat split; intros; exact Hc.
  - intros calls.
    assert (Hall : forall fake, consistent fake ->
                                consistent (Unmounts calls fake)).
    { induction calls as [|[l p] calls IH]; intros fake Hc; [exact Hc|].
      apply (IH (Unmount l p fake).2). apply Hstep. exact Hc. }
    specialize (Hall new eq_refl). unfold consistent in Hall.
    rewrite Hall. destruct (Unmounts_settings calls (@new Logger)) as (-> & _).
    reflexivity.
Qed.

End FakeUnmounter.

Lemma UnmountReturns_answers_witness :
  (overlayxfsfakes.Unmount "log" "/store/images/img/rootfs"
     (overlayxfsfakes.Unmounts [("log", "/a"); ("log", "/b")]
        (overlayxfsfakes.UnmountReturns (Some (SyscallErrno EBUSY))
           (overlayxfsfakes.UnmountCalls (Some (fun _ _ => None))
              overlayxfsfakes.new)))).1
  = Some (SyscallErrno EBUSY).
Proof.
  apply (UnmountReturns_answers (Logger := string)). reflexivity.
Defined.

(** * Paths, in general *)

Section PathShape.

Import pathshape.

Implicit Types (s t p c name : string) (out comps : list string).

Lemma string_app_assoc s t (u : string) :
  (s +:+ t) +:+ u = s +:+ t +:+ u.
Proof.
  induction s as [|a s IH]; [reflexivity|].
  change (String a ((s +:+ t) +:+ u) = String a (s +:+ t +:+ u)).
  f_equal. exact IH.
Qed.

Lemma string_app_nil_r s : s +:+ "" = s.
Proof.
  induction s as [|a s IH]; [reflexivity|].
  change (String a (s +:+ "") = String a s). f_equal. exact IH.
Qed.

Lemma Split_nonempty s : Strings.Split s <> [].
Proof.
  destruct s as [|a s]; cbn; [discriminate|].
  destruct (Ascii.eqb a "/"); [discriminate|].
  destruct (Strings.Split s); discriminate.
Qed.

(** Splitting at a separator splits the two sides. *)
Lemma Split_app_slash s t :
  Strings.Split (s +:+ "/" +:+ t) = Strings.Split s ++ Strings.Split t.
Proof.
  induction s as [|a s IH].
  - reflexivity.
  - change (String a s +:+ "/" +:+ t) with (String a (s +:+ "/" +:+ t)).
    cbn [Strings.Split]. rewrite IH.
    destruct (Ascii.eqb a "/"); [reflexivity|].
    pose proof (Split_nonempty s) as Hne.
    destruct (Strings.Split s) as [|h tl]; [congruence|]. reflexivity.
Qed.

Lemma Split_no_slash s : no_slash s = true -> Strings.Split s = [s].
Proof.
  induction s as [|a s IH]; [reflexivity|]. cbn.
  destruct (Ascii.eqb a "/"); [discriminate|]. cbn.
  intros H. rewrite (IH H). reflexivity.
Qed.

Lemma Split_parts s : Forall (fun c => no_slash c = true) (Strings.Split s).
Proof.
  induction s as [|a s IH]; cbn; [repeat constructor|].
  destruct (Ascii.eqb a "/") eqn:E; [constructor; [reflexivity|exact IH]|].
  pose proof (Split_nonempty s) as Hne.
  destruct (Strings.Split s) as [|h tl]; [congruence|].
  inversion IH as [|? ? Hh Htl]; subst.
  constructor; [|exact Htl]. cbn. rewrite E, Hh. reflexivity.
Qed.

(** Joining with separators, then splitting, gives the parts back. *)
Lemma Split_Join comps :
  comps <> [] -> Forall (fun c => no_slash c = true) comps ->
  Strings.Split (Strings.Join comps "/") = comps.
Proof.
  induction comps as [|c [|c' rest] IH]; intros Hne Hall; [congruence| |].
  - inversion Hall; subst. apply Split_no_slash. assumption.
  - inversion Hall as [|? ? Hc Hrest]; subst.
    change (Strings.Join (c :: c' :: rest) "/")
      with (c +:+ "/" +:+ Strings.Join (c' :: rest) "/").
    rewrite Split_app_slash, (Split_no_slash c Hc), IH by (auto; discriminate).
    reflexivity.
Qed.

Lemma Join_snoc comps c :
  comps <> [] ->
  Strings.Join (comps ++ [c]) "/" = Strings.Join comps "/" +:+ "/" +:+ c.
Proof.
  induction comps as [|a [|b rest] IH]; intros Hne; [congruence|reflexivity|].
  change (Strings.Join ((a :: b :: rest) ++ [c]) "/")
    with (a +:+ "/" +:+ Strings.Join ((b :: rest) ++ [c]) "/").
  rewrite IH by discriminate.
  change (Strings.Join (a :: b :: rest) "/")
    with (a +:+ "/" +:+ Strings.Join (b :: rest) "/").
  rewrite !string_app_assoc. reflexivity.
Qed.

Lemma plain_spec c :
  plain c = true ->
  c <> "" /\ c <> "." /\ c <> ".." /\ no_slash c = true.
Proof.
  unfold plain. rewrite !andb_true_iff, !negb_true_iff, !String.eqb_neq.
  tauto.
Qed.

(** A plain name is kept as it is. *)
Lemma clean_step_plain rooted out c :
  plain c = true -> filepath.clean_step rooted out c = c :: out.
Proof.
  intros H. destruct (plain_spec c H) as (H1 & H2 & H3 & _).
  unfold filepath.clean_step.
  apply String.eqb_neq in H1, H2, H3. rewrite H1, H2, H3. reflexivity.
Qed.

Lemma wf_dotdots out :
  Forall (fun c' => c' = "..") out -> wf false out.
Proof.
  induction 1 as [|c rest Hc Hrest IH]; cbn; [exact I|]. right. auto.
Qed.

Lemma wf_tail rooted c rest : wf rooted (c :: rest) -> wf rooted rest.
Proof.
  cbn. intros [[_ H]|(_ & -> & H)]; [exact H|]. apply wf_dotdots. exact H.
Qed.

(** Each step of [Clean] keeps the stack in shape. *)
Lemma clean_step_wf rooted out c :
  no_slash c = true -> wf rooted out ->
  wf rooted (filepath.clean_step rooted out c).
Proof.
  intros Hc Hout. unfold filepath.clean_step.
  destruct (String.eqb_spec c "") as [->|H1]; [exact Hout|].
  destruct (String.eqb_spec c ".") as [->|H2]; [exact Hout|].
  destruct (String.eqb_spec c "..") as [->|H3].
  - destruct out as [|top rest].
    + destruct rooted; cbn; [exact I|]. right. auto.
    + destruct (String.eqb_spec top "..") as [->|Ht].
      * cbn in Hout. destruct Hout as [[Hp _]|(_ & Hr & Hall)];
          [discriminate Hp|].
        cbn. right. repeat split; auto.
      * exact (wf_tail _ _ _ Hout).
  - cbn. left. split; [|exact Hout]. unfold plain.
    apply String.eqb_neq in H1, H2, H3. rewrite H1, H2, H3, Hc. reflexivity.
Qed.

Lemma fold_clean_wf rooted comps out :
  Forall (fun c => no_slash c = true) comps -> wf rooted out ->
  wf rooted (fold_left (filepath.clean_step rooted) comps out).
Proof.
  intros H. revert out. induction H as [|c comps Hc _ IH]; intros out Hout.
  - exact Hout.
  - cbn. apply IH. apply clean_step_wf; assumption.
Qed.

Lemma stack_wf p : wf (filepath.is_rooted p) (stack p).
Proof. apply fold_clean_wf; [apply Split_parts|exact I]. Qed.

(** The components of a stack in shape have no separator and are not
    empty. *)
Lemma wf_parts rooted out :
  wf rooted out -> Forall (fun c => no_slash c = true /\ c <> "") out.
Proof.
  induction out as [|c rest IH]; [constructor|]. intros H.
  constructor; [|apply IH; exact (wf_tail _ _ _ H)].
  cbn in H. destruct H as [[Hp _]|(-> & _)].
  - destruct (plain_spec c Hp) as (? & _ & _ & ?). auto.
  - split; [reflexivity|discriminate].
Qed.

(** Going through the components of a stack in shape builds that stack. *)
Lemma replay rooted out :
  wf rooted out -> fold_left (filepath.clean_step rooted) (rev out) [] = out.
Proof.
  induction out as [|c rest IH]; [reflexivity|]. intros H.
  cbn [rev]. rewrite fold_left_app, (IH (wf_tail _ _ _ H)). cbn.
  cbn in H. destruct H as [[Hp _]|(-> & -> & Hall)].
  - apply clean_step_plain. exact Hp.
  - destruct rest as [|top rest']; [reflexivity|].
    inversion Hall; subst. reflexivity.
Qed.

Lemma Clean_render p :
  filepath.Clean p = render (filepath.is_rooted p) (rev (stack p)).
Proof.
  unfold filepath.Clean. destruct (String.eqb_spec p "") as [->|Hne];
    reflexivity.
Qed.

Lemma no_slash_not_rooted c :
  no_slash c = true -> filepath.is_rooted c = false.
Proof.
  destruct c as [|a c]; [reflexivity|]. cbn.
  destruct (Ascii.eqb a "/"); [discriminate|reflexivity].
Qed.

Lemma is_rooted_app s t :
  s <> "" -> filepath.is_rooted (s +:+ t) = filepath.is_rooted s.
Proof. destruct s; [congruence|reflexivity]. Qed.

Lemma app_not_empty s t : s <> "" -> s +:+ t <> "".
Proof. destruct s; [congruence|discriminate]. Qed.

(** The join of components that are not empty starts as the first one
    does. *)
Lemma Join_head c comps :
  c <> "" ->
  Strings.Join (c :: comps) "/" <> ""
  /\ filepath.is_rooted (Strings.Join (c :: comps) "/")
     = filepath.is_rooted c.
Proof.
  intros Hc. destruct comps as [|c' rest]; [auto|].
  change (Strings.Join (c :: c' :: rest) "/")
    with (c +:+ "/" +:+ Strings.Join (c' :: rest) "/").
  split; [apply app_not_empty; exact Hc|apply is_rooted_app; exact Hc].
Qed.

(** The path of a stack in shape is clean: [Clean] finds the same root and
    the same stack in it. *)
Lemma render_shape rooted out :
  wf rooted out ->
  filepath.is_rooted (render rooted (rev out)) = rooted
  /\ stack (render rooted (rev out)) = out.
Proof.
  intros Hwf. pose proof (wf_parts _ _ Hwf) as Hparts.
  assert (Hns : Forall (fun c => no_slash c = true) (rev out)).
  { apply Forall_rev. eapply Forall_impl; [exact Hparts|]. cbn. tauto. }
  unfold stack, render. destruct rooted.
  - split; [reflexivity|].
    change ("/" +:+ Strings.Join (rev out) "/")
      with ("" +:+ "/" +:+ Strings.Join (rev out) "/").
    rewrite Split_app_slash.
    change (filepath.is_rooted ("" +:+ "/" +:+ Strings.Join (rev out) "/"))
      with true.
    destruct (rev out) as [|c comps] eqn:E.
    + apply (f_equal (@rev string)) in E. rewrite rev_involutive in E.
      subst out. reflexivity.
    + rewrite Split_Join by (auto; discriminate).
      rewrite <- E.
      change (fold_left (filepath.clean_step true) (rev out) [] = out).
      apply replay. exact Hwf.
  - destruct (rev out) as [|c comps] eqn:E.
    + apply (f_equal (@rev string)) in E. rewrite rev_involutive in E.
      subst out. split; reflexivity.
    + assert (Hc : c <> "" /\ no_slash c = true).
      { apply Forall_rev in Hparts. rewrite E in Hparts.
        inversion Hparts as [|? ? [? ?] _]; subst. auto. }
      destruct Hc as [Hc Hcs].
      destruct (Join_head c comps Hc) as [Hj Hr].
      apply String.eqb_neq in Hj. rewrite Hj.
      rewrite Hr, (no_slash_not_rooted c Hcs).
      split; [reflexivity|].
      rewrite Split_Join by (auto; discriminate).
      rewrite <- E. apply replay. exact Hwf.
Qed.

Lemma render_clean rooted out :
  wf rooted out ->
  filepath.Clean (render rooted (rev out)) = render rooted (rev out).
Proof.
  intros Hwf. destruct (render_shape rooted out Hwf) as [Hr Hs].
  rewrite Clean_render, Hr, Hs. reflexivity.
Qed.

(** [Clean] is idempotent. *)
Lemma Clean_idem p : filepath.Clean (filepath.Clean p) = filepath.Clean p.
Proof. rewrite (Clean_render p). apply render_clean, stack_wf. Qed.

Lemma stack_plain name : plain name = true -> stack name = [name].
Proof.
  intros H. destruct (plain_spec name H) as (_ & _ & _ & Hs).
  unfold stack. rewrite (Split_no_slash name Hs). cbn.
  apply clean_step_plain. exact H.
Qed.

(** One more name at the end of a path is one more component on its
    stack. *)
Lemma stack_child p name :
  plain name = true -> p <> "" ->
  filepath.is_rooted (p +:+ "/" +:+ name) = filepath.is_rooted p
  /\ stack (p +:+ "/" +:+ name) = name :: stack p.
Proof.
  intros H Hp. destruct (plain_spec name H) as (_ & _ & _ & Hs).
  unfold stack. rewrite (is_rooted_app p _ Hp). split; [reflexivity|].
  rewrite Split_app_slash, (Split_no_slash name Hs), fold_left_app. cbn.
  apply clean_step_plain. exact H.
Qed.

(** The path [Join] makes of a directory and the name of an entry. *)
Lemma Join2_render p name :
  plain name = true ->
  filepath.Join [p; name]
  = render (filepath.is_rooted p) (rev (name :: stack p)).
Proof.
  intros H. destruct (plain_spec name H) as (Hne & _ & _ & Hs).
  cbn [filepath.Join]. destruct (String.eqb_spec p "") as [->|Hp].
  - apply String.eqb_neq in Hne. rewrite Hne.
    change (Strings.Join [name] "/") with name.
    rewrite Clean_render, (no_slash_not_rooted name Hs), (stack_plain name H).
    reflexivity.
  - change (Strings.Join [p; name] "/") with (p +:+ "/" +:+ name).
    destruct (stack_child p name H Hp) as [Hr Hst].
    rewrite Clean_render, Hr, Hst. reflexivity.
Qed.

Lemma wf_child p name :
  plain name = true -> wf (filepath.is_rooted p) (name :: stack p).
Proof. intros H. cbn. left. split; [exact H|apply stack_wf]. Qed.

(** Such a path is clean. *)
Lemma Join2_clean p name :
  plain name = true ->
  filepath.Clean (filepath.Join [p; name]) = filepath.Join [p; name].
Proof.
  intros H. rewrite (Join2_render p name H).
  apply render_clean, wf_child. exact H.
Qed.

(** A separator at the end of a path is dropped. *)
Lemma Clean_trailing s :
  s <> "" -> filepath.Clean (s +:+ "/") = filepath.Clean s.
Proof.
  intros Hs. rewrite !Clean_render. unfold stack.
  rewrite (is_rooted_app s _ Hs).
  change (s +:+ "/") with (s +:+ "/" +:+ "").
  rewrite Split_app_slash, fold_left_app. reflexivity.
Qed.

Lemma render_not_empty rooted comps : render rooted comps <> "".
Proof.
  unfold render. destruct rooted; [discriminate|].
  destruct (String.eqb_spec (Strings.Join comps "/") ""); [discriminate|].
  assumption.
Qed.

Lemma Join_cons c comps :
  comps <> [] ->
  Strings.Join (c :: comps) "/" = c +:+ "/" +:+ Strings.Join comps "/".
Proof. destruct comps; [congruence|reflexivity]. Qed.

Lemma rev_not_nil (out : list string) : out <> [] -> rev out <> [].
Proof.
  intros H E. apply (f_equal (@rev string)) in E.
  rewrite rev_involutive in E. auto.
Qed.

Lemma Join_rev_not_empty rooted out :
  wf rooted out -> out <> [] -> Strings.Join (rev out) "/" <> "".
Proof.
  intros Hwf Hne. pose proof (wf_parts _ _ Hwf) as Hparts.
  pose proof (rev_not_nil out Hne) as Hrev.
  destruct (rev out) as [|c comps] eqn:E; [congruence|].
  apply Forall_rev in Hparts. rewrite E in Hparts.
  inversion Hparts as [|? ? [_ Hc] _]; subst.
  apply (Join_head c comps Hc).
Qed.

(** The parts of the path of a stack in shape: the components, after an
    empty part when the path has a root. *)
Lemma Split_render rooted out :
  wf rooted out -> out <> [] ->
  Strings.Split (render rooted (rev out))
  = (if rooted then [""] else []) ++ rev out.
Proof.
  intros Hwf Hne. pose proof (wf_parts _ _ Hwf) as Hparts.
  assert (Hns : Forall (fun c => no_slash c = true) (rev out)).
  { apply Forall_rev. eapply Forall_impl; [exact Hparts|]. cbn. tauto. }
  pose proof (rev_not_nil out Hne) as Hrev.
  unfold render. destruct rooted.
  - change ("/" +:+ Strings.Join (rev out) "/")
      with ("" +:+ "/" +:+ Strings.Join (rev out) "/").
    rewrite Split_app_slash, Split_Join by assumption. reflexivity.
  - destruct (rev out) as [|c comps] eqn:E; [congruence|].
    assert (Hc : c <> "").
    { apply Forall_rev in Hparts. rewrite E in Hparts.
      inversion Hparts as [|? ? [? ?] _]; subst. auto. }
    destruct (Join_head c comps Hc) as [Hj _].
    apply String.eqb_neq in Hj. rewrite Hj.
    rewrite Split_Join by assumption. reflexivity.
Qed.

(** [Dir] of the path of a stack with a plain name on top is the path of
    the stack below. *)
Lemma Dir_render rooted out name :
  wf rooted out -> plain name = true ->
  filepath.Dir (render rooted (rev (name :: out))) = render rooted (rev out).
Proof.
  intros Hwf Hp.
  assert (Hwf' : wf rooted (name :: out)) by (cbn; left; auto).
  unfold filepath.Dir, filepath.dir_prefix.
  rewrite (Split_render rooted (name :: out) Hwf') by discriminate.
  cbn [rev]. rewrite app_assoc, rev_app_distr. cbn [rev app].
  rewrite rev_app_distr, rev_involutive.
  destruct out as [|o out'].
  - destruct rooted; reflexivity.
  - destruct rooted; cbn [rev app].
    + change ((o :: out') ++ [""]) with (o :: (out' ++ [""])).
      cbv iota beta.
      change (o :: (out' ++ [""])) with ((o :: out') ++ [""]).
      rewrite rev_app_distr. cbn [rev app].
      rewrite Join_cons by (apply (rev_not_nil (o :: out')); discriminate).
      change ("" +:+ "/" +:+ Strings.Join (rev out' ++ [o]) "/")
        with (render true (rev (o :: out'))).
      rewrite Clean_trailing by apply render_not_empty.
      apply render_clean. exact Hwf.
    + rewrite app_nil_r. cbv iota beta.
      assert (Hr : Strings.Join (rev (o :: out')) "/"
                   = render false (rev (o :: out'))).
      { unfold render.
        pose proof (Join_rev_not_empty false (o :: out') Hwf
                      ltac:(discriminate)) as Hj.
        apply String.eqb_neq in Hj. rewrite Hj. reflexivity. }
      cbn [rev] in Hr. rewrite Hr.
      rewrite Clean_trailing by apply render_not_empty.
      apply (render_clean false (o :: out')). exact Hwf.
Qed.

(** The directory of the path [Join] makes of a directory and a name is
    that directory, cleaned. *)
Lemma Dir_Join2 p name :
  plain name = true ->
  filepath.Dir (filepath.Join [p; name]) = filepath.Clean p.
Proof.
  intros H. rewrite (Join2_render p name H), (Clean_render p).
  apply Dir_render; [apply stack_wf|exact H].
Qed.

(** The name is the last part of it. *)
Lemma Join2_last p name :
  plain name = true ->
  last (Strings.Split (filepath.Join [p; name])) = Some name.
Proof.
  intros H. rewrite (Join2_render p name H).
  rewrite (Split_render _ _ (wf_child p name H)) by discriminate.
  cbn [rev]. rewrite app_assoc. apply last_snoc.
Qed.

(** Two names give two paths. *)
Lemma Join2_inj p n1 n2 :
  plain n1 = true -> plain n2 = true ->
  filepath.Join [p; n1] = filepath.Join [p; n2] -> n1 = n2.
Proof.
  intros H1 H2 E. pose proof (Join2_last p n1 H1) as L1.
  rewrite E, (Join2_last p n2 H2) in L1. congruence.
Qed.

(** The path [Join] makes of a directory, a name that is not empty and
    the name of an entry is the path it makes of some directory and that
    last name, the directory being, cleaned, the path of the first two. *)
Lemma Join3_as_Join2 s v name :
  v <> "" ->
  exists p,
    filepath.Join [s; v; name] = filepath.Join [p; name]
    /\ filepath.Clean p = filepath.Join [s; v].
Proof.
  intros Hv. pose proof Hv as Hv'. apply String.eqb_neq in Hv'.
  destruct (String.eqb_spec s "") as [->|Hs].
  - exists v. cbn [filepath.Join]. rewrite Hv'.
    change (String.eqb "" "") with true. cbv iota. split; reflexivity.
  - exists (s +:+ "/" +:+ v).
    pose proof Hs as Hs'. apply String.eqb_neq in Hs'.
    pose proof (app_not_empty s ("/" +:+ v) Hs) as Hp.
    apply String.eqb_neq in Hp.
    cbn [filepath.Join]. rewrite Hs', Hp. split; [|reflexivity].
    change (Strings.Join [s; v; name] "/")
      with (s +:+ "/" +:+ v +:+ "/" +:+ name).
    change (Strings.Join [s +:+ "/" +:+ v; name] "/")
      with ((s +:+ "/" +:+ v) +:+ "/" +:+ name).
    rewrite !string_app_assoc. reflexivity.
Qed.

End PathShape.

(** ** The operations succeed *)

Section Success.

Import pathshape.

Implicit Types (d : Driver) (spec : ImageDriverSpec) (w : World).

(** [os.Stat] reports no error exactly when the call is accepted. *)
Lemma os_Stat_nil name w :
  (os_Stat name w).1 = Returns None <-> (kernel (SysStat name) w).1 = None.
Proof.
  unfold os_Stat, sys, mbind, M_bind, mret, M_ret.
  destruct (kernel (SysStat name) w) as [[e|] w1]; cbn; split;
    congruence.
Qed.

Lemma kernel_quota_control_ok basePath w :
  faults w (SysQuotaControl basePath) = None -> exists_in w basePath ->
  (kernel (SysQuotaControl basePath) w).1 = None.
Proof.
  intros Hf [x Hx]. unfold kernel; cbn. rewrite Hf; cbn. rewrite Hx.
  reflexivity.
Qed.

Lemma kernel_set_quota_ok basePath targetPath size w :
  faults w (SysSetQuota basePath targetPath size) = None ->
  exists_in w targetPath ->
  (kernel (SysSetQuota basePath targetPath size) w).1 = None.
Proof.
  intros Hf [x Hx]. unfold kernel; cbn. rewrite Hf; cbn. rewrite Hx.
  reflexivity.
Qed.

Lemma kernel_mount_ok source target fstype flags data w :
  faults w (SysMount source target fstype flags data) = None ->
  exists_in w target ->
  (kernel (SysMount source target fstype flags data) w).1 = None.
Proof.
  intros Hf [x Hx]. unfold kernel; cbn. rewrite Hf; cbn. rewrite Hx.
  reflexivity.
Qed.

(** X17: [CreateVolume] succeeds on a new volume.  For an id that is the
    name of one entry, when the volumes directory of the store exists, the
    volume does not, and the [mkdir] is not refused, [CreateVolume] returns
    the path [storePath/volumes/id] and no error; that path is clean, lies
    directly in the volumes directory, and is the one entry added to the
    tree, with mode 0700. *)
Theorem CreateVolume_succeeds d (parentID id : string) w :
  let volumes := filepath.Join [storePath d; VolumesDirName] in
  let path := filepath.Join [storePath d; VolumesDirName; id] in
  plain id = true ->
  exists_in w volumes -> ~ exists_in w path ->
  faults w (SysMkdir path 448) = None ->
  (CreateVolume d parentID id w).1 = Returns (path, None)
  /\ filepath.Clean path = path /\ filepath.Dir path = volumes
  /\ fs (CreateVolume d parentID id w).2 = <[path := 448%N]> (fs w).
Proof.
  intros volumes path Hid Hvol Hnew Hf.
  destruct (Join3_as_Join2 (storePath d) VolumesDirName id) as (p & Hp & Hcp);
    [discriminate|].
  fold path in Hp. fold volumes in Hcp.
  assert (Hclean : filepath.Clean path = path)
    by (rewrite Hp; apply Join2_clean; exact Hid).
  assert (Hdir : filepath.Dir path = volumes)
    by (rewrite Hp, <- Hcp; apply Dir_Join2; exact Hid).
  assert (Hvc : filepath.Clean volumes = volumes)
    by (apply Join2_clean; reflexivity).
  assert (Hacc : (kernel (SysMkdir path 448) w).1 = None).
  { apply kernel_mkdir_new; [|rewrite Hclean, Hdir|exact Hf].
    - destruct (fs w !! filepath.Clean path) eqn:E; [|reflexivity].
      destruct Hnew. unfold exists_in. rewrite E. eauto.
    - unfold exists_in in Hvol. rewrite Hvc in Hvol. exact Hvol. }
  destruct (kernel_mkdir path 448 w Hacc) as (_ & _ & Hfs & _).
  rewrite Hclean in Hfs.
  unfold CreateVolume, os_Mkdir, sys, mbind, M_bind, mret, M_ret.
  fold path. destruct (kernel (SysMkdir path 448) w) as [res w1].
  cbn in Hacc, Hfs. subst res. cbn. auto.
Qed.

Lemma CreateVolume_succeeds_witness :
  (CreateVolume drv "a" "layer-7" fresh_store).1
  = Returns ("/store/volumes/layer-7", None).
Proof.
  apply (CreateVolume_succeeds drv "a" "layer-7" fresh_store).
  - reflexivity.
  - vm_compute. eauto.
  - vm_compute. intros [x Hx]. discriminate.
  - reflexivity.
Defined.

(** The next call of the script in the goal is accepted, by [Hacc]; [Hf],
    [Hm] and [Hfa] tell the tree, the mount table and the oracle of the
    world [wj] after it. *)
Ltac accept c wi wj Hacc Hf Hm Hfa :=
  let Hq := fresh "Hq" in
  let res := fresh "res" in
  pose proof (kernel_success c wi Hacc) as (Hf & Hm & Hq);
  pose proof (kernel_faults c wi) as Hfa;
  destruct (kernel c wi) as [res wj];
  cbn [fst snd] in Hacc, Hf, Hm, Hq, Hfa; subst res;
  cbn [fs_after mounts_after quotas_after] in Hf, Hm, Hq;
  cbn [run_calls app].

Lemma not_exists_lookup w path :
  ~ exists_in w path -> fs w !! filepath.Clean path = None.
Proof.
  intros H. destruct (fs w !! filepath.Clean path) eqn:E; [|reflexivity].
  destruct H. unfold exists_in. rewrite E. eauto.
Qed.

(** The calls of the setup of [CreateImage] are all accepted on a new
    image, when no call is refused. *)
Lemma CreateImage_setup_accepts d spec w :
  let upper := filepath.Join [ImagePath spec; UpperDir] in
  let work := filepath.Join [ImagePath spec; WorkDir] in
  let rootfs := filepath.Join [ImagePath spec; RootfsDir] in
  (forall c, faults w c = None) ->
  exists_in w (ImagePath spec) ->
  (DiskLimit spec <> 0%Z ->
   exists_in w (filepath.Join [storePath d; ImageDirName])) ->
  ~ exists_in w upper -> ~ exists_in w work -> ~ exists_in w rootfs ->
  (run_calls (CreateImage_setup_calls d spec) w).1 = None.
Proof.
  intros upper work rootfs Hfaults Himg Himages Hnu Hnw Hnr.
  assert (Hcu : filepath.Clean upper = upper) by (apply Join2_clean; reflexivity).
  assert (Hcw : filepath.Clean work = work) by (apply Join2_clean; reflexivity).
  assert (Hcr : filepath.Clean rootfs = rootfs)
    by (apply Join2_clean; reflexivity).
  assert (Hdu : filepath.Dir upper = filepath.Clean (ImagePath spec))
    by (apply Dir_Join2; reflexivity).
  assert (Hdw : filepath.Dir work = filepath.Clean (ImagePath spec))
    by (apply Dir_Join2; reflexivity).
  assert (Hdr : filepath.Dir rootfs = filepath.Clean (ImagePath spec))
    by (apply Dir_Join2; reflexivity).
  assert (Huw : upper <> work).
  { intros E. apply Join2_inj in E; [discriminate|reflexivity|reflexivity]. }
  assert (Hur : upper <> rootfs).
  { intros E. apply Join2_inj in E; [discriminate|reflexivity|reflexivity]. }
  assert (Hwr : work <> rootfs).
  { intros E. apply Join2_inj in E; [discriminate|reflexivity|reflexivity]. }
  apply not_exists_lookup in Hnu, Hnw, Hnr. rewrite Hcu in Hnu.
  rewrite Hcw in Hnw. rewrite Hcr in Hnr.
  unfold CreateImage_setup_calls. fold upper work rootfs.
  assert (Hpre : exists w3,
             fs w3 = fs w /\ mounts w3 = mounts w /\ faults w3 = faults w
             /\ forall post,
                  run_calls (applyDiskLimit_calls d spec ++ post) w
                  = run_calls post w3).
  { unfold applyDiskLimit_calls.
    destruct (DiskLimit spec =? 0)%Z eqn:Hz.
    - exists w. repeat split; congruence.
    - apply Z.eqb_neq in Hz. specialize (Himages Hz).
      set (images := filepath.Join [storePath d; ImageDirName]) in *.
      assert (A3 : (kernel (SysQuotaControl images) w).1 = None).
      { apply kernel_quota_control_ok; [apply Hfaults|exact Himages]. }
      pose proof (kernel_success _ _ A3) as (Hf3 & Hm3 & _).
      pose proof (kernel_faults (SysQuotaControl images) w) as Hfa3.
      set (wq := (kernel (SysQuotaControl images) w).2) in *.
      assert (A4 : (kernel (SysSetQuota images (ImagePath spec)
                                        (uint64 (DiskLimit spec))) wq).1
                   = None).
      { apply kernel_set_quota_ok; [rewrite Hfa3; apply Hfaults|].
        unfold exists_in. rewrite Hf3. exact Himg. }
      pose proof (kernel_success _ _ A4) as (Hf4 & Hm4 & _).
      pose proof (kernel_faults
                    (SysSetQuota images (ImagePath spec)
                                 (uint64 (DiskLimit spec))) wq) as Hfa4.
      exists (kernel (SysSetQuota images (ImagePath spec)
                                  (uint64 (DiskLimit spec))) wq).2.
      cbn [fs_after mounts_after] in *.
      split; [congruence|]. split; [congruence|]. split; [congruence|].
      intros post. cbn [app run_calls]. subst wq.
      destruct (kernel (SysQuotaControl images) w) as [res3 w2].
      cbn [fst snd] in *. subst res3.
      destruct (kernel _ w2) as [res4 w3]. cbn [fst snd] in *.
      subst res4. reflexivity. }
  destruct Hpre as (w3 & Hf3 & Hm3 & Hfa3 & Hpost). rewrite Hpost.
  clear Hpost. cbn [run_calls].
  assert (A5 : (kernel (SysMkdir upper 448) w3).1 = None).
  { apply kernel_mkdir_new; rewrite ?Hcu, ?Hdu, ?Hf3, ?Hfa3; auto. }
  accept (SysMkdir upper 448) w3 w4 A5 Hf5 Hm5 Hfa5. rewrite Hcu in Hf5.
  assert (A6 : (kernel (SysMkdir work 448) w4).1 = None).
  { apply kernel_mkdir_new; rewrite ?Hcw, ?Hdw, ?Hf5, ?Hf3, ?Hfa5, ?Hfa3;
      auto.
    - rewrite lookup_insert_ne by exact Huw. exact Hnw.
    - apply lookup_insert_is_Some'. right. exact Himg. }
  accept (SysMkdir work 448) w4 w5 A6 Hf6 Hm6 Hfa6. rewrite Hcw in Hf6.
  assert (A7 : (kernel (SysMkdir rootfs 448) w5).1 = None).
  { apply kernel_mkdir_new;
      rewrite ?Hcr, ?Hdr, ?Hf6, ?Hf5, ?Hf3, ?Hfa6, ?Hfa5, ?Hfa3; auto.
    - rewrite !lookup_insert_ne by congruence. exact Hnr.
    - do 2 (apply lookup_insert_is_Some'; right). exact Himg. }
  accept (SysMkdir rootfs 448) w5 w6 A7 Hf7 Hm7 Hfa7. rewrite Hcr in Hf7.
  set (cm := SysMount "overlay" rootfs "overlay" 0 (mountData spec)).
  assert (A8 : (kernel cm w6).1 = None).
  { apply kernel_mount_ok; [rewrite Hfa7, Hfa6, Hfa5, Hfa3; apply Hfaults|].
    unfold exists_in. rewrite Hcr, Hf7, lookup_insert_eq. eauto. }
  subst cm. accept (SysMount "overlay" rootfs "overlay" 0 (mountData spec))
                   w6 w7 A8 Hf8 Hm8 Hfa8.
  reflexivity.
Qed.

(** X18: [CreateImage] succeeds on a new image.  On a host that refuses
    no call, for an image path and a base volume path that are clean, are
    directories of the store and are found by [os.Stat], when the images
    directory of the store exists if a disk limit is given and the image
    path has no upper, work or rootfs entry yet, [CreateImage] returns no
    error.  Every entry of the tree before the call is kept; the three
    directories are there, each directly in the image directory, with mode
    0700; the overlay is mounted on [rootfs]; and for a disk limit other
    than zero the quota of the image path is the limit. *)
Theorem CreateImage_succeeds d spec w :
  let upper := filepath.Join [ImagePath spec; UpperDir] in
  let work := filepath.Join [ImagePath spec; WorkDir] in
  let rootfs := filepath.Join [ImagePath spec; RootfsDir] in
  (forall c, faults w c = None) ->
  filepath.Clean (ImagePath spec) = ImagePath spec ->
  filepath.Clean (BaseVolumePath spec) = BaseVolumePath spec ->
  directory_in w (ImagePath spec) -> directory_in w (BaseVolumePath spec) ->
  (os_Stat (ImagePath spec) w).1 = Returns None ->
  (os_Stat (BaseVolumePath spec) w).1 = Returns None ->
  (DiskLimit spec <> 0%Z ->
   directory_in w (filepath.Join [storePath d; ImageDirName])) ->
  ~ exists_in w upper -> ~ exists_in w work -> ~ exists_in w rootfs ->
  let r := CreateImage d spec w in
  r.1 = Returns None
  /\ fs w ⊆ fs r.2
  /\ fs r.2 !! upper = Some 448%N /\ fs r.2 !! work = Some 448%N
  /\ fs r.2 !! rootfs = Some 448%N
  /\ mounts r.2 = Mnt "overlay" rootfs "overlay" 0 (mountData spec) :: mounts w
  /\ filepath.Dir upper = ImagePath spec
  /\ filepath.Dir work = ImagePath spec
  /\ filepath.Dir rootfs = ImagePath spec
  /\ (DiskLimit spec <> 0%Z ->
      quotas r.2 !! ImagePath spec = Some (uint64 (DiskLimit spec))).
Proof.
  intros upper work rootfs Hfaults Hci Hcb Hdi Hdb Hsi Hsb Himages Hnu Hnw Hnr
    r.
  assert (Himg : exists_in w (ImagePath spec)).
  { destruct Hdi as (mode & Hmode & _). exists mode. exact Hmode. }
  assert (Hcu : filepath.Clean upper = upper) by (apply Join2_clean; reflexivity).
  assert (Hcw : filepath.Clean work = work) by (apply Join2_clean; reflexivity).
  assert (Hcr : filepath.Clean rootfs = rootfs)
    by (apply Join2_clean; reflexivity).
  apply os_Stat_nil in Hsi, Hsb.
  assert (Hok : r.1 = Returns None).
  { subst r.
    destruct (CreateImage_checked d spec w)
      as [(cause & msg & w' & tr0 & _ & _ & _ & _ & _ & _ & Hwhich)
         |(w2 & -> & _ & _ & Hf & Hm & _ & Hfa & _)];
      cbv zeta in *.
    { exfalso.
      destruct Hwhich as [(E1 & _)|(_ & E2 & _)]; congruence. }
    destruct (CreateImage_setup_script d spec w2) as (_ & err & -> & Hnil).
    f_equal. apply Hnil. apply CreateImage_setup_accepts.
    - intros c. rewrite Hfa. apply Hfaults.
    - unfold exists_in. rewrite Hf. exact Himg.
    - intros Hz. destruct (Himages Hz) as (mode & Hmode & _).
      exists mode. rewrite Hf. exact Hmode.
    - unfold exists_in. rewrite Hf. exact Hnu.
    - unfold exists_in. rewrite Hf. exact Hnw.
    - unfold exists_in. rewrite Hf. exact Hnr. }
  destruct (CreateImage_success_fresh d spec w Hok)
    as ((Hn1 & Hn2 & Hn3) & (Huw & Hur & Hwr) & Hfs & Hms).
  fold upper work rootfs r in Hn1, Hn2, Hn3, Huw, Hur, Hwr, Hfs, Hms.
  rewrite Hcu, Hcw, Hcr in *.
  split; [exact Hok|]. split.
  { rewrite Hfs. etransitivity; [|apply insert_subseteq].
    - etransitivity; [|apply insert_subseteq].
      + apply insert_subseteq. exact Hn1.
      + rewrite lookup_insert_ne by exact Huw. exact Hn2.
    - rewrite !lookup_insert_ne by congruence. exact Hn3. }
  split; [rewrite Hfs; do 2 apply lookup_insert_same; apply lookup_insert_eq|].
  split; [rewrite Hfs; apply lookup_insert_same; apply lookup_insert_eq|].
  split; [rewrite Hfs; apply lookup_insert_eq|].
  split; [exact Hms|].
  split; [rewrite <- Hci; apply Dir_Join2; reflexivity|].
  split; [rewrite <- Hci; apply Dir_Join2; reflexivity|].
  split; [rewrite <- Hci; apply Dir_Join2; reflexivity|].
  intros Hz.
  destruct (CreateImage_cases d spec w)
    as [(res & _ & _ & _ & _ & Hq & _)|(cause & msg & Hres & _)];
    cbv zeta in *.
  - fold r in Hq. apply Z.eqb_neq in Hz. rewrite Hz, Hci in Hq.
    rewrite Hq. apply lookup_insert_eq.
  - fold r in Hres. rewrite Hres in Hok. discriminate.
Qed.

Lemma CreateImage_succeeds_witness :
  (CreateImage drv (img_spec_limit 4096) fresh_store).1 = Returns None
  /\ fs (CreateImage drv (img_spec_limit 4096) fresh_store).2
       !! "/store/images/img/rootfs" = Some 448%N
  /\ quotas (CreateImage drv (img_spec_limit 4096) fresh_store).2
       !! "/store/images/img" = Some 4096%Z.
Proof.
  destruct (CreateImage_succeeds drv (img_spec_limit 4096) fresh_store)
    as (Hok & _ & _ & _ & Hr & _ & _ & _ & _ & Hq);
    [ intros c; reflexivity | reflexivity | reflexivity
    | eexists; split; vm_compute; reflexivity
    | eexists; split; vm_compute; reflexivity
    | vm_compute; reflexivity | vm_compute; reflexivity
    | intros _; eexists; split; vm_compute; reflexivity
    | vm_compute; intros [x Hx]; discriminate
    | vm_compute; intros [x Hx]; discriminate
    | vm_compute; intros [x Hx]; discriminate | ].
  split; [exact Hok|]. split; [exact Hr|].
  exact (Hq ltac:(discriminate)).
Defined.

Lemma kernel_removeall_ok path w :
  (kernel (SysRemoveAll path) w).1 = None ->
  mounted_within (filepath.Clean path) (mounts w) = false.
Proof.
  unfold kernel; cbn. destruct (faults w _); [discriminate|]. cbn.
  destruct (mounted_within _ _); [discriminate|reflexivity].
Qed.

Lemma kernel_unmount_accept target flags w :
  faults w (SysUnmount target flags) = None ->
  mounted_at (filepath.Clean target) (mounts w) = true ->
  (kernel (SysUnmount target flags) w).1 = None.
Proof.
  intros Hf Hm. unfold kernel; cbn. rewrite Hf; cbn. rewrite Hm. reflexivity.
Qed.

Lemma kernel_remove_accept name w :
  faults w (SysRemove name) = None ->
  is_Some (fs w !! filepath.Clean name) ->
  mounted_at (filepath.Clean name) (mounts w) = false ->
  below (filepath.Clean name) (fs w) = ∅ ->
  (kernel (SysRemove name) w).1 = None.
Proof.
  intros Hf [x Hx] Hm Hb. unfold kernel; cbn. rewrite Hf; cbn.
  rewrite Hx, Hm. destruct (decide _); [reflexivity|contradiction].
Qed.

Lemma kernel_removeall_accept path w :
  faults w (SysRemoveAll path) = None ->
  mounted_within (filepath.Clean path) (mounts w) = false ->
  (kernel (SysRemoveAll path) w).1 = None.
Proof.
  intros Hf Hm. unfold kernel; cbn. rewrite Hf; cbn. rewrite Hm. reflexivity.
Qed.

(** X19: when [DestroyImage] succeeds.  On a host that refuses no call,
    and with no mount lying below [rootfs] (the kernel refuses to take a
    mount off while others lie below it), [DestroyImage] returns no error
    exactly when [rootfs] is mounted, is no mount point any more once its
    latest mount is taken off, exists and has nothing below it, and
    nothing is then mounted on or below the work and upper directories. *)
Theorem DestroyImage_succeeds_iff d (imagePath : string) w :
  let rootfs := filepath.Clean (filepath.Join [imagePath; RootfsDir]) in
  let work := filepath.Clean (filepath.Join [imagePath; WorkDir]) in
  let upper := filepath.Clean (filepath.Join [imagePath; UpperDir]) in
  let ms := unmount_top rootfs (mounts w) in
  (forall c, faults w c = None) ->
  mounted_below rootfs (mounts w) = false ->
  (DestroyImage d imagePath w).1 = Returns None
  <-> mounted_at rootfs (mounts w) = true
      /\ mounted_at rootfs ms = false
      /\ is_Some (fs w !! rootfs) /\ below rootfs (fs w) = ∅
      /\ mounted_within work ms = false
      /\ mounted_within upper ms = false.
Proof.
  intros rootfs work upper ms Hfaults _.
  destruct (DestroyImage_script d imagePath w) as (_ & err & Herr & Hnil).
  rewrite Herr.
  assert (Hiff : Returns err = Returns None <-> err = None)
    by (split; [intros [= ->]; reflexivity|intros ->; reflexivity]).
  rewrite Hiff, Hnil. clear Hiff Hnil Herr err.
  unfold DestroyImage_calls.
  set (nr := filepath.Join [imagePath; RootfsDir]) in *.
  set (nw := filepath.Join [imagePath; WorkDir]) in *.
  set (nu := filepath.Join [imagePath; UpperDir]) in *.
  clearbody nr nw nu. cbn [run_calls].
  pose proof (kernel_unmount_ok nr 0 w) as U1.
  pose proof (kernel_unmount_accept nr 0 w (Hfaults _)) as U2.
  pose proof (kernel_success (SysUnmount nr 0) w) as S1.
  pose proof (kernel_faults (SysUnmount nr 0) w) as F1.
  destruct (kernel (SysUnmount nr 0) w) as [[e|] w1]; cbn [fst snd] in *.
  { split; [discriminate|]. intros (Hm & _). specialize (U2 Hm).
    discriminate. }
  destruct (S1 eq_refl) as (Hf1 & Hm1 & _). specialize (U1 eq_refl).
  cbn [fs_after mounts_after] in Hf1, Hm1. fold rootfs ms in Hm1, U1.
  assert (Hfa1 : forall c, faults w1 c = None)
    by (intros c; rewrite F1; apply Hfaults).
  clear U2 S1 F1.
  pose proof (kernel_remove_ok nr w1) as R1.
  pose proof (kernel_remove_accept nr w1 (Hfa1 _)) as R2.
  pose proof (kernel_success (SysRemove nr) w1) as S2.
  pose proof (kernel_faults (SysRemove nr) w1) as F2.
  fold rootfs in R1, R2. rewrite Hf1, Hm1 in R1, R2.
  destruct (kernel (SysRemove nr) w1) as [[e|] w2]; cbn [fst snd] in *.
  { split; [discriminate|]. intros (_ & Hm & Hin & Hb & _).
    specialize (R2 Hin Hm Hb). discriminate. }
  destruct (S2 eq_refl) as (_ & Hm2 & _). destruct (R1 eq_refl) as (Hin & Hnm & Hb).
  cbn [mounts_after] in Hm2.
  assert (Hfa2 : forall c, faults w2 c = None)
    by (intros c; rewrite F2; apply Hfa1).
  clear R1 R2 S2 F2.
  pose proof (kernel_removeall_ok nw w2) as A1.
  pose proof (kernel_removeall_accept nw w2 (Hfa2 _)) as A2.
  pose proof (kernel_success (SysRemoveAll nw) w2) as S3.
  pose proof (kernel_faults (SysRemoveAll nw) w2) as F3.
  fold work in A1, A2. rewrite Hm2, Hm1 in A1, A2.
  destruct (kernel (SysRemoveAll nw) w2) as [[e|] w3]; cbn [fst snd] in *.
  { split; [discriminate|]. intros (_ & _ & _ & _ & Hw & _).
    specialize (A2 Hw). discriminate. }
  destruct (S3 eq_refl) as (_ & Hm3 & _). specialize (A1 eq_refl).
  cbn [mounts_after] in Hm3.
  assert (Hfa3 : forall c, faults w3 c = None)
    by (intros c; rewrite F3; apply Hfa2).
  clear A2 S3 F3.
  pose proof (kernel_removeall_ok nu w3) as B1.
  pose proof (kernel_removeall_accept nu w3 (Hfa3 _)) as B2.
  fold upper in B1, B2. rewrite Hm3, Hm2, Hm1 in B1, B2.
  destruct (kernel (SysRemoveAll nu) w3) as [[e|] w4]; cbn [fst snd] in *.
  { split; [discriminate|]. intros (_ & _ & _ & _ & _ & Hu).
    specialize (B2 Hu). discriminate. }
  specialize (B1 eq_refl). split; [|reflexivity].
  intros _. repeat split; assumption.
Qed.

Lemma DestroyImage_succeeds_iff_witness :
  (DestroyImage drv "/store/images/img" store_with_image).1 = Returns None
  /\ (DestroyImage drv "/store/images/img" fresh_store).1 <> Returns None.
Proof.
  split.
  - apply (DestroyImage_succeeds_iff drv "/store/images/img"
             store_with_image).
    + intros c. reflexivity.
    + vm_compute. reflexivity.
    + vm_compute. repeat split; eauto.
  - intros Hok.
    apply (DestroyImage_succeeds_iff drv "/store/images/img" fresh_store)
      in Hok; [|intros c; reflexivity|vm_compute; reflexivity].
    destruct Hok as (Hm & _). vm_compute in Hm. discriminate Hm.
Defined.

Lemma prefix_app s t :
  String.prefix s t = true -> exists rest, t = s +:+ rest.
Proof.
  revert t. induction s as [|a s IH]; intros t H; [exists t; reflexivity|].
  destruct t as [|b t]; [discriminate|]. cbn in H.
  destruct (ascii_dec a b) as [->|]; [|discriminate].
  destruct (IH t H) as [rest ->]. exists rest. reflexivity.
Qed.

(** The number of parts of the path [Join] makes of a directory and a name
    does not depend on the name. *)
Lemma Join2_parts p name :
  plain name = true ->
  length (Strings.Split (filepath.Join [p; name]))
  = (if filepath.is_rooted p then 1 else 0) + S (length (stack p)).
Proof.
  intros H. rewrite (Join2_render p name H).
  rewrite (Split_render _ _ (wf_child p name H)) by discriminate.
  rewrite length_app, length_rev. destruct (filepath.is_rooted p); reflexivity.
Qed.

(** Two entries of one directory are not below each other. *)
Lemma Join2_not_under p a b :
  plain a = true -> plain b = true ->
  under (filepath.Join [p; a]) (filepath.Join [p; b]) = false.
Proof.
  intros Ha Hb. unfold under.
  destruct (String.eqb_spec (filepath.Join [p; a]) "/") as [E|_].
  { pose proof (Join2_last p a Ha) as L. rewrite E in L.
    injection L as <-. discriminate Ha. }
  destruct (String.prefix _ _) eqn:Hp; [|reflexivity]. exfalso.
  apply prefix_app in Hp. destruct Hp as [rest Hr].
  rewrite string_app_assoc in Hr.
  apply (f_equal (fun x => length (Strings.Split x))) in Hr.
  rewrite Split_app_slash, length_app, !Join2_parts in Hr by assumption.
  pose proof (Split_nonempty rest) as Hne.
  destruct (Strings.Split rest); [congruence|]. cbn in Hr. lia.
Qed.

Lemma under_irrefl dir : under dir dir = false.
Proof. unfold under. rewrite String.eqb_refl. apply andb_false_r. Qed.

Lemma below_insert_other dir k (v : N) (f : gmap string N) :
  under dir k = false -> below dir (<[k := v]> f) = below dir f.
Proof.
  intros H. unfold below. apply map_filter_insert_not.
  intros y. cbn. rewrite H. intros [].
Qed.

(** X20: an image that was made can be destroyed.  On a host that refuses
    no call, when [CreateImage] has returned no error, on a store where
    nothing was mounted on [rootfs] nor on or below the work and upper
    directories, and nothing lay below [rootfs], [DestroyImage] on the
    image path returns no error. *)
Theorem CreateImage_then_DestroyImage_succeeds d spec w :
  let rootfs := filepath.Join [ImagePath spec; RootfsDir] in
  let work := filepath.Join [ImagePath spec; WorkDir] in
  let upper := filepath.Join [ImagePath spec; UpperDir] in
  (forall c, faults w c = None) ->
  (CreateImage d spec w).1 = Returns None ->
  mounted_at rootfs (mounts w) = false ->
  mounted_within work (mounts w) = false ->
  mounted_within upper (mounts w) = false ->
  below rootfs (fs w) = ∅ ->
  (DestroyImage d (ImagePath spec) (CreateImage d spec w).2).1 = Returns None.
Proof.
  intros rootfs work upper Hfaults Hc Hmr Hmw Hmu Hb.
  assert (Hcu : filepath.Clean upper = upper) by (apply Join2_clean; reflexivity).
  assert (Hcw : filepath.Clean work = work) by (apply Join2_clean; reflexivity).
  assert (Hcr : filepath.Clean rootfs = rootfs)
    by (apply Join2_clean; reflexivity).
  destruct (CreateImage_success_fresh d spec w Hc) as (_ & _ & Hf1 & Hm1).
  fold upper work rootfs in Hf1, Hm1. rewrite Hcu, Hcw, Hcr in Hf1.
  rewrite Hcr in Hm1.
  assert (Hfa1 : forall c, faults (CreateImage d spec w).2 c = None).
  { intros c. rewrite CreateImage_faults. apply Hfaults. }
  set (w1 := (CreateImage d spec w).2) in *. clearbody w1. clear Hc.
  destruct (DestroyImage_script d (ImagePath spec) w1)
    as (_ & err & -> & Hnil).
  f_equal. apply Hnil. clear Hnil err.
  unfold DestroyImage_calls. fold rootfs work upper. cbn [run_calls].
  assert (A1 : (kernel (SysUnmount rootfs 0) w1).1 = None).
  { apply kernel_unmount_accept; [apply Hfa1|].
    rewrite Hcr, Hm1. cbn. rewrite String.eqb_refl. reflexivity. }
  accept (SysUnmount rootfs 0) w1 w2 A1 Hf2 Hm2 Hfa2.
  rewrite Hcr, Hm1 in Hm2. cbn in Hm2. rewrite String.eqb_refl in Hm2.
  assert (A2 : (kernel (SysRemove rootfs) w2).1 = None).
  { apply kernel_remove_accept; rewrite ?Hcr, ?Hfa2, ?Hf2, ?Hm2, ?Hf1; auto.
    - rewrite lookup_insert_eq. eauto.
    - rewrite !below_insert_other; [exact Hb| | |].
      + apply Join2_not_under; reflexivity.
      + apply Join2_not_under; reflexivity.
      + apply under_irrefl. }
  accept (SysRemove rootfs) w2 w3 A2 Hf3 Hm3 Hfa3.
  assert (A3 : (kernel (SysRemoveAll work) w3).1 = None).
  { apply kernel_removeall_accept; rewrite ?Hcw, ?Hfa3, ?Hfa2, ?Hm3, ?Hm2;
      auto. }
  accept (SysRemoveAll work) w3 w4 A3 Hf4 Hm4 Hfa4.
  assert (A4 : (kernel (SysRemoveAll upper) w4).1 = None).
  { apply kernel_removeall_accept;
      rewrite ?Hcu, ?Hfa4, ?Hfa3, ?Hfa2, ?Hm4, ?Hm3, ?Hm2; auto. }
  accept (SysRemoveAll upper) w4 w5 A4 Hf5 Hm5 Hfa5.
  reflexivity.
Qed.

Lemma CreateImage_then_DestroyImage_succeeds_witness :
  (DestroyImage drv "/store/images/img"
     (CreateImage drv (img_spec_limit 4096) fresh_store).2).1 = Returns None.
Proof.
  apply (CreateImage_then_DestroyImage_succeeds drv (img_spec_limit 4096)
           fresh_store);
    try reflexivity; vm_compute; reflexivity.
Defined.

End Success.
